(** * ai-compliance-system: playbook engine and violation detection

    A shallow embedding of [SOARAutomation] (soar-automation.js), of
    [ViolationDetector] (violation-detector.ts), of the part of
    [InfrastructureMonitor] (infrastructure-monitor.js) that works on the
    monitor's own maps, and of [ComplianceAgent.runDetection] with
    [AgentMemory.storeViolation] (index.ts, agent-memory.ts), followed by
    the properties established about them.

    Conventions of the embedding.
    - The JavaScript run time is a [World]: the wall clock read by
      [new Date()], the identifier supply behind [uuidv4()], the console,
      and the mutable stores of the two classes.
    - A method is a computation [M A]: it takes a world and returns an
      [outcome] (a value, a thrown error, or [Diverge] when the given
      number of loop iterations did not suffice) together with the world
      it leaves behind.  Mutations made before a [throw] stay.
    - Objects kept in a [Map] are addressed by the key under which they
      were registered; a variable holding such an object holds that key.
      The engine registers every incident it creates and never removes
      one, so a key always leads to its object.
    - Identifiers made by [uuidv4()] are opaque and pairwise distinct.
    - [await] is sequential composition: no other task touches the stores
      while a call is in flight.
    - A playbook is whatever [addPlaybook] accepts, which is any object:
      the properties the engine reads through (a playbook's [trigger] and
      [steps], the trigger's [conditions], a step's [config], a
      notification's [template] and [recipients]) may be missing.  That is
      how [shouldTrigger] and a run come to throw; a playbook that conforms
      to the declared interfaces makes neither throw.
    - The monitor and the agent's memory are values handed to the
      functions that read them and returned by those that change them.
      The lookups that go to the network ([lookupDomain], [lookupIP],
      [refreshAll]) are not embedded: the detector is studied for an
      arbitrary content of the monitor's caches.
    - What the run time computes on text and floating-point numbers
      ([JSON.stringify], the rendering of a number in a template literal,
      [generateEmbedding]) is a parameter of the functions that use it. *)

From Stdlib Require Import List String ZArith QArith Bool Arith Lia.
Import ListNotations.
Close Scope Q_scope.
Open Scope string_scope.
Open Scope nat_scope.

Set Implicit Arguments.

(** ** JavaScript values *)

(** A JS [number]: the finite doubles are rationals, next to [NaN] and the
    two infinities.  Comparisons are the IEEE ones: anything against [NaN]
    is false. *)
Inductive number : Type :=
| Num (q : Q)
| NaN
| PosInf
| NegInf.

Definition num_le (a b : number) : bool :=
  match a, b with
  | NaN, _ | _, NaN => false
  | NegInf, _ => true
  | _, PosInf => true
  | PosInf, _ => false
  | _, NegInf => false
  | Num x, Num y => Qle_bool x y
  end.

Definition num_lt (a b : number) : bool :=
  match a, b with
  | NaN, _ | _, NaN => false
  | PosInf, _ => false
  | _, NegInf => false
  | NegInf, _ => true
  | _, PosInf => true
  | Num x, Num y => negb (Qle_bool y x)
  end.

Definition num_eq (a b : number) : bool :=
  match a, b with
  | Num x, Num y => Qeq_bool x y
  | PosInf, PosInf => true
  | NegInf, NegInf => true
  | _, _ => false
  end.

Definition num_of_Z (z : Z) : number := Num (inject_Z z).

(** The values a field typed [unknown] can hold.  Objects are compared by
    reference. *)
Inductive jsval : Type :=
| VUndefined
| VNull
| VBool (b : bool)
| VNum (n : number)
| VStr (s : string)
| VObj (ref : nat).

(** [a === b] *)
Definition strict_eq (a b : jsval) : bool :=
  match a, b with
  | VUndefined, VUndefined => true
  | VNull, VNull => true
  | VBool x, VBool y => Bool.eqb x y
  | VNum x, VNum y => num_eq x y
  | VStr x, VStr y => String.eqb x y
  | VObj x, VObj y => Nat.eqb x y
  | _, _ => false
  end.

(** Truthiness of an optional string: [undefined] and [''] are falsy. *)
Definition truthy_str (o : option string) : bool :=
  match o with
  | Some s => negb (String.eqb s "")
  | None => false
  end.

Inductive JsError : Type :=
| TypeError (msg : string).

(** [Array.prototype.slice(start)] with no [end] argument, for an integral
    [start]: a negative [start] counts from the end. *)
Definition slice_from (A : Type) (start : Z) (l : list A) : list A :=
  let len := Z.of_nat (List.length l) in
  let k := if (start <? 0)%Z then Z.max (len + start) 0 else Z.min start len in
  skipn (Z.to_nat k) l.

(** ** [Map]: insertion-ordered, one entry per key *)

Section JsMap.
Variables K V : Type.
Variable eqb : K -> K -> bool.

Definition jsmap := list (K * V).

Fixpoint map_get (k : K) (m : jsmap) : option V :=
  match m with
  | [] => None
  | (k', v) :: r => if eqb k k' then Some v else map_get k r
  end.

(** [set] keeps the position of an existing key and appends a new one. *)
Fixpoint map_set (k : K) (v : V) (m : jsmap) : jsmap :=
  match m with
  | [] => [(k, v)]
  | (k', v') :: r => if eqb k k' then (k, v) :: r else (k', v') :: map_set k v r
  end.

Fixpoint map_delete (k : K) (m : jsmap) : jsmap :=
  match m with
  | [] => []
  | (k', v') :: r => if eqb k k' then r else (k', v') :: map_delete k r
  end.

Definition map_keys (m : jsmap) : list K := map fst m.
Definition map_values (m : jsmap) : list V := map snd m.
End JsMap.

Arguments map_get {K V} eqb k m.
Arguments map_set {K V} eqb k v m.
Arguments map_delete {K V} eqb k m.
Arguments map_keys {K V} m.
Arguments map_values {K V} m.

(** ** Types (types/index.ts) *)

(** Identifiers returned by [uuidv4()].  The generator is a supply of
    pairwise distinct identifiers; the n-th call returns identifier [n]. *)
Definition uuid := nat.

(** A [Date], in milliseconds since the epoch. *)
Definition Date := Z.

Inductive SeverityLevel := critical | high | medium | low | info.
Inductive ComplianceFramework := SOC2 | ISO27001 | HIPAA | GDPR | PCI_DSS | CUSTOM.
Inductive ViolationStatus := open | investigating | remediating | resolved | false_positive.
Inductive AssetType := domain | ip | certificate | cloud_resource.

Definition SeverityLevel_eqb (a b : SeverityLevel) : bool :=
  match a, b with
  | critical, critical | high, high | medium, medium | low, low | info, info => true
  | _, _ => false
  end.

Definition ComplianceFramework_eqb (a b : ComplianceFramework) : bool :=
  match a, b with
  | SOC2, SOC2 | ISO27001, ISO27001 | HIPAA, HIPAA | GDPR, GDPR
  | PCI_DSS, PCI_DSS | CUSTOM, CUSTOM => true
  | _, _ => false
  end.

(** The string a severity is at run time. *)
Definition SeverityLevel_str (s : SeverityLevel) : string :=
  match s with
  | critical => "critical"
  | high => "high"
  | medium => "medium"
  | low => "low"
  | info => "info"
  end.

Definition AssetType_str (a : AssetType) : string :=
  match a with
  | domain => "domain"
  | ip => "ip"
  | certificate => "certificate"
  | cloud_resource => "cloud_resource"
  end.

Module Policy.
(** The fields of [Policy] the detection checks read. *)
Record t := mk {
  id : string;
  name : string;
  framework : ComplianceFramework
}.
End Policy.

Module CertificateInfo.
Record t := mk {
  domain : string;
  issuer : string;
  subject : string;
  validFrom : Date;
  validTo : Date;
  serialNumber : string;
  signatureAlgorithm : string;
  keyAlgorithm : string;
  keySize : number;
  isValid : bool;
  daysUntilExpiry : number
}.
End CertificateInfo.

Inductive EvidenceType :=
  ev_screenshot | ev_log | ev_api_response | ev_config | ev_certificate | ev_other.

Module ViolationEvidence.
Record t := mk {
  type : EvidenceType;
  description : string;
  data : string;
  timestamp : Date
}.
End ViolationEvidence.

Inductive RemediationType := manual | automated.
Inductive RemediationStatus := pending | in_progress | completed | failed.

Module RemediationAction.
Record t := mk {
  id : uuid;
  type : RemediationType;
  status : RemediationStatus;
  description : string;
  assignedTo : option string;
  completedAt : option Date;
  automationScript : option string
}.
End RemediationAction.

Module Violation.
Record t := mk {
  id : uuid;
  policyId : string;
  policyName : string;
  requirementId : option string;
  controlId : option string;
  assetId : string;
  assetType : AssetType;
  assetIdentifier : string;
  severity : SeverityLevel;
  status : ViolationStatus;
  title : string;
  description : string;
  detectedAt : Date;
  updatedAt : Date;
  resolvedAt : option Date;
  evidence : list ViolationEvidence.t;
  remediation : list RemediationAction.t
}.

Definition set_status (s : ViolationStatus) (v : t) : t :=
  mk (id v) (policyId v) (policyName v) (requirementId v) (controlId v)
     (assetId v) (assetType v) (assetIdentifier v) (severity v) s
     (title v) (description v) (detectedAt v) (updatedAt v) (resolvedAt v)
     (evidence v) (remediation v).

Definition set_updatedAt (d : Date) (v : t) : t :=
  mk (id v) (policyId v) (policyName v) (requirementId v) (controlId v)
     (assetId v) (assetType v) (assetIdentifier v) (severity v) (status v)
     (title v) (description v) (detectedAt v) d (resolvedAt v)
     (evidence v) (remediation v).

Definition set_resolvedAt (d : Date) (v : t) : t :=
  mk (id v) (policyId v) (policyName v) (requirementId v) (controlId v)
     (assetId v) (assetType v) (assetIdentifier v) (severity v) (status v)
     (title v) (description v) (detectedAt v) (updatedAt v) (Some d)
     (evidence v) (remediation v).
End Violation.

Inductive IncidentStatus := inc_open | inc_investigating | inc_mitigated | inc_closed.
Inductive Priority := P1 | P2 | P3 | P4.
Inductive IncidentEventType :=
  created | updated | comment | status_change | assignment | escalation.

Module IncidentEvent.
Record t := mk {
  id : uuid;
  type : IncidentEventType;
  description : string;
  actor : string;
  timestamp : Date;
  data : option (list (string * jsval))
}.
End IncidentEvent.

Module Incident.
Record t := mk {
  id : uuid;
  title : string;
  description : string;
  severity : SeverityLevel;
  status : IncidentStatus;
  priority : Priority;
  assignee : option string;
  reporter : string;
  violationIds : list uuid;
  timeline : list IncidentEvent.t;
  createdAt : Date;
  updatedAt : Date;
  resolvedAt : option Date
}.

(** [Partial<Incident>]: [None] is a property the object does not have. *)
Record partial := mk_partial {
  p_id : option uuid;
  p_title : option string;
  p_description : option string;
  p_severity : option SeverityLevel;
  p_status : option IncidentStatus;
  p_priority : option Priority;
  p_assignee : option (option string);
  p_reporter : option string;
  p_violationIds : option (list uuid);
  p_timeline : option (list IncidentEvent.t);
  p_createdAt : option Date;
  p_updatedAt : option Date;
  p_resolvedAt : option (option Date)
}.

Definition or_keep (A : Type) (o : option A) (old : A) : A :=
  match o with
  | Some a => a
  | None => old
  end.

(** [Object.assign(i, u)] *)
Definition assign (i : t) (u : partial) : t :=
  mk (or_keep (p_id u) (id i)) (or_keep (p_title u) (title i))
     (or_keep (p_description u) (description i))
     (or_keep (p_severity u) (severity i)) (or_keep (p_status u) (status i))
     (or_keep (p_priority u) (priority i)) (or_keep (p_assignee u) (assignee i))
     (or_keep (p_reporter u) (reporter i))
     (or_keep (p_violationIds u) (violationIds i))
     (or_keep (p_timeline u) (timeline i)) (or_keep (p_createdAt u) (createdAt i))
     (or_keep (p_updatedAt u) (updatedAt i))
     (or_keep (p_resolvedAt u) (resolvedAt i)).

Definition set_status (s : IncidentStatus) (i : t) : t :=
  mk (id i) (title i) (description i) (severity i) s (priority i) (assignee i)
     (reporter i) (violationIds i) (timeline i) (createdAt i) (updatedAt i)
     (resolvedAt i).

Definition set_priority (p : Priority) (i : t) : t :=
  mk (id i) (title i) (description i) (severity i) (status i) p (assignee i)
     (reporter i) (violationIds i) (timeline i) (createdAt i) (updatedAt i)
     (resolvedAt i).

Definition set_assignee (a : string) (i : t) : t :=
  mk (id i) (title i) (description i) (severity i) (status i) (priority i)
     (Some a) (reporter i) (violationIds i) (timeline i) (createdAt i)
     (updatedAt i) (resolvedAt i).

Definition set_timeline (l : list IncidentEvent.t) (i : t) : t :=
  mk (id i) (title i) (description i) (severity i) (status i) (priority i)
     (assignee i) (reporter i) (violationIds i) l (createdAt i) (updatedAt i)
     (resolvedAt i).

Definition set_updatedAt (d : Date) (i : t) : t :=
  mk (id i) (title i) (description i) (severity i) (status i) (priority i)
     (assignee i) (reporter i) (violationIds i) (timeline i) (createdAt i) d
     (resolvedAt i).
End Incident.

(** *** Playbooks

    The compiled engine validates nothing at run time, so a playbook handed
    to [addPlaybook] may lack properties the declared interfaces require.
    Where the engine reads through such a property, its absence throws a
    [TypeError], as it does in JavaScript.  A playbook's [trigger], the
    trigger's [conditions], a playbook's [steps], a step's [config] and a
    notification's [template] and [recipients] may therefore be absent
    ([None]).  The first two are read by [shouldTrigger], which
    [executePlaybooks] calls outside any [try]; the others are read inside
    the [try] of [executePlaybook], [steps] before the loop and the rest by
    the step handlers.

    The other properties are never read through.  A missing [enabled] is
    falsy, as [false] is; a missing [type] of a trigger differs from
    ['violation'], as [schedule] does; a missing [type] of a step or
    [channel] of a notification falls to the [default] branch, as a value
    the engine does not know does; a missing [id] of a step is falsy and
    matches no transition, as the empty string does. *)

Inductive TriggerType := trg_violation | trg_schedule | trg_manual | trg_webhook.
Inductive StepType :=
  st_action | st_condition | st_delay | st_notification | st_remediation
| st_unknown (tag : string).
Inductive Action :=
  create_incident | send_alert | run_script | update_status | assign | escalate.
Inductive Channel :=
  slack | email | jira | pagerduty | webhook | ch_unknown (tag : string).

Module Notification.
Record t := mk {
  channel : Channel;
  template : option string;
  recipients : option (list string)
}.
End Notification.

Module Remediation.
Record t := mk {
  script : string;
  parameters : list (string * string)
}.
End Remediation.

Module Condition.
Record t := mk {
  field : string;
  operator : string;
  value : jsval
}.
End Condition.

Module Delay.
Record t := mk { seconds : number }.
End Delay.

Module StepConfig.
Record t := mk {
  action : option Action;
  notification : option Notification.t;
  remediation : option Remediation.t;
  condition : option Condition.t;
  delay : option Delay.t
}.
End StepConfig.

Module PlaybookStep.
Record t := mk {
  id : string;
  name : string;
  type : StepType;
  config : option StepConfig.t;
  onSuccess : option string;
  onFailure : option string
}.
End PlaybookStep.

Module TriggerConditions.
Record t := mk {
  severity : option (list SeverityLevel);
  assetType : option (list string);
  policyId : option string
}.
End TriggerConditions.

Module PlaybookTrigger.
Record t := mk {
  type : TriggerType;
  conditions : option TriggerConditions.t
}.
End PlaybookTrigger.

Module Playbook.
Record t := mk {
  id : string;
  name : string;
  description : string;
  trigger : option PlaybookTrigger.t;
  steps : option (list PlaybookStep.t);
  enabled : bool;
  lastRun : option Date
}.

Definition set_enabled (b : bool) (p : t) : t :=
  mk (id p) (name p) (description p) (trigger p) (steps p) b (lastRun p).

Definition set_lastRun (d : Date) (p : t) : t :=
  mk (id p) (name p) (description p) (trigger p) (steps p) (enabled p) (Some d).
End Playbook.

Inductive RunResult := success | failure.

Module ExecutionEntry.
Record t := mk {
  playbookId : string;
  executedAt : Date;
  result : RunResult
}.
End ExecutionEntry.

(** ** The run time *)

(** What a step of the engine prints.  The entry keeps what the printed
    line is built from; the text itself is not rendered. *)
Module Message.
(** [template] with [{{violation.title}}], [{{violation.description}}],
    [{{violation.severity}}] and [{{incident.id}}] filled in; the last is
    ['N/A'] ([None]) when no incident is bound. *)
Record t := mk {
  template : string;
  violation_title : string;
  violation_description : string;
  violation_severity : SeverityLevel;
  incident_id : option uuid
}.
End Message.

Inductive ConsoleLine :=
| LogNotification (ch : Channel) (msg : Message.t)
                  (recipients : option (list string))  (* printed for slack, email *)
| LogDelay (seconds : number)
| LogRemediation (script : string)
| LogPlaybookFailed (playbookName : string) (error : JsError).

Record World := mkWorld {
  (** [clock k] is what the [k]-th [new Date()] of the process reads. *)
  clock : nat -> Date;
  ticks : nat;
  uuid_next : uuid;
  console : list ConsoleLine;
  (** [SOARAutomation] *)
  playbooks : jsmap string Playbook.t;
  incidents : jsmap uuid Incident.t;
  executionHistory : list ExecutionEntry.t;
  (** [ViolationDetector] *)
  violations : jsmap uuid Violation.t
}.

Definition set_ticks (n : nat) (w : World) : World :=
  mkWorld (clock w) n (uuid_next w) (console w) (playbooks w) (incidents w)
          (executionHistory w) (violations w).
Definition set_uuid_next (n : uuid) (w : World) : World :=
  mkWorld (clock w) (ticks w) n (console w) (playbooks w) (incidents w)
          (executionHistory w) (violations w).
Definition set_console (c : list ConsoleLine) (w : World) : World :=
  mkWorld (clock w) (ticks w) (uuid_next w) c (playbooks w) (incidents w)
          (executionHistory w) (violations w).
Definition set_playbooks (p : jsmap string Playbook.t) (w : World) : World :=
  mkWorld (clock w) (ticks w) (uuid_next w) (console w) p (incidents w)
          (executionHistory w) (violations w).
Definition set_incidents (i : jsmap uuid Incident.t) (w : World) : World :=
  mkWorld (clock w) (ticks w) (uuid_next w) (console w) (playbooks w) i
          (executionHistory w) (violations w).
Definition set_executionHistory (h : list ExecutionEntry.t) (w : World) : World :=
  mkWorld (clock w) (ticks w) (uuid_next w) (console w) (playbooks w) (incidents w)
          h (violations w).
Definition set_violations (v : jsmap uuid Violation.t) (w : World) : World :=
  mkWorld (clock w) (ticks w) (uuid_next w) (console w) (playbooks w) (incidents w)
          (executionHistory w) v.

Inductive outcome (A : Type) : Type :=
| Ok (a : A)
| Throw (e : JsError)
| Diverge.
Arguments Ok {A} a.
Arguments Throw {A} e.
Arguments Diverge {A}.

Definition M (A : Type) : Type := World -> outcome A * World.

Definition ret (A : Type) (a : A) : M A := fun w => (Ok a, w).

Definition bind (A B : Type) (m : M A) (f : A -> M B) : M B :=
  fun w =>
    match m w with
    | (Ok a, w') => f a w'
    | (Throw e, w') => (Throw e, w')
    | (Diverge, w') => (Diverge, w')
    end.

Definition throw (A : Type) (e : JsError) : M A := fun w => (Throw e, w).

Definition diverge (A : Type) : M A := fun w => (Diverge, w).

Arguments throw {A} e.
Arguments diverge {A}.

(** [try { m } catch (error) { h error }] *)
Definition try_catch (A : Type) (m : M A) (h : JsError -> M A) : M A :=
  fun w =>
    match m w with
    | (Throw e, w') => h e w'
    | r => r
    end.

Declare Scope js_scope.
Delimit Scope js_scope with js.
Notation "x <- m ;; k" := (bind m (fun x => k))
  (at level 61, m at next level, right associativity) : js_scope.
Notation "m ;; k" := (bind m (fun _ => k))
  (at level 61, right associativity) : js_scope.
Open Scope js_scope.

(** [new Date()] *)
Definition newDate : M Date :=
  fun w => (Ok (clock w (ticks w)), set_ticks (S (ticks w)) w).

(** [uuidv4()] *)
Definition uuidv4 : M uuid :=
  fun w => (Ok (uuid_next w), set_uuid_next (S (uuid_next w)) w).

Definition console_log (l : ConsoleLine) : M unit :=
  fun w => (Ok tt, set_console (console w ++ [l]) w).

(** ** [SOARAutomation] (soar-automation.js) *)

Definition TypeError_undefined (prop : string) : JsError :=
  TypeError ("Cannot read properties of undefined (reading '" ++ prop ++ "')").

(** Reading and writing the incident object behind a reference. *)
Definition read_incident (ref : uuid) : M (option Incident.t) :=
  fun w => (Ok (map_get Nat.eqb ref (incidents w)), w).

Definition modify_incident (ref : uuid) (f : Incident.t -> Incident.t) : M unit :=
  fun w =>
    match map_get Nat.eqb ref (incidents w) with
    | Some i => (Ok tt, set_incidents (map_set Nat.eqb ref (f i) (incidents w)) w)
    | None => (Ok tt, w)
    end.

Definition push_history (e : ExecutionEntry.t) : M unit :=
  fun w => (Ok tt, set_executionHistory (executionHistory w ++ [e]) w).

(** [playbook.lastRun = d], for the playbook registered under [key]. *)
Definition assign_lastRun (key : string) (d : Date) : M unit :=
  fun w =>
    match map_get String.eqb key (playbooks w) with
    | Some p =>
        (Ok tt, set_playbooks (map_set String.eqb key (Playbook.set_lastRun d p)
                                       (playbooks w)) w)
    | None => (Ok tt, w)
    end.

Definition severityToPriority (s : SeverityLevel) : Priority :=
  match s with
  | critical => P1
  | high => P2
  | medium => P3
  | low | info => P4
  end.

Definition createIncidentFromViolation (violation : Violation.t) : M uuid :=
  let priority := severityToPriority (Violation.severity violation) in
  id <- uuidv4 ;;
  eid <- uuidv4 ;;
  ts <- newDate ;;
  createdAt <- newDate ;;
  updatedAt <- newDate ;;
  let incident :=
    Incident.mk id (Violation.title violation) (Violation.description violation)
      (Violation.severity violation) inc_open priority None "ComplianceAgent"
      [Violation.id violation]
      [IncidentEvent.mk eid created "Incident created from violation"
                        "ComplianceAgent" ts None]
      createdAt updatedAt None in
  (fun w => (Ok id, set_incidents (map_set Nat.eqb id incident (incidents w)) w)).

(** [addIncidentEvent(incident, type, description, actor, data)]; [actor]
    defaults to ['ComplianceAgent']. *)
Definition addIncidentEvent (incident : uuid) (type : IncidentEventType)
    (description : string) (actor : option string)
    (data : option (list (string * jsval))) : M unit :=
  let actor := match actor with Some a => a | None => "ComplianceAgent" end in
  eid <- uuidv4 ;;
  ts <- newDate ;;
  modify_incident incident
    (fun i => Incident.set_timeline
                (Incident.timeline i ++
                 [IncidentEvent.mk eid type description actor ts data]) i) ;;
  now <- newDate ;;
  modify_incident incident (Incident.set_updatedAt now).

Definition getIncident (id : uuid) (w : World) : option Incident.t :=
  map_get Nat.eqb id (incidents w).

Definition getAllIncidents (w : World) : list Incident.t :=
  map_values (incidents w).

Definition updateIncident (id : uuid) (updates : Incident.partial)
  : M (option Incident.t) :=
  incident <- read_incident id ;;
  match incident with
  | None => ret None
  | Some _ =>
      modify_incident id (fun i => Incident.assign i updates) ;;
      now <- newDate ;;
      modify_incident id (Incident.set_updatedAt now) ;;
      read_incident id
  end.

Definition addPlaybook (playbook : Playbook.t) : M unit :=
  fun w =>
    (Ok tt, set_playbooks (map_set String.eqb (Playbook.id playbook) playbook
                                   (playbooks w)) w).

Definition togglePlaybook (id : string) (enabled : bool) : M unit :=
  fun w =>
    match map_get String.eqb id (playbooks w) with
    | Some p =>
        (Ok tt, set_playbooks (map_set String.eqb id (Playbook.set_enabled enabled p)
                                       (playbooks w)) w)
    | None => (Ok tt, w)
    end.

(** [getExecutionHistory(limit = 10)]; [None] is a call without argument. *)
Definition getExecutionHistory (limit : option Z) (w : World)
  : list ExecutionEntry.t :=
  let limit := match limit with Some n => n | None => 10%Z end in
  slice_from (- limit)%Z (executionHistory w).

(** *** Trigger matcher *)

Definition includes (A : Type) (eqb : A -> A -> bool) (l : list A) (x : A) : bool :=
  existsb (fun y => eqb y x) l.

(** [shouldTrigger(playbook, violation)] reads no state and changes none:
    it answers, or throws where it reads through a [trigger] or
    [conditions] that is not there. *)
Definition shouldTrigger (playbook : Playbook.t) (violation : Violation.t)
  : outcome bool :=
  match Playbook.trigger playbook with
  | None => Throw (TypeError_undefined "type")
  | Some trigger =>
      match PlaybookTrigger.type trigger with
      | trg_violation =>
          match PlaybookTrigger.conditions trigger with
          | None => Throw (TypeError_undefined "severity")
          | Some conditions =>
              let severity_ok :=
                match TriggerConditions.severity conditions with
                | Some l =>
                    if (0 <? List.length l)
                    then includes SeverityLevel_eqb l
                                  (Violation.severity violation)
                    else true
                | None => true
                end in
              let assetType_ok :=
                match TriggerConditions.assetType conditions with
                | Some l =>
                    if (0 <? List.length l)
                    then includes String.eqb l
                           (AssetType_str (Violation.assetType violation))
                    else true
                | None => true
                end in
              let policy_ok :=
                if truthy_str (TriggerConditions.policyId conditions)
                then match TriggerConditions.policyId conditions with
                     | Some p => String.eqb (Violation.policyId violation) p
                     | None => true
                     end
                else true in
              Ok (if negb severity_ok then false
                  else if negb assetType_ok then false
                  else if negb policy_ok then false
                  else true)
          end
      | _ => Ok false
      end
  end.

(** *** Step handlers *)

Record StepResult := mkResult {
  ok : bool;                 (* [success] *)
  data : option uuid         (* the incident created, for [create_incident] *)
}.

Definition step_config (step : PlaybookStep.t) (prop : string) : M StepConfig.t :=
  match PlaybookStep.config step with
  | Some c => ret c
  | None => throw (TypeError_undefined prop)
  end.

Definition is_some (A : Type) (o : option A) : bool :=
  match o with
  | Some _ => true
  | None => false
  end.

Definition executeAction (step : PlaybookStep.t) (violation : Violation.t)
    (incident : option uuid) : M StepResult :=
  cfg <- step_config step "action" ;;
  match StepConfig.action cfg with
  | Some create_incident =>
      newIncident <- createIncidentFromViolation violation ;;
      ret (mkResult true (Some newIncident))
  | Some update_status =>
      match incident with
      | Some i =>
          modify_incident i (Incident.set_status inc_investigating) ;;
          now <- newDate ;;
          modify_incident i (Incident.set_updatedAt now) ;;
          addIncidentEvent i status_change "Status updated to investigating" None None
      | None => ret tt
      end ;;
      ret (mkResult (is_some incident) None)
  | Some assign =>
      match incident with
      | Some i =>
          modify_incident i (Incident.set_assignee "security-team") ;;
          now <- newDate ;;
          modify_incident i (Incident.set_updatedAt now) ;;
          addIncidentEvent i assignment "Assigned to security team" None None
      | None => ret tt
      end ;;
      ret (mkResult (is_some incident) None)
  | Some escalate =>
      match incident with
      | Some i =>
          modify_incident i (Incident.set_priority P1) ;;
          now <- newDate ;;
          modify_incident i (Incident.set_updatedAt now) ;;
          addIncidentEvent i escalation "Incident escalated to P1" None None
      | None => ret tt
      end ;;
      ret (mkResult (is_some incident) None)
  | _ => ret (mkResult false None)
  end.

Definition executeNotification (step : PlaybookStep.t) (violation : Violation.t)
    (incident : option uuid) : M StepResult :=
  cfg <- step_config step "notification" ;;
  match StepConfig.notification cfg with
  | None => ret (mkResult false None)
  | Some notification =>
      match Notification.template notification with
      | None => throw (TypeError_undefined "replace")
      | Some template =>
          bound <- match incident with
                   | Some i => read_incident i
                   | None => ret None
                   end ;;
          let message :=
            Message.mk template (Violation.title violation)
              (Violation.description violation) (Violation.severity violation)
              (option_map Incident.id bound) in
          match Notification.channel notification with
          | slack | email =>
              match Notification.recipients notification with
              | Some rs =>
                  console_log
                    (LogNotification (Notification.channel notification) message
                                     (Some rs))
              | None => throw (TypeError_undefined "join")
              end
          | jira | pagerduty | webhook =>
              console_log
                (LogNotification (Notification.channel notification) message None)
          | ch_unknown _ => ret tt
          end ;;
          ret (mkResult true None)
      end
  end.

(** The timer always fires, whatever [seconds] is; the run resumes after
    it. *)
Definition executeDelay (step : PlaybookStep.t) : M StepResult :=
  cfg <- step_config step "delay" ;;
  match StepConfig.delay cfg with
  | None => ret (mkResult false None)
  | Some delay =>
      console_log (LogDelay (Delay.seconds delay)) ;;
      ret (mkResult true None)
  end.

Definition executeCondition (step : PlaybookStep.t) (violation : Violation.t)
    (incident : option uuid) : M StepResult :=
  cfg <- step_config step "condition" ;;
  match StepConfig.condition cfg with
  | None => ret (mkResult false None)
  | Some condition =>
      value <-
        (if String.eqb (Condition.field condition) "acknowledged" then
           match incident with
           | Some i =>
               bound <- read_incident i ;;
               ret (VBool (truthy_str
                             (match bound with
                              | Some b => Incident.assignee b
                              | None => None
                              end)))
           | None => ret (VBool false)
           end
         else if String.eqb (Condition.field condition) "severity" then
           ret (VStr (SeverityLevel_str (Violation.severity violation)))
         else ret VUndefined) ;;
      let matches := strict_eq value (Condition.value condition) in
      ret (mkResult matches None)
  end.

Definition executeRemediation (step : PlaybookStep.t) (violation : Violation.t)
    (incident : option uuid) : M StepResult :=
  cfg <- step_config step "remediation" ;;
  match StepConfig.remediation cfg with
  | None => ret (mkResult false None)
  | Some remediation =>
      console_log (LogRemediation (Remediation.script remediation)) ;;
      ret (mkResult true None)
  end.

Definition executeStep (step : PlaybookStep.t) (violation : Violation.t)
    (incident : option uuid) : M StepResult :=
  match PlaybookStep.type step with
  | st_action => executeAction step violation incident
  | st_notification => executeNotification step violation incident
  | st_delay => executeDelay step
  | st_condition => executeCondition step violation incident
  | st_remediation => executeRemediation step violation incident
  | st_unknown _ => ret (mkResult true None)
  end.

(** *** Step executor *)

(** The steps the loop searches.  The loop is reached only when
    [playbook.steps[0]] could be read, that is when [steps] is there. *)
Definition steps_of (playbook : Playbook.t) : list PlaybookStep.t :=
  match Playbook.steps playbook with
  | Some steps => steps
  | None => []
  end.

(** [playbook.steps.find(s => s.id === currentStepId)] *)
Definition find_step (playbook : Playbook.t) (currentStepId : string)
  : option PlaybookStep.t :=
  find (fun s => String.eqb (PlaybookStep.id s) currentStepId)
       (steps_of playbook).

(** [steps[0]?.id], for the [steps] that are there *)
Definition first_step_id (playbook : Playbook.t) : option string :=
  match steps_of playbook with
  | s :: _ => Some (PlaybookStep.id s)
  | [] => None
  end.

(** [step.type === 'action' && step.config.action === 'create_incident'] *)
Definition creates_incident (step : PlaybookStep.t) : M bool :=
  match PlaybookStep.type step with
  | st_action =>
      cfg <- step_config step "action" ;;
      ret (match StepConfig.action cfg with
           | Some create_incident => true
           | _ => false
           end)
  | _ => ret false
  end.

(** One pass through the body of the [while] loop, for the step [step]
    that [currentStepId] resolved to: the next [currentStepId] and the
    incident bound afterwards. *)
Definition run_step (step : PlaybookStep.t) (violation : Violation.t)
    (incident : option uuid) : M (option string * option uuid) :=
  result <- executeStep step violation incident ;;
  let currentStepId :=
    if ok result then PlaybookStep.onSuccess step else PlaybookStep.onFailure step in
  c <- creates_incident step ;;
  ret (currentStepId, if c then data result else incident).

(** The step the loop is about to run: none when [currentStepId] is falsy
    (exit of the [while]) or names no step of the playbook ([break]). *)
Definition current_step (playbook : Playbook.t) (currentStepId : option string)
  : option PlaybookStep.t :=
  match currentStepId with
  | Some sid => if truthy_str currentStepId then find_step playbook sid else None
  | None => None
  end.

(** The [while] loop; [fuel] bounds the number of steps it may execute. *)
Fixpoint run_steps (fuel : nat) (playbook : Playbook.t) (violation : Violation.t)
    (currentStepId : option string) (incident : option uuid)
  : M (option uuid) :=
  match current_step playbook currentStepId with
  | None => ret incident
  | Some step =>
      match fuel with
      | O => diverge
      | S fuel' =>
          next <- run_step step violation incident ;;
          run_steps fuel' playbook violation (fst next) (snd next)
      end
  end.

(** The [try] block of [executePlaybook] up to the end of the loop:
    [let currentStepId = playbook.steps[0]?.id], which throws when [steps]
    is missing, [let incident = null] and the [while]. *)
Definition run_from_first (fuel : nat) (playbook : Playbook.t)
    (violation : Violation.t) : M (option uuid) :=
  match Playbook.steps playbook with
  | None => throw (TypeError_undefined "0")
  | Some _ => run_steps fuel playbook violation (first_step_id playbook) None
  end.

(** The body of the [try] block of [executePlaybook]. *)
Definition run_playbook (fuel : nat) (key : string) (playbook : Playbook.t)
    (violation : Violation.t) : M (option uuid) :=
  incident <- run_from_first fuel playbook violation ;;
  executedAt <- newDate ;;
  push_history (ExecutionEntry.mk (Playbook.id playbook) executedAt success) ;;
  lastRun <- newDate ;;
  assign_lastRun key lastRun ;;
  ret incident.

(** The [catch] block of [executePlaybook]. *)
Definition run_failed (playbook : Playbook.t) (error : JsError) : M (option uuid) :=
  executedAt <- newDate ;;
  push_history (ExecutionEntry.mk (Playbook.id playbook) executedAt failure) ;;
  console_log (LogPlaybookFailed (Playbook.name playbook) error) ;;
  ret None.

(** [executePlaybook(playbook, violation)], [playbook] being the object
    registered under [key]. *)
Definition executePlaybook (fuel : nat) (key : string) (playbook : Playbook.t)
    (violation : Violation.t) : M (option uuid) :=
  try_catch (run_playbook fuel key playbook violation) (run_failed playbook).

(** The [for] loop of [executePlaybooks] over the playbooks registered
    under [keys], in that order. *)
Fixpoint executePlaybooks_loop (fuel : nat) (violation : Violation.t)
    (keys : list string) (triggeredIncidents : list uuid) : M (list uuid) :=
  match keys with
  | [] => ret triggeredIncidents
  | key :: rest =>
      fun w =>
        match map_get String.eqb key (playbooks w) with
        | None => executePlaybooks_loop fuel violation rest triggeredIncidents w
        | Some playbook =>
            if negb (Playbook.enabled playbook)
            then executePlaybooks_loop fuel violation rest triggeredIncidents w
            else
              match shouldTrigger playbook violation with
              | Ok true =>
                  (incident <- executePlaybook fuel key playbook violation ;;
                   executePlaybooks_loop fuel violation rest
                     (match incident with
                      | Some i => triggeredIncidents ++ [i]
                      | None => triggeredIncidents
                      end)) w
              | Ok false =>
                  executePlaybooks_loop fuel violation rest triggeredIncidents w
              | Throw error => (Throw error, w)
              | Diverge => (Diverge, w)
              end
        end
  end.

Definition executePlaybooks (fuel : nat) (violation : Violation.t) : M (list uuid) :=
  fun w => executePlaybooks_loop fuel violation (map_keys (playbooks w)) [] w.

(** ** [InfrastructureMonitor.checkCertificateExpiry] (infrastructure-monitor.js) *)

Module ExpiryCheck.
Record t := mk {
  isExpiring : bool;
  daysLeft : number;
  severity : SeverityLevel
}.
End ExpiryCheck.

Definition checkCertificateExpiry (cert : CertificateInfo.t) : ExpiryCheck.t :=
  let daysLeft := CertificateInfo.daysUntilExpiry cert in
  if num_le daysLeft (num_of_Z 7) then ExpiryCheck.mk true daysLeft critical
  else if num_le daysLeft (num_of_Z 30) then ExpiryCheck.mk true daysLeft high
  else if num_le daysLeft (num_of_Z 60) then ExpiryCheck.mk true daysLeft medium
  else ExpiryCheck.mk false daysLeft low.

(** ** [ViolationDetector] (violation-detector.ts) *)

(** [o || dflt] for an optional string *)
Definition or_default (o : option string) (dflt : string) : string :=
  match o with
  | Some s => if String.eqb s "" then dflt else s
  | None => dflt
  end.

Definition modify_violation (id : uuid) (f : Violation.t -> Violation.t) : M unit :=
  fun w =>
    match map_get Nat.eqb id (violations w) with
    | Some v => (Ok tt, set_violations (map_set Nat.eqb id (f v) (violations w)) w)
    | None => (Ok tt, w)
    end.

Definition getViolation (id : uuid) (w : World) : option Violation.t :=
  map_get Nat.eqb id (violations w).

Definition ViolationStatus_eqb (a b : ViolationStatus) : bool :=
  match a, b with
  | open, open | investigating, investigating | remediating, remediating
  | resolved, resolved | false_positive, false_positive => true
  | _, _ => false
  end.

Definition updateViolationStatus (id : uuid) (status : ViolationStatus)
  : M (option Violation.t) :=
  fun w =>
    match getViolation id w with
    | Some _ =>
        (modify_violation id (Violation.set_status status) ;;
         now <- newDate ;;
         modify_violation id (Violation.set_updatedAt now) ;;
         (if ViolationStatus_eqb status resolved
          then (at_ <- newDate ;; modify_violation id (Violation.set_resolvedAt at_))
          else ret tt) ;;
         (fun w' => (Ok (getViolation id w'), w'))) w
    | None => (Ok None, w)
    end.

Module NewViolation.
(** The argument of [createViolation]. *)
Record t := mk {
  policyId : string;
  policyName : string;
  assetId : string;
  assetType : AssetType;
  assetIdentifier : string;
  severity : SeverityLevel;
  title : string;
  description : string;
  evidence : option (list ViolationEvidence.t)
}.
End NewViolation.

Definition createViolation (data : NewViolation.t) : M Violation.t :=
  id <- uuidv4 ;;
  detectedAt <- newDate ;;
  updatedAt <- newDate ;;
  rid <- uuidv4 ;;
  let violation :=
    Violation.mk id (NewViolation.policyId data) (NewViolation.policyName data)
      None None (NewViolation.assetId data) (NewViolation.assetType data)
      (NewViolation.assetIdentifier data) (NewViolation.severity data) open
      (NewViolation.title data) (NewViolation.description data)
      detectedAt updatedAt None
      (match NewViolation.evidence data with Some e => e | None => [] end)
      [RemediationAction.mk rid manual pending "Review and remediate violation"
                            None None None] in
  (fun w => (Ok violation,
             set_violations (map_set Nat.eqb id violation (violations w)) w)).

Section CertificateCheck.
(** The run time's rendering of a number in a template literal and of a
    certificate by [JSON.stringify]. *)
Variable Number_toString : number -> string.
Variable JSON_stringify : CertificateInfo.t -> string.

Definition expiring_title (daysLeft : number) : string :=
  "Certificate Expiring in " ++ Number_toString daysLeft ++ " Days".

Definition invalid_title : string := "Invalid SSL/TLS Certificate".

(** The violation pushed by the expiry check. *)
Definition expiring_violation (cert : CertificateInfo.t) (policies : list Policy.t)
    (expiryCheck : ExpiryCheck.t) : M Violation.t :=
  let policy :=
    find (fun p => ComplianceFramework_eqb (Policy.framework p) SOC2) policies in
  id <- uuidv4 ;;
  detectedAt <- newDate ;;
  updatedAt <- newDate ;;
  timestamp <- newDate ;;
  rid <- uuidv4 ;;
  ret (Violation.mk id
         (or_default (option_map Policy.id policy) "system")
         (or_default (option_map Policy.name policy) "Certificate Policy")
         None None
         (CertificateInfo.domain cert) certificate (CertificateInfo.domain cert)
         (ExpiryCheck.severity expiryCheck) open
         (expiring_title (ExpiryCheck.daysLeft expiryCheck))
         ("SSL/TLS certificate for " ++ CertificateInfo.domain cert ++
          " will expire in " ++ Number_toString (ExpiryCheck.daysLeft expiryCheck) ++
          " days. Immediate renewal is required.")
         detectedAt updatedAt None
         [ViolationEvidence.mk ev_certificate "Certificate expiration info"
                               (JSON_stringify cert) timestamp]
         [RemediationAction.mk rid manual pending "Renew SSL/TLS certificate"
                               None None None]).

(** The violation pushed for an invalid certificate. *)
Definition invalid_violation (cert : CertificateInfo.t) : M Violation.t :=
  id <- uuidv4 ;;
  detectedAt <- newDate ;;
  updatedAt <- newDate ;;
  timestamp <- newDate ;;
  rid <- uuidv4 ;;
  ret (Violation.mk id "system" "Certificate Policy" None None
         (CertificateInfo.domain cert) certificate (CertificateInfo.domain cert)
         critical open invalid_title
         ("SSL/TLS certificate for " ++ CertificateInfo.domain cert ++
          " is invalid. This may cause security warnings and service disruptions.")
         detectedAt updatedAt None
         [ViolationEvidence.mk ev_certificate "Certificate validation failure"
                               (JSON_stringify cert) timestamp]
         [RemediationAction.mk rid manual pending "Replace with valid certificate"
                               None None None]).

Definition checkCertificate (cert : CertificateInfo.t) (policies : list Policy.t)
  : M (list Violation.t) :=
  let expiryCheck := checkCertificateExpiry cert in
  expiring <- (if ExpiryCheck.isExpiring expiryCheck
               then (v <- expiring_violation cert policies expiryCheck ;; ret [v])
               else ret []) ;;
  invalid <- (if negb (CertificateInfo.isValid cert)
              then (v <- invalid_violation cert ;; ret [v])
              else ret []) ;;
  ret (expiring ++ invalid)%list.
End CertificateCheck.

(** ** Configurations *)

(** [initializeDefaultPlaybooks()] *)
Definition action_config (a : Action) : option StepConfig.t :=
  Some (StepConfig.mk (Some a) None None None None).

Definition notification_config (ch : Channel) (template : string)
    (recipients : list string) : option StepConfig.t :=
  Some (StepConfig.mk None
          (Some (Notification.mk ch (Some template) (Some recipients)))
          None None None).

Definition critical_alert : Playbook.t :=
  Playbook.mk "critical-alert" "Critical Violation Alert"
    "Automatically alert on critical severity violations"
    (Some (PlaybookTrigger.mk trg_violation
       (Some (TriggerConditions.mk (Some [critical]) None None))))
    (Some
    [ PlaybookStep.mk "step-1" "Create Incident" st_action
        (action_config create_incident) (Some "step-2") (Some "end");
      PlaybookStep.mk "step-2" "Send Slack Alert" st_notification
        (notification_config slack
           "🚨 Critical Violation Detected: {{violation.title}}" ["#security-alerts"])
        (Some "step-3") (Some "end");
      PlaybookStep.mk "step-3" "Escalate to On-Call" st_action
        (action_config escalate) None None ])
    true None.

Definition high_severity_response : Playbook.t :=
  Playbook.mk "high-severity-response" "High Severity Response"
    "Automated response for high severity violations"
    (Some (PlaybookTrigger.mk trg_violation
       (Some (TriggerConditions.mk (Some [high]) None None))))
    (Some
    [ PlaybookStep.mk "step-1" "Create Incident" st_action
        (action_config create_incident) None None;
      PlaybookStep.mk "step-2" "Send Notification" st_notification
        (notification_config slack
           "⚠️ High Severity Violation: {{violation.title}}" ["#security-team"])
        None None ])
    true None.

Definition cert_expiry_alert : Playbook.t :=
  Playbook.mk "cert-expiry-alert" "Certificate Expiry Alert"
    "Alert when certificates are expiring"
    (Some (PlaybookTrigger.mk trg_violation
       (Some (TriggerConditions.mk (Some [critical; high]) None None))))
    (Some
    [ PlaybookStep.mk "step-1" "Create Incident" st_action
        (action_config create_incident) None None;
      PlaybookStep.mk "step-2" "Wait for Acknowledgment" st_delay
        (Some (StepConfig.mk None None None None
                 (Some (Delay.mk (num_of_Z 300)))))
        None None;
      PlaybookStep.mk "step-3" "Escalate if Unacknowledged" st_condition
        (Some (StepConfig.mk None None None
                 (Some (Condition.mk "acknowledged" "equals" (VBool false)))
                 None))
        None (Some "step-4");
      PlaybookStep.mk "step-4" "Send Escalation" st_notification
        (notification_config slack
           "🔔 Certificate Expiry Unacknowledged: {{violation.title}}"
           ["#security-alerts"])
        None None ])
    true None.

Definition initializeDefaultPlaybooks : M unit :=
  addPlaybook critical_alert ;;
  addPlaybook high_severity_response ;;
  addPlaybook cert_expiry_alert.

(** A process that has started nothing yet, reading time from [c]. *)
Definition boot (c : nat -> Date) : World :=
  mkWorld c 0 0 [] [] [] [] [].

(** [new SOARAutomation()] *)
Definition new_SOARAutomation (c : nat -> Date) : World :=
  snd (initializeDefaultPlaybooks (boot c)).

(** A clock that advances by a millisecond between two readings, and one
    read several times within the same millisecond. *)
Definition ticking_clock : nat -> Date := fun k => (1000 + Z.of_nat k)%Z.
Definition frozen_clock : nat -> Date := fun _ => 1000%Z.

Definition a_violation (sev : SeverityLevel) (asset : AssetType) : Violation.t :=
  Violation.mk 7 "system" "Certificate Policy" None None "example.com" asset
    "example.com" sev open "Invalid SSL/TLS Certificate"
    "SSL/TLS certificate for example.com is invalid." 900%Z 900%Z None [] [].

(** A playbook registered without validation: its second step is a
    notification whose [template] is missing. *)
Definition untemplated : Playbook.t :=
  Playbook.mk "untemplated" "Untemplated" ""
    (Some (PlaybookTrigger.mk trg_violation
             (Some (TriggerConditions.mk None None None))))
    (Some
    [ PlaybookStep.mk "open" "Create Incident" st_action
        (action_config create_incident) (Some "tell") None;
      PlaybookStep.mk "tell" "Tell" st_notification
        (Some (StepConfig.mk None
                 (Some (Notification.mk slack None (Some ["#ops"])))
                 None None None))
        None None ])
    true None.

(** A playbook registered without validation: its trigger has no
    [conditions]. *)
Definition unconditioned : Playbook.t :=
  Playbook.mk "unconditioned" "Unconditioned" ""
    (Some (PlaybookTrigger.mk trg_violation None))
    (Some
    [ PlaybookStep.mk "open" "Create Incident" st_action
        (action_config create_incident) None None ])
    true None.

(** A playbook whose only step names itself as its successor. *)
Definition ringing : Playbook.t :=
  Playbook.mk "ringing" "Ringing" ""
    (Some (PlaybookTrigger.mk trg_violation
             (Some (TriggerConditions.mk None None None))))
    (Some
    [ PlaybookStep.mk "ring" "Ring" st_notification
        (notification_config webhook "again" [])
        (Some "ring") None ])
    true None.

(** [{status: s}] as the argument of [updateIncident] *)
Definition only_status (s : IncidentStatus) : Incident.partial :=
  Incident.mk_partial None None None None (Some s) None None None None None None
                      None None.

Definition a_certificate (days : Z) (valid : bool) : CertificateInfo.t :=
  CertificateInfo.mk "example.com" "Unknown" "example.com" 0%Z 0%Z ""
    "sha256WithRSAEncryption" "RSA" (num_of_Z 2048) valid (num_of_Z days).

Definition a_new_violation : NewViolation.t :=
  NewViolation.mk "system" "Manual" "10.0.0.1" ip "10.0.0.1" low "Open port"
                  "Port 23 is open" None.




(** ** Predicates used in the statements *)



(** The forward order of violation statuses the specification speaks of:
    [open -> investigating -> remediating -> resolved], and [false_positive]
    from anywhere. *)
Definition status_rank (s : ViolationStatus) : nat :=
  match s with
  | open => 0
  | investigating => 1
  | remediating => 2
  | resolved => 3
  | false_positive => 4
  end.

Definition forward_transition (from to : ViolationStatus) : Prop :=
  to = false_positive \/ status_rank from <= status_rank to.

(** A configuration of the step executor's loop: [currentStepId], the
    incident bound to the run, and the world. *)
Definition config : Type := option string * option uuid * World.

(** [reaches playbook violation c c']: the loop, started in [c], arrives in
    [c'] after some number of steps, none of which threw. *)
Inductive reaches (playbook : Playbook.t) (violation : Violation.t)
  : config -> config -> Prop :=
| reaches_here : forall c, reaches playbook violation c c
| reaches_next : forall cur inc w step next w' c,
    current_step playbook cur = Some step ->
    run_step step violation inc w = (Ok next, w') ->
    reaches playbook violation (fst next, snd next, w') c ->
    reaches playbook violation (cur, inc, w) c.

(** [step] is an action step configured as [create_incident]. *)
Definition is_create_incident (step : PlaybookStep.t) : Prop :=
  PlaybookStep.type step = st_action /\
  exists cfg, PlaybookStep.config step = Some cfg /\
              StepConfig.action cfg = Some create_incident.

(** Every transition of the playbook that resolves to a step goes to a step
    of smaller [rank]: the step graph has no cycle. *)
Definition descends (rank : string -> nat) (playbook : Playbook.t) : Prop :=
  forall s next s',
    In s (steps_of playbook) ->
    PlaybookStep.onSuccess s = Some next \/ PlaybookStep.onFailure s = Some next ->
    current_step playbook (Some next) = Some s' ->
    rank (PlaybookStep.id s') < rank (PlaybookStep.id s).

(** The rank of the step a run starts at. *)
Definition start_rank (rank : string -> nat) (playbook : Playbook.t) : nat :=
  match first_step_id playbook with
  | Some sid => rank sid
  | None => 0
  end.

(** No number of loop iterations lets the run of [playbook] finish. *)
Definition runs_forever (key : string) (playbook : Playbook.t)
    (violation : Violation.t) (w : World) : Prop :=
  forall fuel, fst (executePlaybook fuel key playbook violation w) = Diverge.

(** The incident registered under [id] is there, and was created from the
    violation [vid] by a [uuidv4()] call already made. *)
Definition registered (id vid : uuid) (w : World) : Prop :=
  id < uuid_next w /\
  exists i, getIncident id w = Some i /\
            Incident.id i = id /\ Incident.violationIds i = [vid].

(** [m] keeps [P]: whatever the outcome, the world it leaves satisfies [P]
    if the world it started in did. *)
Definition preserves (A : Type) (P : World -> Prop) (m : M A) : Prop :=
  forall w, P w -> P (snd (m w)).

(** [m] comes to an end, with a value or an error. *)
Definition finishes (A : Type) (m : M A) : Prop :=
  forall w, fst (m w) <> Diverge.

(** [m] returns or runs on; it never throws. *)
Definition never_throws (A : Type) (m : M A) : Prop :=
  forall w e, fst (m w) <> Throw e.

(** The functions the engine applies to an incident object never touch its
    [id] or its [violationIds]. *)
Definition keeps_identity (f : Incident.t -> Incident.t) : Prop :=
  forall i, Incident.id (f i) = Incident.id i /\
            Incident.violationIds (f i) = Incident.violationIds i.

Definition lastRun_of (key : string) (w : World) : option Date :=
  match map_get String.eqb key (playbooks w) with
  | Some p => Playbook.lastRun p
  | None => None
  end.

(** A world whose ledger holds three entries. *)
Definition three_runs : World :=
  set_executionHistory
    [ ExecutionEntry.mk "critical-alert" 1%Z success;
      ExecutionEntry.mk "untemplated" 2%Z failure;
      ExecutionEntry.mk "cert-expiry-alert" 3%Z success ]
    (boot ticking_clock).

(** A condition step on [acknowledged] whose literal is the string
    ["false"]. *)
Definition unacknowledged_string : PlaybookStep.t :=
  PlaybookStep.mk "check" "Check" st_condition
    (Some (StepConfig.mk None None None
             (Some (Condition.mk "acknowledged" "equals" (VStr "false"))) None))
    None None.

(** A detector holding one violation, reported by hand and since resolved. *)
Definition one_resolved : World :=
  snd (updateViolationStatus 0 resolved
         (snd (createViolation a_new_violation (boot ticking_clock)))).

(** An engine holding one incident, created and read within one
    millisecond. *)
Definition one_incident : World :=
  snd (createIncidentFromViolation (a_violation high certificate)
         (boot frozen_clock)).

(** Engines with the playbooks above registered by [addPlaybook]. *)
Definition with_untemplated : World :=
  snd (addPlaybook untemplated (boot ticking_clock)).

Definition with_ringing : World :=
  snd (addPlaybook ringing (boot ticking_clock)).

Definition untemplated_then_critical : World :=
  snd (addPlaybook critical_alert with_untemplated).

Definition unconditioned_then_critical : World :=
  snd ((addPlaybook unconditioned ;; addPlaybook critical_alert)
         (boot ticking_clock)).

(** A rank for the steps of [critical_alert], decreasing along its
    transitions. *)
Definition critical_alert_rank (sid : string) : nat :=
  if String.eqb sid "step-1" then 3
  else if String.eqb sid "step-2" then 2
  else if String.eqb sid "step-3" then 1
  else 0.

(** An action step that escalates, with no transitions. *)
Definition escalate_step : PlaybookStep.t :=
  PlaybookStep.mk "step-3" "Escalate to On-Call" st_action
    (action_config escalate) None None.

(** ** The rest of [SOARAutomation] *)

Definition IncidentStatus_eqb (a b : IncidentStatus) : bool :=
  match a, b with
  | inc_open, inc_open | inc_investigating, inc_investigating
  | inc_mitigated, inc_mitigated | inc_closed, inc_closed => true
  | _, _ => false
  end.

Definition getIncidentsByStatus (status : IncidentStatus) (w : World)
  : list Incident.t :=
  filter (fun i => IncidentStatus_eqb (Incident.status i) status)
         (getAllIncidents w).

Definition getPlaybook (id : string) (w : World) : option Playbook.t :=
  map_get String.eqb id (playbooks w).

Definition getAllPlaybooks (w : World) : list Playbook.t :=
  map_values (playbooks w).

(** [deletePlaybook(id)]: [Map.delete] tells whether the key was there. *)
Definition deletePlaybook (id : string) : M bool :=
  fun w =>
    (Ok (is_some (map_get String.eqb id (playbooks w))),
     set_playbooks (map_delete String.eqb id (playbooks w)) w).

Module SOARStats.
Record t := mk {
  totalPlaybooks : nat;
  enabledPlaybooks : nat;
  totalIncidents : nat;
  openIncidents : nat;
  closedIncidents : nat;
  recentExecutions : nat
}.
End SOARStats.

Module SOARAutomation.
(** [getStats()] *)
Definition getStats (w : World) : SOARStats.t :=
  let incidents := getAllIncidents w in
  SOARStats.mk
    (List.length (playbooks w))
    (List.length (filter (fun p => Playbook.enabled p) (map_values (playbooks w))))
    (List.length incidents)
    (List.length
       (filter (fun i => negb (IncidentStatus_eqb (Incident.status i) inc_closed))
               incidents))
    (List.length
       (filter (fun i => IncidentStatus_eqb (Incident.status i) inc_closed)
               incidents))
    (List.length (executionHistory w)).
End SOARAutomation.

(** [shouldTrigger] answers [true]. *)
Definition triggers (playbook : Playbook.t) (violation : Violation.t) : bool :=
  match shouldTrigger playbook violation with
  | Ok b => b
  | _ => false
  end.

(** [shouldTrigger] can read the playbook's trigger: the trigger is there,
    and so are its [conditions] when its type makes [shouldTrigger] read
    them. *)
Definition readable_trigger (playbook : Playbook.t) : Prop :=
  exists trigger,
    Playbook.trigger playbook = Some trigger /\
    (PlaybookTrigger.type trigger = trg_violation ->
     PlaybookTrigger.conditions trigger <> None).

(** Every enabled playbook of the engine has a readable trigger. *)
Definition triggers_readable (w : World) : Prop :=
  forall key playbook,
    map_get String.eqb key (playbooks w) = Some playbook ->
    Playbook.enabled playbook = true ->
    readable_trigger playbook.

(** The [id]s of the playbooks [executePlaybooks] runs for [violation], in
    registration order. *)
Definition triggered_ids (violation : Violation.t) (w : World) : list string :=
  flat_map (fun key =>
              match map_get String.eqb key (playbooks w) with
              | Some playbook =>
                  if Playbook.enabled playbook && triggers playbook violation
                  then [Playbook.id playbook] else []
              | None => []
              end)
           (map_keys (playbooks w)).

(** A playbook without its [lastRun]. *)
Definition without_lastRun (p : Playbook.t) : Playbook.t :=
  Playbook.mk (Playbook.id p) (Playbook.name p) (Playbook.description p)
              (Playbook.trigger p) (Playbook.steps p) (Playbook.enabled p) None.

(** The incidents registered by [uuidv4()] calls made before the [n]-th
    are in [w'] what they were in [w]. *)
Definition incidents_kept (n : uuid) (w w' : World) : Prop :=
  forall id, id < n -> getIncident id w' = getIncident id w.

(** An engine whose default playbooks have all been switched off. *)
Definition all_switched_off : World :=
  snd ((togglePlaybook "critical-alert" false ;;
        togglePlaybook "high-severity-response" false ;;
        togglePlaybook "cert-expiry-alert" false)
         (new_SOARAutomation ticking_clock)).

(** [w] has handed out at least the identifiers below [n], and the
    incidents registered under them are what they were in [wb]. *)
Definition untouched_below (n : uuid) (wb w : World) : Prop :=
  n <= uuid_next w /\ incidents_kept n wb w.

(** The incident bound to a run, if any, was created from the violation
    [vid] under an identifier not below [n]. *)
Definition fresh_bound (n vid : uuid) (inc : option uuid) (w : World) : Prop :=
  forall i, inc = Some i -> n <= i /\ registered i vid w.

(** ** [InfrastructureMonitor]: assets and cached facts *)

(** [s.includes(sub)] *)
Fixpoint starts_with (sub s : string) : bool :=
  match sub, s with
  | EmptyString, _ => true
  | String a sub', String b s' => Ascii.eqb a b && starts_with sub' s'
  | String _ _, EmptyString => false
  end.

Fixpoint String_includes (s sub : string) : bool :=
  starts_with sub s ||
  match s with
  | EmptyString => false
  | String _ s' => String_includes s' sub
  end.

Inductive DNSType := dns_A | dns_AAAA | dns_CNAME | dns_MX | dns_TXT | dns_NS | dns_SOA.

Definition DNSType_eqb (a b : DNSType) : bool :=
  match a, b with
  | dns_A, dns_A | dns_AAAA, dns_AAAA | dns_CNAME, dns_CNAME | dns_MX, dns_MX
  | dns_TXT, dns_TXT | dns_NS, dns_NS | dns_SOA, dns_SOA => true
  | _, _ => false
  end.

Module DNSRecord.
Record t := mk {
  type : DNSType;
  name : string;
  value : string;
  ttl : number
}.
End DNSRecord.

Module DomainRecord.
Record t := mk {
  domain : string;
  registrar : string;
  registrationDate : Date;
  expirationDate : Date;
  nameservers : list string;
  dnsRecords : list DNSRecord.t;
  status : list string
}.
End DomainRecord.

Inductive IPVersion := ipv4 | ipv6.
Inductive Reputation := rep_good | rep_suspicious | rep_malicious | rep_unknown.

Definition Reputation_eqb (a b : Reputation) : bool :=
  match a, b with
  | rep_good, rep_good | rep_suspicious, rep_suspicious
  | rep_malicious, rep_malicious | rep_unknown, rep_unknown => true
  | _, _ => false
  end.

Module IPRecord.
Record t := mk {
  ip : string;
  version : IPVersion;
  asn : number;
  asnOrg : string;
  country : string;
  city : string;
  isp : string;
  isProxy : bool;
  isVPN : bool;
  isTor : bool;
  isPrivate : option bool;
  hostname : option string;
  reputation : Reputation
}.
End IPRecord.

Inductive AssetStatus := asset_active | asset_inactive | asset_unknown.

Module MonitoredAsset.
Record t := mk {
  id : uuid;
  type : AssetType;
  identifier : string;
  organizationId : string;
  lastChecked : Date;
  status : AssetStatus;
  metadata : list (string * jsval)
}.
End MonitoredAsset.

Module InfrastructureMonitor.
Record t := mk {
  assets : jsmap uuid MonitoredAsset.t;
  domainCache : jsmap string DomainRecord.t;
  ipCache : jsmap string IPRecord.t;
  certCache : jsmap string CertificateInfo.t
}.

Definition set_assets (a : jsmap uuid MonitoredAsset.t) (m : t) : t :=
  mk a (domainCache m) (ipCache m) (certCache m).
Definition set_domainCache (c : jsmap string DomainRecord.t) (m : t) : t :=
  mk (assets m) c (ipCache m) (certCache m).
Definition set_ipCache (c : jsmap string IPRecord.t) (m : t) : t :=
  mk (assets m) (domainCache m) c (certCache m).
Definition set_certCache (c : jsmap string CertificateInfo.t) (m : t) : t :=
  mk (assets m) (domainCache m) (ipCache m) c.

(** [new InfrastructureMonitor()] *)
Definition empty : t := mk [] [] [] [].
End InfrastructureMonitor.

Definition getAssets (mon : InfrastructureMonitor.t) : list MonitoredAsset.t :=
  map_values (InfrastructureMonitor.assets mon).

Definition getAsset (id : uuid) (mon : InfrastructureMonitor.t)
  : option MonitoredAsset.t :=
  map_get Nat.eqb id (InfrastructureMonitor.assets mon).

Definition getDomainInfo (domain : string) (mon : InfrastructureMonitor.t)
  : option DomainRecord.t :=
  map_get String.eqb domain (InfrastructureMonitor.domainCache mon).

Definition getIPInfo (ip : string) (mon : InfrastructureMonitor.t)
  : option IPRecord.t :=
  map_get String.eqb ip (InfrastructureMonitor.ipCache mon).

Definition getCertificateInfo (domain : string) (mon : InfrastructureMonitor.t)
  : option CertificateInfo.t :=
  map_get String.eqb domain (InfrastructureMonitor.certCache mon).

(** [removeAsset(id)]: the answer and the monitor afterwards. *)
Definition removeAsset (id : uuid) (mon : InfrastructureMonitor.t)
  : bool * InfrastructureMonitor.t :=
  match map_get Nat.eqb id (InfrastructureMonitor.assets mon) with
  | Some asset =>
      let mon1 :=
        match MonitoredAsset.type asset with
        | domain =>
            InfrastructureMonitor.set_domainCache
              (map_delete String.eqb (MonitoredAsset.identifier asset)
                          (InfrastructureMonitor.domainCache mon)) mon
        | ip =>
            InfrastructureMonitor.set_ipCache
              (map_delete String.eqb (MonitoredAsset.identifier asset)
                          (InfrastructureMonitor.ipCache mon)) mon
        | certificate =>
            InfrastructureMonitor.set_certCache
              (map_delete String.eqb (MonitoredAsset.identifier asset)
                          (InfrastructureMonitor.certCache mon)) mon
        | cloud_resource => mon
        end in
      (is_some (map_get Nat.eqb id (InfrastructureMonitor.assets mon1)),
       InfrastructureMonitor.set_assets
         (map_delete Nat.eqb id (InfrastructureMonitor.assets mon1)) mon1)
  | None => (false, mon)
  end.

Module DomainSecurity.
Record t := mk {
  hasSPF : bool;
  hasDMARC : bool;
  hasDKIM : bool;
  issues : list string
}.
End DomainSecurity.

Definition checkDomainSecurity (domain : string) (mon : InfrastructureMonitor.t)
  : DomainSecurity.t :=
  match map_get String.eqb domain (InfrastructureMonitor.domainCache mon) with
  | None => DomainSecurity.mk false false false ["Domain not found in cache"]
  | Some domainRecord =>
      let txtRecords :=
        filter (fun r => DNSType_eqb (DNSRecord.type r) dns_TXT)
               (DomainRecord.dnsRecords domainRecord) in
      let hasSPF :=
        existsb (fun r => String_includes (DNSRecord.value r) "v=spf1") txtRecords in
      let hasDMARC :=
        existsb (fun r => String_includes (DNSRecord.value r) "v=DMARC1") txtRecords in
      let hasDKIM :=
        existsb (fun r => String_includes (DNSRecord.value r) "v=DKIM1") txtRecords in
      DomainSecurity.mk hasSPF hasDMARC hasDKIM
        ((if negb hasSPF then ["Missing SPF record"] else []) ++
         (if negb hasDMARC then ["Missing DMARC record"] else []) ++
         (if negb hasDKIM then ["Missing DKIM record"] else []))%list
  end.

(** [lookupCertificate(domain)]: the shipped lookup contacts nothing; it
    reads the clock twice and answers with a valid certificate that has 90
    days left. *)
Definition lookupCertificate (domain : string) : M CertificateInfo.t :=
  validFrom <- newDate ;;
  now <- newDate ;;
  ret (CertificateInfo.mk domain "Unknown" domain validFrom
         (now + 90 * 24 * 60 * 60 * 1000)%Z "" "sha256WithRSAEncryption" "RSA"
         (num_of_Z 2048) true (num_of_Z 90)).

(** [addCertificate(domain, organizationId)]: the asset and the monitor
    afterwards.  [lookupCertificate] builds a record and has nothing that
    throws, so the [catch] block around it is never entered and is not
    represented. *)
Definition addCertificate (domain organizationId : string)
    (mon : InfrastructureMonitor.t)
  : M (MonitoredAsset.t * InfrastructureMonitor.t) :=
  id <- uuidv4 ;;
  lastChecked <- newDate ;;
  let asset :=
    MonitoredAsset.mk id certificate domain organizationId lastChecked
                      asset_active [] in
  let mon1 :=
    InfrastructureMonitor.set_assets
      (map_set Nat.eqb id asset (InfrastructureMonitor.assets mon)) mon in
  certInfo <- lookupCertificate domain ;;
  ret (asset,
       InfrastructureMonitor.set_certCache
         (map_set String.eqb domain certInfo
                  (InfrastructureMonitor.certCache mon1)) mon1).

(** ** The rest of [ViolationDetector] *)

Definition getAllViolations (w : World) : list Violation.t :=
  map_values (violations w).

Definition getViolationsByStatus (status : ViolationStatus) (w : World)
  : list Violation.t :=
  filter (fun v => ViolationStatus_eqb (Violation.status v) status)
         (getAllViolations w).

Definition getViolationsBySeverity (severity : SeverityLevel) (w : World)
  : list Violation.t :=
  filter (fun v => SeverityLevel_eqb (Violation.severity v) severity)
         (getAllViolations w).

Definition getOpenViolations (w : World) : list Violation.t :=
  filter (fun v => ViolationStatus_eqb (Violation.status v) open ||
                   ViolationStatus_eqb (Violation.status v) investigating ||
                   ViolationStatus_eqb (Violation.status v) remediating)
         (getAllViolations w).

(** [deleteViolation(id)] *)
Definition deleteViolation (id : uuid) : M bool :=
  fun w =>
    (Ok (is_some (map_get Nat.eqb id (violations w))),
     set_violations (map_delete Nat.eqb id (violations w)) w).

Module NewRemediation.
(** [Omit<RemediationAction, 'id'>] *)
Record t := mk {
  type : RemediationType;
  status : RemediationStatus;
  description : string;
  assignedTo : option string;
  completedAt : option Date;
  automationScript : option string
}.
End NewRemediation.

Definition push_remediation (r : RemediationAction.t) (v : Violation.t)
  : Violation.t :=
  Violation.mk (Violation.id v) (Violation.policyId v) (Violation.policyName v)
    (Violation.requirementId v) (Violation.controlId v) (Violation.assetId v)
    (Violation.assetType v) (Violation.assetIdentifier v) (Violation.severity v)
    (Violation.status v) (Violation.title v) (Violation.description v)
    (Violation.detectedAt v) (Violation.updatedAt v) (Violation.resolvedAt v)
    (Violation.evidence v) (Violation.remediation v ++ [r]).

Definition addRemediation (violationId : uuid) (remediation : NewRemediation.t)
  : M (option RemediationAction.t) :=
  fun w =>
    match getViolation violationId w with
    | Some _ =>
        (id <- uuidv4 ;;
         let newRemediation :=
           RemediationAction.mk id (NewRemediation.type remediation)
             (NewRemediation.status remediation)
             (NewRemediation.description remediation)
             (NewRemediation.assignedTo remediation)
             (NewRemediation.completedAt remediation)
             (NewRemediation.automationScript remediation) in
         modify_violation violationId (push_remediation newRemediation) ;;
         now <- newDate ;;
         modify_violation violationId (Violation.set_updatedAt now) ;;
         ret (Some newRemediation)) w
    | None => (Ok None, w)
    end.

(** A [Record<K, number>] of counters. *)
Definition bump (K : Type) (eqb : K -> K -> bool) (k : K) (f : K -> nat)
  : K -> nat :=
  fun x => if eqb x k then S (f x) else f x.

Module ViolationStats.
Record t := mk {
  total : nat;
  byStatus : ViolationStatus -> nat;
  bySeverity : SeverityLevel -> nat;
  openCount : nat;
  resolvedCount : nat
}.
End ViolationStats.

Module ViolationDetector.
(** [getStats()] *)
Definition getStats (w : World) : ViolationStats.t :=
  let violations := getAllViolations w in
  let counts :=
    fold_left
      (fun acc v =>
         (bump ViolationStatus_eqb (Violation.status v) (fst acc),
          bump SeverityLevel_eqb (Violation.severity v) (snd acc)))
      violations
      (fun _ : ViolationStatus => 0, fun _ : SeverityLevel => 0) in
  ViolationStats.mk (List.length violations) (fst counts) (snd counts)
    (fst counts open + fst counts investigating + fst counts remediating)
    (fst counts resolved).
End ViolationDetector.

(** *** Detection rules *)

Inductive RuleKind := rk_domain | rk_ip | rk_certificate | rk_composite.
Inductive RuleOperator :=
  op_equals | op_contains | op_regex | op_in | op_not_in | op_greater_than
| op_less_than.
Inductive RuleValue :=
| rv_string (s : string)
| rv_strings (l : list string)
| rv_number (n : number).

Module RuleCondition.
Record t := mk {
  type : RuleKind;
  assetType : AssetType;
  operator : RuleOperator;
  field : string;
  value : RuleValue
}.
End RuleCondition.

Module DetectionRule.
Record t := mk {
  id : string;
  name : string;
  description : string;
  condition : RuleCondition.t;
  severity : SeverityLevel;
  enabled : bool;
  framework : ComplianceFramework
}.

Definition set_enabled (b : bool) (r : t) : t :=
  mk (id r) (name r) (description r) (condition r) (severity r) b (framework r).
End DetectionRule.

(** [initializeDefaultRules()] *)
Definition initializeDefaultRules : list DetectionRule.t :=
  [ DetectionRule.mk "cert-expiry-critical" "Certificate Expiring Within 7 Days"
      "SSL/TLS certificate will expire within 7 days - critical"
      (RuleCondition.mk rk_certificate certificate op_less_than "daysUntilExpiry"
                        (rv_number (num_of_Z 7)))
      critical true CUSTOM;
    DetectionRule.mk "cert-expiry-high" "Certificate Expiring Within 30 Days"
      "SSL/TLS certificate will expire within 30 days"
      (RuleCondition.mk rk_certificate certificate op_less_than "daysUntilExpiry"
                        (rv_number (num_of_Z 30)))
      high true CUSTOM;
    DetectionRule.mk "cert-expiry-medium" "Certificate Expiring Within 60 Days"
      "SSL/TLS certificate will expire within 60 days"
      (RuleCondition.mk rk_certificate certificate op_less_than "daysUntilExpiry"
                        (rv_number (num_of_Z 60)))
      medium true CUSTOM;
    DetectionRule.mk "domain-missing-spf" "Domain Missing SPF Record"
      "Domain is missing SPF record - email spoofing risk"
      (RuleCondition.mk rk_domain domain op_not_in "security" (rv_strings ["spf"]))
      high true CUSTOM;
    DetectionRule.mk "domain-missing-dmarc" "Domain Missing DMARC Record"
      "Domain is missing DMARC record - email spoofing risk"
      (RuleCondition.mk rk_domain domain op_not_in "security" (rv_strings ["dmarc"]))
      high true CUSTOM;
    DetectionRule.mk "ip-malicious" "Malicious IP Address"
      "IP address has malicious reputation"
      (RuleCondition.mk rk_ip ip op_equals "reputation" (rv_string "malicious"))
      critical true CUSTOM;
    DetectionRule.mk "ip-suspicious" "Suspicious IP Address"
      "IP address has suspicious reputation"
      (RuleCondition.mk rk_ip ip op_equals "reputation" (rv_string "suspicious"))
      high true CUSTOM;
    DetectionRule.mk "ip-tor-exit" "Tor Exit Node"
      "IP address is a known Tor exit node"
      (RuleCondition.mk rk_ip ip op_equals "isTor" (rv_string "true"))
      high true CUSTOM ].

(** The rule list of a detector is passed to and returned by the functions
    that read or change it. *)
Definition getRules (rules : list DetectionRule.t) : list DetectionRule.t :=
  filter (fun r => DetectionRule.enabled r) rules.

Definition addRule (rule : DetectionRule.t) (rules : list DetectionRule.t)
  : list DetectionRule.t :=
  (rules ++ [rule])%list.

(** [toggleRule(ruleId, enabled)]: [find] stops at the first rule with the
    id. *)
Fixpoint toggleRule (ruleId : string) (enabled : bool)
    (rules : list DetectionRule.t) : list DetectionRule.t :=
  match rules with
  | [] => []
  | r :: rest =>
      if String.eqb (DetectionRule.id r) ruleId
      then DetectionRule.set_enabled enabled r :: rest
      else r :: toggleRule ruleId enabled rest
  end.

(** *** The checks for domains and IP addresses, and the detection pass *)

Definition missing_spf_title : string := "Missing SPF Record".
Definition missing_dmarc_title : string := "Missing DMARC Record".
Definition malicious_ip_title : string := "Malicious IP Address Detected".
Definition tor_exit_title : string := "Tor Exit Node Detected".

Section DetectionChecks.
(** The run time's rendering of a number in a template literal, and
    [JSON.stringify]. *)
Variable Number_toString : number -> string.
Variable JSON_stringify : forall A : Type, A -> string.

(** A violation as the domain and IP checks build it: fresh ids, three clock
    readings, one evidence item, one pending manual remediation. *)
Definition new_violation (policyId policyName assetId : string)
    (assetType : AssetType) (severity : SeverityLevel)
    (title description : string) (evidenceType : EvidenceType)
    (evidenceDescription data remediationDescription : string)
  : M Violation.t :=
  id <- uuidv4 ;;
  detectedAt <- newDate ;;
  updatedAt <- newDate ;;
  timestamp <- newDate ;;
  rid <- uuidv4 ;;
  ret (Violation.mk id policyId policyName None None assetId assetType assetId
         severity open title description detectedAt updatedAt None
         [ViolationEvidence.mk evidenceType evidenceDescription data timestamp]
         [RemediationAction.mk rid manual pending remediationDescription
                               None None None]).

Definition checkDomain (mon : InfrastructureMonitor.t) (domainRecord : DomainRecord.t)
    (policies : list Policy.t) : M (list Violation.t) :=
  let policy :=
    find (fun p => ComplianceFramework_eqb (Policy.framework p) SOC2) policies in
  let securityCheck := checkDomainSecurity (DomainRecord.domain domainRecord) mon in
  let txt :=
    JSON_stringify
      (filter (fun r => DNSType_eqb (DNSRecord.type r) dns_TXT)
              (DomainRecord.dnsRecords domainRecord)) in
  spf <- (if negb (DomainSecurity.hasSPF securityCheck)
          then (v <- new_violation
                       (or_default (option_map Policy.id policy) "system")
                       (or_default (option_map Policy.name policy)
                                   "Email Security Policy")
                       (DomainRecord.domain domainRecord) domain high
                       missing_spf_title
                       ("Domain " ++ DomainRecord.domain domainRecord ++
                        " is missing SPF record. This increases the risk of email spoofing and phishing attacks.")
                       ev_config "DNS TXT records" txt
                       "Add SPF record to domain DNS" ;;
                ret [v])
          else ret []) ;;
  dmarc <- (if negb (DomainSecurity.hasDMARC securityCheck)
            then (v <- new_violation
                         (or_default (option_map Policy.id policy) "system")
                         (or_default (option_map Policy.name policy)
                                     "Email Security Policy")
                         (DomainRecord.domain domainRecord) domain high
                         missing_dmarc_title
                         ("Domain " ++ DomainRecord.domain domainRecord ++
                          " is missing DMARC record. This increases the risk of email spoofing and phishing attacks.")
                         ev_config "DNS TXT records" txt
                         "Add DMARC record to domain DNS" ;;
                  ret [v])
            else ret []) ;;
  ret (spf ++ dmarc)%list.

Definition checkIP (ipRecord : IPRecord.t) (policies : list Policy.t)
  : M (list Violation.t) :=
  let policy :=
    find (fun p => ComplianceFramework_eqb (Policy.framework p) CUSTOM) policies in
  malicious <-
    (if Reputation_eqb (IPRecord.reputation ipRecord) rep_malicious
     then (v <- new_violation
                  (or_default (option_map Policy.id policy) "system")
                  (or_default (option_map Policy.name policy)
                              "IP Reputation Policy")
                  (IPRecord.ip ipRecord) ip critical malicious_ip_title
                  ("IP address " ++ IPRecord.ip ipRecord ++
                   " has a malicious reputation. Immediate investigation required.")
                  ev_api_response "IP reputation data" (JSON_stringify ipRecord)
                  "Block IP at firewall level" ;;
           ret [v])
     else ret []) ;;
  tor <-
    (if IPRecord.isTor ipRecord
     then (v <- new_violation
                  (or_default (option_map Policy.id policy) "system")
                  (or_default (option_map Policy.name policy)
                              "Network Security Policy")
                  (IPRecord.ip ipRecord) ip high tor_exit_title
                  ("IP address " ++ IPRecord.ip ipRecord ++
                   " is a known Tor exit node. This may indicate attempts to hide the source of network traffic.")
                  ev_api_response "IP classification data"
                  (JSON_stringify ipRecord)
                  "Review and potentially block Tor traffic" ;;
           ret [v])
     else ret []) ;;
  ret (malicious ++ tor)%list.

(** [for (const violation of violations) this.violations.set(...)] *)
Definition store_violations (vs : list Violation.t) : M unit :=
  fun w =>
    (Ok tt,
     set_violations
       (fold_left (fun m v => map_set Nat.eqb (Violation.id v) v m) vs
                  (violations w)) w).

Definition checkAsset (mon : InfrastructureMonitor.t) (identifier : string)
    (type : AssetType) (policies : list Policy.t) : M (list Violation.t) :=
  match type with
  | cloud_resource => ret []
  | _ =>
      violations <-
        match type with
        | certificate =>
            match getCertificateInfo identifier mon with
            | Some certInfo =>
                checkCertificate Number_toString
                  (JSON_stringify (A:=CertificateInfo.t)) certInfo policies
            | None => ret []
            end
        | domain =>
            match getDomainInfo identifier mon with
            | Some domainInfo => checkDomain mon domainInfo policies
            | None => ret []
            end
        | ip =>
            match getIPInfo identifier mon with
            | Some ipInfo => checkIP ipInfo policies
            | None => ret []
            end
        | cloud_resource => ret []
        end ;;
      store_violations violations ;;
      ret violations
  end.

(** The loop of [runDetection] over the assets still to check. *)
Fixpoint runDetection_loop (mon : InfrastructureMonitor.t)
    (policies : list Policy.t) (assets : list MonitoredAsset.t)
    (detectedViolations : list Violation.t) : M (list Violation.t) :=
  match assets with
  | [] => ret detectedViolations
  | asset :: rest =>
      violations <- checkAsset mon (MonitoredAsset.identifier asset)
                               (MonitoredAsset.type asset) policies ;;
      runDetection_loop mon policies rest (detectedViolations ++ violations)%list
  end.

Definition runDetection (mon : InfrastructureMonitor.t) (policies : list Policy.t)
  : M (list Violation.t) :=
  runDetection_loop mon policies (getAssets mon) [].
End DetectionChecks.

(** *** What a check hands out *)

(** [issued vs w w']: the violations [vs] were built between [w] and [w']
    with consecutive pairs of fresh identifiers, all of them [open], and
    nothing was stored or changed in the engine. *)
Definition issued (vs : list Violation.t) (w w' : World) : Prop :=
  map Violation.id vs =
    map (fun i => uuid_next w + 2 * i) (seq 0 (List.length vs)) /\
  uuid_next w' = uuid_next w + 2 * List.length vs /\
  violations w' = violations w /\
  playbooks w' = playbooks w /\
  incidents w' = incidents w /\
  executionHistory w' = executionHistory w /\
  Forall (fun v => Violation.status v = open) vs.

(** The identifiers of the stored violations are below the next one to be
    handed out. *)
Definition violations_below (w : World) : Prop :=
  forall id, In id (map_keys (violations w)) -> id < uuid_next w.

(** A string has [sub] as a substring. *)
Definition substring (sub s : string) : Prop :=
  exists pre post, s = (pre ++ sub ++ post)%string.

(** A cached domain publishes a TXT record with [marker] in it. *)
Definition publishes (marker : string) (domainName : string)
    (mon : InfrastructureMonitor.t) : Prop :=
  exists d r,
    getDomainInfo domainName mon = Some d /\
    In r (DomainRecord.dnsRecords d) /\
    DNSRecord.type r = dns_TXT /\
    substring marker (DNSRecord.value r).


(** [detected vs w w']: as [issued], and the violations were stored, in
    order, under their identifiers. *)
Definition detected (vs : list Violation.t) (w w' : World) : Prop :=
  map Violation.id vs =
    map (fun i => uuid_next w + 2 * i) (seq 0 (List.length vs)) /\
  uuid_next w' = uuid_next w + 2 * List.length vs /\
  violations w' =
    fold_left (fun m v => map_set Nat.eqb (Violation.id v) v m) vs
              (violations w) /\
  playbooks w' = playbooks w /\
  incidents w' = incidents w /\
  executionHistory w' = executionHistory w /\
  Forall (fun v => Violation.status v = open) vs.

(** [checked_in_turn N J mon policies assets w vs w']: [checkAsset] was run
    on each of [assets], in order, each from the state the one before left,
    and [vs] holds what they returned, one after the other. *)
Inductive checked_in_turn (Number_toString : number -> string)
    (JSON_stringify : forall A : Type, A -> string)
    (mon : InfrastructureMonitor.t) (policies : list Policy.t)
  : list MonitoredAsset.t -> World -> list Violation.t -> World -> Prop :=
| checked_none : forall w,
    checked_in_turn Number_toString JSON_stringify mon policies [] w [] w
| checked_next : forall asset rest w vs1 w1 vs2 w2,
    checkAsset Number_toString JSON_stringify mon
               (MonitoredAsset.identifier asset) (MonitoredAsset.type asset)
               policies w = (Ok vs1, w1) ->
    checked_in_turn Number_toString JSON_stringify mon policies rest w1 vs2 w2 ->
    checked_in_turn Number_toString JSON_stringify mon policies
                    (asset :: rest) w (vs1 ++ vs2) w2.

(** What a finding says, apart from its identifiers and dates. *)
Definition finding (v : Violation.t)
  : SeverityLevel * string * AssetType * string * string :=
  (Violation.severity v, Violation.title v, Violation.assetType v,
   Violation.assetIdentifier v, Violation.policyId v).


(** A monitor that watches one address, cached as a malicious Tor exit
    node, and one domain whose only TXT record is an SPF policy. *)
Definition a_malicious_ip : IPRecord.t :=
  IPRecord.mk "203.0.113.9" ipv4 (num_of_Z 0) "Unknown" "Unknown" "Unknown"
    "Unknown" false false true None None rep_malicious.

Definition spf_only_domain : DomainRecord.t :=
  DomainRecord.mk "example.com" "Unknown" 0%Z 0%Z []
    [DNSRecord.mk dns_TXT "example.com" "v=spf1 -all" (num_of_Z 300)] ["ok"].

Definition a_monitor : InfrastructureMonitor.t :=
  InfrastructureMonitor.mk
    [(0, MonitoredAsset.mk 0 ip "203.0.113.9" "org" 0%Z asset_active []);
     (1, MonitoredAsset.mk 1 domain "example.com" "org" 0%Z asset_active [])]
    [("example.com", spf_only_domain)]
    [("203.0.113.9", a_malicious_ip)]
    [].


(** The maps of a monitor hold one entry per key. *)
Definition well_keyed (mon : InfrastructureMonitor.t) : Prop :=
  NoDup (map_keys (InfrastructureMonitor.assets mon)) /\
  NoDup (map_keys (InfrastructureMonitor.domainCache mon)) /\
  NoDup (map_keys (InfrastructureMonitor.ipCache mon)) /\
  NoDup (map_keys (InfrastructureMonitor.certCache mon)).


(** ** [AgentMemory] and [ComplianceAgent.runDetection] *)

Definition ViolationStatus_str (s : ViolationStatus) : string :=
  match s with
  | open => "open"
  | investigating => "investigating"
  | remediating => "remediating"
  | resolved => "resolved"
  | false_positive => "false_positive"
  end.

Inductive MemoryType :=
  mem_policy | mem_violation | mem_incident | mem_conversation | mem_knowledge.

Module MemoryMetadata.
Record t := mk {
  policyId : option string;
  violationId : option uuid;
  incidentId : option uuid;
  tags : list string;
  source : string
}.
End MemoryMetadata.

Module MemoryEntry.
Record t := mk {
  id : uuid;
  type : MemoryType;
  content : string;
  embedding : list number;
  metadata : MemoryMetadata.t;
  createdAt : Date;
  accessedAt : Date;
  accessCount : nat
}.
End MemoryEntry.

Inductive ConversationRole := role_user | role_assistant | role_system.

Module ConversationContext.
Record t := mk {
  policies : list string;
  violations : list string
}.
End ConversationContext.

Module ConversationEntry.
Record t := mk {
  id : uuid;
  role : ConversationRole;
  content : string;
  timestamp : Date;
  context : ConversationContext.t
}.
End ConversationEntry.

(** A line break of a template literal. *)
Definition nl : string := String (Ascii.ascii_of_nat 10) EmptyString.

Module AgentMemory.
Record t := mk {
  memoryStore : jsmap uuid MemoryEntry.t;
  conversationHistory : list ConversationEntry.t
}.

(** [new AgentMemory()] *)
Definition empty : t := mk [] [].

Section Embedding.
(** [generateEmbedding] computes with floating-point square roots and
    quotients; it is a function of the text and neither throws nor touches
    any state. *)
Variable generateEmbedding : string -> list number.

Definition storeViolation (violation : Violation.t) (mem : t)
  : M (MemoryEntry.t * t) :=
  let content :=
    (nl ++ "      Violation: " ++ Violation.title violation ++
     nl ++ "      Policy: " ++ Violation.policyName violation ++
     nl ++ "      Severity: " ++ SeverityLevel_str (Violation.severity violation) ++
     nl ++ "      Status: " ++ ViolationStatus_str (Violation.status violation) ++
     nl ++ "      Asset: " ++ AssetType_str (Violation.assetType violation) ++
     ": " ++ Violation.assetIdentifier violation ++
     nl ++ "      Description: " ++ Violation.description violation ++
     nl ++ "    ")%string in
  let embedding := generateEmbedding content in
  id <- uuidv4 ;;
  createdAt <- newDate ;;
  accessedAt <- newDate ;;
  let entry :=
    MemoryEntry.mk id mem_violation content embedding
      (MemoryMetadata.mk (Some (Violation.policyId violation))
         (Some (Violation.id violation)) None
         [SeverityLevel_str (Violation.severity violation);
          ViolationStatus_str (Violation.status violation);
          AssetType_str (Violation.assetType violation)]
         "violation-detector")
      createdAt accessedAt 0 in
  ret (entry,
       mk (map_set Nat.eqb id entry (memoryStore mem)) (conversationHistory mem)).

End Embedding.

End AgentMemory.

Module ComplianceAgent.
Section Agent.
Variable Number_toString : number -> string.
Variable JSON_stringify : forall A : Type, A -> string.
Variable generateEmbedding : string -> list number.

(** The loop of [runDetection] over the violations still to hand on: each
    is stored in the agent's memory and then given to the engine. *)
Fixpoint respond (fuel : nat) (violations : list Violation.t)
    (memory : AgentMemory.t) : M AgentMemory.t :=
  match violations with
  | [] => ret memory
  | violation :: rest =>
      stored <- AgentMemory.storeViolation generateEmbedding violation memory ;;
      executePlaybooks fuel violation ;;
      respond fuel rest (snd stored)
  end.

(** [runDetection()].  [policies] is what [getActivePolicies()] answers;
    the monitor and the memory are the agent's own. *)
Definition runDetection (fuel : nat) (monitor : InfrastructureMonitor.t)
    (policies : list Policy.t) (memory : AgentMemory.t)
  : M (list Violation.t * AgentMemory.t) :=
  violations <- runDetection Number_toString JSON_stringify monitor policies ;;
  memory' <- respond fuel violations memory ;;
  ret (violations, memory').
End Agent.
End ComplianceAgent.

(** The memory holds an entry made for the violation [v]. *)
Definition remembered (v : Violation.t) (mem : AgentMemory.t) : Prop :=
  exists e,
    In e (map_values (AgentMemory.memoryStore mem)) /\
    MemoryEntry.type e = mem_violation /\
    MemoryMetadata.violationId (MemoryEntry.metadata e) = Some (Violation.id v) /\
    MemoryMetadata.policyId (MemoryEntry.metadata e) = Some (Violation.policyId v) /\
    MemoryMetadata.tags (MemoryEntry.metadata e) =
      [SeverityLevel_str (Violation.severity v);
       ViolationStatus_str (Violation.status v);
       AssetType_str (Violation.assetType v)].


(** A playbook that opens two incidents in a row, and an engine with it
    alone. *)
Definition opened_twice : Playbook.t :=
  Playbook.mk "opened-twice" "Opened Twice" ""
    (Some (PlaybookTrigger.mk trg_violation
             (Some (TriggerConditions.mk None None None))))
    (Some
    [ PlaybookStep.mk "first" "Create Incident" st_action
        (action_config create_incident) (Some "second") None;
      PlaybookStep.mk "second" "Create Incident Again" st_action
        (action_config create_incident) None None ])
    true None.

Definition with_opened_twice : World :=
  snd (addPlaybook opened_twice (boot ticking_clock)).


(** The framework whose first policy a finding on an asset of [type] is
    linked to, and the kind of evidence it carries. *)
Definition linked_framework (type : AssetType) : ComplianceFramework :=
  match type with
  | ip => CUSTOM
  | _ => SOC2
  end.

Definition evidence_kind (type : AssetType) : EvidenceType :=
  match type with
  | certificate => ev_certificate
  | domain => ev_config
  | _ => ev_api_response
  end.


(** A condition step on the violation's severity, and one on a field the
    engine does not know. *)
Definition severity_is (literal : jsval) : PlaybookStep.t :=
  PlaybookStep.mk "check" "Check" st_condition
    (Some (StepConfig.mk None None None
             (Some (Condition.mk "severity" "equals" literal)) None))
    None None.


(** The part of a step's [config] its handler reads is missing. *)
Definition section_missing (step : PlaybookStep.t) : Prop :=
  exists cfg,
    PlaybookStep.config step = Some cfg /\
    match PlaybookStep.type step with
    | st_notification => StepConfig.notification cfg = None
    | st_delay => StepConfig.delay cfg = None
    | st_remediation => StepConfig.remediation cfg = None
    | _ => False
    end.

(** The step is one whose handler throws: it has no [config], or it is a
    notification without [template], or one for slack or email without
    [recipients]. *)
Definition malformed (step : PlaybookStep.t) : Prop :=
  PlaybookStep.config step = None \/
  exists cfg n,
    PlaybookStep.config step = Some cfg /\
    PlaybookStep.type step = st_notification /\
    StepConfig.notification cfg = Some n /\
    (Notification.template n = None \/
     ((Notification.channel n = slack \/ Notification.channel n = email) /\
      Notification.recipients n = None)).

(** Nothing but the console differs between [w] and [w']. *)
Definition only_printed (w w' : World) : Prop :=
  incidents w' = incidents w /\ playbooks w' = playbooks w /\
  executionHistory w' = executionHistory w /\ violations w' = violations w /\
  uuid_next w' = uuid_next w /\ ticks w' = ticks w /\
  exists lines, console w' = (console w ++ lines)%list /\ List.length lines <= 1.

(** A notification step for a channel the engine does not know. *)
Definition carrier_pigeon : PlaybookStep.t :=
  PlaybookStep.mk "tell" "Tell" st_notification
    (notification_config (ch_unknown "pigeon") "{{violation.title}}" [])
    (Some "next") (Some "fallback").


(** The event an action on the bound incident leaves in its timeline. *)
Definition action_event (a : Action) : IncidentEventType :=
  match a with
  | update_status => status_change
  | assign => assignment
  | _ => escalation
  end.

(** * Properties *)

Unset Implicit Arguments.

(** ** Maps *)

Section JsMapFacts.
Variables K V : Type.
Variable eqb : K -> K -> bool.
Hypothesis eqb_eq : forall a b, eqb a b = true <-> a = b.

Lemma eqb_refl' : forall a, eqb a a = true.
Proof. intro a. apply eqb_eq. reflexivity. Qed.

Lemma eqb_neq' : forall a b, a <> b -> eqb a b = false.
Proof.
  intros a b H. destruct (eqb a b) eqn:E; [|reflexivity].
  apply eqb_eq in E. contradiction.
Qed.

Lemma map_get_set_same :
  forall (k : K) (v : V) m, map_get eqb k (map_set eqb k v m) = Some v.
Proof.
  intros k v m. induction m as [|[k' v'] r IH]; simpl.
  - rewrite eqb_refl'. reflexivity.
  - destruct (eqb k k') eqn:E; simpl.
    + rewrite eqb_refl'. reflexivity.
    + rewrite E. exact IH.
Qed.

Lemma map_get_set_other :
  forall (k k' : K) (v : V) m,
    k <> k' -> map_get eqb k (map_set eqb k' v m) = map_get eqb k m.
Proof.
  intros k k' v m Hne. induction m as [|[k0 v0] r IH]; simpl.
  - rewrite (eqb_neq' _ _ Hne). reflexivity.
  - destruct (eqb k' k0) eqn:E; simpl.
    + apply eqb_eq in E. subst k0. rewrite (eqb_neq' _ _ Hne). reflexivity.
    + rewrite IH. reflexivity.
Qed.

Lemma map_get_In_values :
  forall (k : K) (v : V) m, map_get eqb k m = Some v -> In v (map_values m).
Proof.
  intros k v m. induction m as [|[k0 v0] r IH]; simpl; [discriminate|].
  destruct (eqb k k0); intro H.
  - left. congruence.
  - right. apply IH. exact H.
Qed.

End JsMapFacts.




(** ** Execution ledger *)

Lemma slice_from_suffix :
  forall (A : Type) (start : Z) (l : list A),
    exists older, l = (older ++ slice_from start l)%list.
Proof.
  intros A start l. unfold slice_from.
  match goal with |- context [skipn ?k l] => exists (firstn k l) end.
  symmetry. apply firstn_skipn.
Qed.

Lemma slice_from_last_length :
  forall (A : Type) (n : Z) (l : list A),
    (0 < n)%Z ->
    Z.of_nat (List.length (slice_from (- n) l)) = Z.min n (Z.of_nat (List.length l)).
Proof.
  intros A n l Hn. unfold slice_from.
  replace (- n <? 0)%Z with true by (symmetry; apply Z.ltb_lt; lia).
  rewrite length_skipn. lia.
Qed.

(** C8. [getExecutionHistory(n)] with a positive [n] returns the last
    [min(n, length)] entries of the ledger in ledger order (a suffix of that
    length); [getExecutionHistory(0)] returns the whole ledger; and a call
    without argument is [getExecutionHistory(10)]. *)
Theorem getExecutionHistory_most_recent :
  forall (w : World) (n : Z),
    (0 < n)%Z ->
    (exists older,
        executionHistory w = (older ++ getExecutionHistory (Some n) w)%list) /\
    Z.of_nat (List.length (getExecutionHistory (Some n) w)) =
      Z.min n (Z.of_nat (List.length (executionHistory w))) /\
    getExecutionHistory (Some 0%Z) w = executionHistory w /\
    getExecutionHistory None w = getExecutionHistory (Some 10%Z) w.
Proof.
  intros w n Hn. unfold getExecutionHistory. split; [|split; [|split]].
  - apply slice_from_suffix.
  - apply slice_from_last_length. exact Hn.
  - unfold slice_from. simpl (- 0)%Z. simpl (0 <? 0)%Z. cbv iota.
    rewrite Z.min_l by lia. reflexivity.
  - reflexivity.
Qed.

Lemma getExecutionHistory_most_recent_witness :
  (exists older,
      executionHistory three_runs =
        (older ++ getExecutionHistory (Some 2%Z) three_runs)%list) /\
  Z.of_nat (List.length (getExecutionHistory (Some 2%Z) three_runs)) = 2%Z /\
  getExecutionHistory (Some 0%Z) three_runs = executionHistory three_runs.
Proof.
  destruct (@getExecutionHistory_most_recent three_runs 2%Z) as (H1 & H2 & H3 & _).
  - reflexivity.
  - split; [exact H1|]. split; [exact H2|exact H3].
Defined.

(** ** Condition steps *)

Lemma strict_eq_false_iff :
  forall v, strict_eq (VBool false) v = true <-> v = VBool false.
Proof.
  intros [| |[]|n|s|r]; simpl; split; intro H; congruence.
Qed.

(** C10. A condition step on the field [acknowledged], run while no
    incident is bound, compares the boolean [false] with the configured
    literal by [===]: it reports success exactly when the literal is the
    boolean [false], and leaves the world as it was. *)
Theorem executeCondition_acknowledged_unbound :
  forall (step : PlaybookStep.t) (cfg : StepConfig.t) (cond : Condition.t)
         (violation : Violation.t) (w : World),
    PlaybookStep.config step = Some cfg ->
    StepConfig.condition cfg = Some cond ->
    Condition.field cond = "acknowledged" ->
    executeCondition step violation None w =
      (Ok (mkResult (strict_eq (VBool false) (Condition.value cond)) None), w) /\
    (PlaybookStep.type step = st_condition ->
     executeStep step violation None w = executeCondition step violation None w) /\
    (strict_eq (VBool false) (Condition.value cond) = true <->
     Condition.value cond = VBool false).
Proof.
  intros step cfg cond violation w Hcfg Hcond Hfield. split; [|split].
  - unfold executeCondition, step_config, bind, ret.
    rewrite Hcfg, Hcond, Hfield. reflexivity.
  - intro Hty. unfold executeStep. rewrite Hty. reflexivity.
  - apply strict_eq_false_iff.
Qed.

Lemma executeCondition_acknowledged_unbound_witness :
  executeCondition unacknowledged_string (a_violation high domain) None
                   (boot frozen_clock) =
    (Ok (mkResult false None), boot frozen_clock) /\
  (strict_eq (VBool false) (VStr "false") = true <-> VStr "false" = VBool false).
Proof.
  destruct (@executeCondition_acknowledged_unbound unacknowledged_string
              (StepConfig.mk None None None
                 (Some (Condition.mk "acknowledged" "equals" (VStr "false"))) None)
              (Condition.mk "acknowledged" "equals" (VStr "false"))
              (a_violation high domain) (boot frozen_clock)
              eq_refl eq_refl eq_refl) as (H1 & _ & H3).
  split; [exact H1|exact H3].
Defined.

(** ** Trigger matcher *)







(** ** Reading the world *)

Ltac world_simpl :=
  cbn [clock ticks uuid_next console playbooks incidents executionHistory
       violations set_ticks set_uuid_next set_console set_playbooks
       set_incidents set_executionHistory set_violations fst snd] in *.

(** ** Violation status *)

Lemma Nat_eqb_eq' : forall a b : nat, Nat.eqb a b = true <-> a = b.
Proof. exact Nat.eqb_eq. Qed.

Lemma modify_violation_present :
  forall id f w v,
    getViolation id w = Some v ->
    modify_violation id f w =
      (Ok tt, set_violations (map_set Nat.eqb id (f v) (violations w)) w).
Proof.
  intros id f w v H. unfold modify_violation.
  unfold getViolation in H. rewrite H. reflexivity.
Qed.

Lemma getViolation_set_violations :
  forall id v m w,
    getViolation id (set_violations (map_set Nat.eqb id v m) w) = Some v.
Proof.
  intros. unfold getViolation. simpl. apply (@map_get_set_same _ _ _ Nat_eqb_eq').
Qed.

(** C5 (as amended). [updateViolationStatus] gives a stored violation the
    status it is asked to, whatever the status it had (no transition is
    refused; [false_positive] is reachable from every status), stamps
    [updatedAt], and sets [resolvedAt] whenever the new status is
    [resolved], leaving it as it was otherwise. *)
Theorem updateViolationStatus_sets_status :
  forall (id : uuid) (status : ViolationStatus) (w : World) (v : Violation.t),
    getViolation id w = Some v ->
    exists v' w',
      updateViolationStatus id status w = (Ok (Some v'), w') /\
      getViolation id w' = Some v' /\
      Violation.status v' = status /\
      Violation.updatedAt v' = clock w (ticks w) /\
      (status = resolved ->
       Violation.resolvedAt v' = Some (clock w (S (ticks w)))) /\
      (status <> resolved -> Violation.resolvedAt v' = Violation.resolvedAt v).
Proof.
  intros id status w v H.
  unfold updateViolationStatus. rewrite H.
  unfold bind at 1. rewrite (modify_violation_present _ _ _ _ H).
  unfold bind at 1. unfold newDate at 1. cbv beta iota.
  unfold bind at 1.
  rewrite (modify_violation_present id _ _ (Violation.set_status status v))
    by apply getViolation_set_violations.
  world_simpl.
  destruct status; cbn [ViolationStatus_eqb]; unfold bind at 1;
    try (unfold ret; cbv beta iota;
         rewrite getViolation_set_violations;
         do 2 eexists; split; [reflexivity|];
         split; [apply getViolation_set_violations|];
         simpl; repeat split; congruence).
  unfold bind at 1. unfold newDate at 1. cbv beta iota.
  rewrite (modify_violation_present id _ _
             (Violation.set_updatedAt (clock w (ticks w))
                (Violation.set_status resolved v)))
    by apply getViolation_set_violations.
  world_simpl. rewrite getViolation_set_violations.
  do 2 eexists. split; [reflexivity|].
  split; [apply getViolation_set_violations|].
  simpl. repeat split; congruence.
Qed.

Lemma updateViolationStatus_sets_status_witness :
  exists v' w',
    updateViolationStatus 0 false_positive one_resolved = (Ok (Some v'), w') /\
    Violation.status v' = false_positive /\
    Violation.resolvedAt v' = Some 1003%Z.
Proof.
  destruct (updateViolationStatus_sets_status 0 false_positive one_resolved
              (Violation.mk 0 "system" "Manual" None None "10.0.0.1" ip "10.0.0.1"
                 low resolved "Open port" "Port 23 is open" 1000%Z 1002%Z
                 (Some 1003%Z) []
                 [RemediationAction.mk 1 manual pending
                    "Review and remediate violation" None None None])
              eq_refl)
    as (v' & w' & H1 & _ & H3 & _ & _ & H6).
  exists v', w'. split; [exact H1|]. split; [exact H3|].
  apply H6. discriminate.
Defined.

(** C5, as first stated, fails: a resolved violation is moved back to
    [open], which is not a forward transition. *)
Lemma updateViolationStatus_reopens_resolved :
  option_map Violation.status (getViolation 0 one_resolved) = Some resolved /\
  option_map Violation.status
    (getViolation 0 (snd (updateViolationStatus 0 open one_resolved))) = Some open /\
  ~ forward_transition resolved open.
Proof.
  split; [reflexivity|]. split; [reflexivity|].
  unfold forward_transition. simpl. intros [H|H]; [discriminate|lia].
Qed.

(** ** Incident updates *)

Lemma modify_incident_present :
  forall id f w i,
    getIncident id w = Some i ->
    modify_incident id f w =
      (Ok tt, set_incidents (map_set Nat.eqb id (f i) (incidents w)) w).
Proof.
  intros id f w i H. unfold modify_incident.
  unfold getIncident in H. rewrite H. reflexivity.
Qed.

Lemma getIncident_set_incidents :
  forall id i m w,
    getIncident id (set_incidents (map_set Nat.eqb id i m) w) = Some i.
Proof.
  intros. unfold getIncident. simpl. apply (map_get_set_same _ _ _ Nat_eqb_eq').
Qed.

(** C7 (as amended). For an incident present in the store,
    [updateIncident(id, {status: "closed"})] followed by [getIncident(id)]
    returns an incident whose status is [closed], whose timeline is the one
    it had, and whose [updatedAt] is the clock reading taken by the update:
    greater than the previous value when the clock has moved past it. *)
Theorem updateIncident_closed :
  forall (id : uuid) (w : World) (i : Incident.t),
    getIncident id w = Some i ->
    exists i' w',
      updateIncident id (only_status inc_closed) w = (Ok (Some i'), w') /\
      getIncident id w' = Some i' /\
      Incident.status i' = inc_closed /\
      Incident.timeline i' = Incident.timeline i /\
      Incident.updatedAt i' = clock w (ticks w) /\
      ((Incident.updatedAt i < clock w (ticks w))%Z ->
       (Incident.updatedAt i < Incident.updatedAt i')%Z).
Proof.
  intros id w i H.
  unfold updateIncident. unfold bind at 1. unfold read_incident at 1.
  change (map_get Nat.eqb id (incidents w)) with (getIncident id w).
  rewrite H. cbv beta iota.
  unfold bind at 1. rewrite (modify_incident_present _ _ _ _ H).
  unfold bind at 1. unfold newDate at 1. cbv beta iota.
  unfold bind at 1.
  rewrite (modify_incident_present id _ _
             (Incident.assign i (only_status inc_closed)))
    by apply getIncident_set_incidents.
  world_simpl. unfold read_incident.
  change (map_get Nat.eqb id (incidents ?w)) with (getIncident id w).
  rewrite getIncident_set_incidents.
  do 2 eexists. split; [reflexivity|].
  split; [apply getIncident_set_incidents|].
  simpl. repeat split. intro Hlt. exact Hlt.
Qed.

Lemma updateIncident_closed_witness :
  exists i' w',
    updateIncident 0 (only_status inc_closed) one_incident = (Ok (Some i'), w') /\
    Incident.status i' = inc_closed /\
    List.length (Incident.timeline i') = 1 /\
    Incident.updatedAt i' = 1000%Z.
Proof.
  destruct (updateIncident_closed 0 one_incident
              (Incident.mk 0 "Invalid SSL/TLS Certificate"
                 "SSL/TLS certificate for example.com is invalid." high inc_open P2
                 None "ComplianceAgent" [7]
                 [IncidentEvent.mk 1 created "Incident created from violation"
                    "ComplianceAgent" 1000%Z None]
                 1000%Z 1000%Z None)
              eq_refl)
    as (i' & w' & H1 & _ & H3 & H4 & H5 & _).
  exists i', w'. split; [exact H1|]. split; [exact H3|].
  split; [rewrite H4; reflexivity|exact H5].
Defined.

(** C7, as first stated, fails: an incident created and closed within the
    same millisecond keeps the [updatedAt] it had. *)
Lemma updateIncident_same_millisecond :
  exists i i',
    getIncident 0 one_incident = Some i /\
    fst (updateIncident 0 (only_status inc_closed) one_incident) = Ok (Some i') /\
    Incident.status i' = inc_closed /\
    ~ (Incident.updatedAt i < Incident.updatedAt i')%Z.
Proof.
  do 2 eexists. split; [reflexivity|]. split; [reflexivity|].
  split; [reflexivity|]. vm_compute. intro H. discriminate H.
Qed.

(** ** Certificate check *)

Lemma num_lt_not_le :
  forall a b, num_lt a b = true -> num_le b a = false.
Proof.
  intros [x| | |] [y| | |]; simpl; try congruence.
  intro H. apply negb_true_iff in H. exact H.
Qed.

Lemma num_le_not_reached :
  forall a b c,
    num_lt (num_of_Z b) a = true -> (c <= b)%Z -> num_le a (num_of_Z c) = false.
Proof.
  intros [x| | |] b c; unfold num_of_Z; simpl; try congruence.
  intros H Hcb. apply negb_true_iff in H.
  destruct (Qle_bool x (inject_Z c)) eqn:E; [|reflexivity].
  apply Qle_bool_iff in E.
  assert (Hx : Qle_bool x (inject_Z b) = true).
  { apply Qle_bool_iff. eapply Qle_trans; [exact E|].
    rewrite <- Zle_Qle. exact Hcb. }
  congruence.
Qed.

(** C2. [checkCertificate] returns the violations of the expiry check
    followed by those of the validity check.  The expiry check yields one
    violation, of severity [critical] when [daysUntilExpiry <= 7], [high]
    when [7 < daysUntilExpiry <= 30], [medium] when
    [30 < daysUntilExpiry <= 60], and none when [daysUntilExpiry > 60].
    Whatever [daysUntilExpiry] is, a certificate with [isValid = false]
    yields one more violation, of severity [critical], so both can be
    returned for the same certificate. *)
Theorem checkCertificate_severity :
  forall (Number_toString : number -> string)
         (JSON_stringify : CertificateInfo.t -> string)
         (cert : CertificateInfo.t) (policies : list Policy.t) (w : World),
    let days := CertificateInfo.daysUntilExpiry cert in
    exists expiring invalid w',
      checkCertificate Number_toString JSON_stringify cert policies w =
        (Ok (expiring ++ invalid)%list, w') /\
      Forall (fun v => Violation.title v = expiring_title Number_toString days /\
                       Violation.assetType v = certificate /\
                       Violation.assetIdentifier v = CertificateInfo.domain cert)
             expiring /\
      Forall (fun v => Violation.title v = invalid_title /\
                       Violation.assetType v = certificate /\
                       Violation.assetIdentifier v = CertificateInfo.domain cert)
             invalid /\
      (num_le days (num_of_Z 7) = true ->
       map Violation.severity expiring = [critical]) /\
      (num_lt (num_of_Z 7) days = true -> num_le days (num_of_Z 30) = true ->
       map Violation.severity expiring = [high]) /\
      (num_lt (num_of_Z 30) days = true -> num_le days (num_of_Z 60) = true ->
       map Violation.severity expiring = [medium]) /\
      (num_lt (num_of_Z 60) days = true -> expiring = []) /\
      (CertificateInfo.isValid cert = false ->
       map Violation.severity invalid = [critical]) /\
      (CertificateInfo.isValid cert = true -> invalid = []).
Proof.
  intros Number_toString JSON_stringify cert policies w days.
  unfold checkCertificate, checkCertificateExpiry. fold days.
  destruct (num_le days (num_of_Z 7)) eqn:H7;
    [|destruct (num_le days (num_of_Z 30)) eqn:H30;
      [|destruct (num_le days (num_of_Z 60)) eqn:H60]];
    destruct (CertificateInfo.isValid cert) eqn:Hv;
    cbn [ExpiryCheck.isExpiring ExpiryCheck.severity ExpiryCheck.daysLeft negb];
    unfold expiring_violation, invalid_violation, bind, ret, uuidv4, newDate;
    cbv beta iota;
    do 3 eexists; (split; [reflexivity|]);
    cbn [map Violation.severity Violation.title Violation.assetType
         Violation.assetIdentifier];
    repeat match goal with
           | |- _ /\ _ => split
           | |- Forall _ [] => constructor
           | |- Forall _ (_ :: _) => constructor
           end;
    try reflexivity; try congruence; intros;
    repeat match goal with
           | H : num_lt (num_of_Z ?b) days = true |- _ =>
               first [ assert (num_le days (num_of_Z 7) = false)
                         by (apply (num_le_not_reached days b 7 H); lia)
                     | idtac ];
               first [ assert (num_le days (num_of_Z 30) = false)
                         by (apply (num_le_not_reached days b 30 H); lia)
                     | idtac ];
               first [ assert (num_le days (num_of_Z 60) = false)
                         by (apply (num_le_not_reached days b 60 H); lia)
                     | idtac ];
               clear H
           end;
    congruence.
Qed.

Lemma checkCertificate_severity_witness :
  (exists expiring invalid w',
      checkCertificate (fun _ => "5") (fun _ => "{}") (a_certificate 5 false) []
                       (boot ticking_clock) =
        (Ok (expiring ++ invalid)%list, w') /\
      map Violation.severity expiring = [critical] /\
      map Violation.severity invalid = [critical]) /\
  (exists expiring invalid w',
      checkCertificate (fun _ => "20") (fun _ => "{}") (a_certificate 20 true) []
                       (boot ticking_clock) =
        (Ok (expiring ++ invalid)%list, w') /\
      map Violation.severity expiring = [high] /\
      invalid = []).
Proof.
  split.
  - destruct (checkCertificate_severity (fun _ => "5") (fun _ => "{}")
                (a_certificate 5 false) [] (boot ticking_clock))
      as (e & i & w' & H1 & _ & _ & H7 & _ & _ & _ & Hinv & _).
    exists e, i, w'. split; [exact H1|].
    split; [apply H7; reflexivity|apply Hinv; reflexivity].
  - destruct (checkCertificate_severity (fun _ => "20") (fun _ => "{}")
                (a_certificate 20 true) [] (boot ticking_clock))
      as (e & i & w' & H1 & _ & _ & _ & H30 & _ & _ & _ & Hval).
    exists e, i, w'. split; [exact H1|].
    split; [apply H30; reflexivity|apply Hval; reflexivity].
Defined.

(** ** The monad *)

Lemma bind_Ok :
  forall (A B : Type) (m : M A) (f : A -> M B) w a w',
    m w = (Ok a, w') -> bind m f w = f a w'.
Proof. intros A B m f w a w' H. unfold bind. rewrite H. reflexivity. Qed.

Lemma bind_Throw :
  forall (A B : Type) (m : M A) (f : A -> M B) w e w',
    m w = (Throw e, w') -> bind m f w = (Throw e, w').
Proof. intros A B m f w e w' H. unfold bind. rewrite H. reflexivity. Qed.


Lemma finishes_ret : forall (A : Type) (a : A), finishes (ret a).
Proof. intros A a w. simpl. discriminate. Qed.

Lemma finishes_throw : forall (A : Type) e, finishes (@throw A e).
Proof. intros A e w. simpl. discriminate. Qed.

Lemma finishes_bind :
  forall (A B : Type) (m : M A) (f : A -> M B),
    finishes m -> (forall a, finishes (f a)) -> finishes (bind m f).
Proof.
  intros A B m f Hm Hf w. unfold bind.
  specialize (Hm w). destruct (m w) as [[a|e|] w1]; simpl in *.
  - apply Hf.
  - discriminate.
  - congruence.
Qed.


Lemma never_throws_bind :
  forall (A B : Type) (m : M A) (f : A -> M B),
    never_throws m -> (forall a, never_throws (f a)) -> never_throws (bind m f).
Proof.
  intros A B m f Hm Hf w e. unfold bind.
  specialize (Hm w). destruct (m w) as [[a|e1|] w1]; simpl in *.
  - apply Hf.
  - specialize (Hm e1). congruence.
  - discriminate.
Qed.

Lemma preserves_ret :
  forall (A : Type) (P : World -> Prop) (a : A), preserves P (ret a).
Proof. intros A P a w H. exact H. Qed.

Lemma preserves_throw :
  forall (A : Type) (P : World -> Prop) e, preserves P (@throw A e).
Proof. intros A P e w H. exact H. Qed.

Lemma preserves_bind :
  forall (A B : Type) (P : World -> Prop) (m : M A) (f : A -> M B),
    preserves P m -> (forall a, preserves P (f a)) -> preserves P (bind m f).
Proof.
  intros A B P m f Hm Hf w H. unfold bind.
  specialize (Hm w H). destruct (m w) as [[a|e|] w1]; simpl in *.
  - apply Hf. exact Hm.
  - exact Hm.
  - exact Hm.
Qed.


(** ** Step handlers come to an end *)

Lemma modify_incident_finishes :
  forall ref f, finishes (modify_incident ref f).
Proof.
  intros ref f w. unfold modify_incident.
  destruct (map_get Nat.eqb ref (incidents w)); simpl; discriminate.
Qed.

Lemma assign_lastRun_finishes :
  forall key d, finishes (assign_lastRun key d).
Proof.
  intros key d w. unfold assign_lastRun.
  destruct (map_get String.eqb key (playbooks w)); simpl; discriminate.
Qed.

Ltac finishes_tac :=
  repeat first
    [ progress cbv zeta
    | apply finishes_bind; [|intro]
    | apply finishes_ret
    | apply finishes_throw
    | apply modify_incident_finishes
    | apply assign_lastRun_finishes
    | match goal with
      | |- finishes (match ?x with _ => _ end) => destruct x
      end
    | (intro; simpl;
       repeat match goal with
              | |- context [match ?x with _ => _ end] => destruct x; simpl
              end;
       discriminate) ].

Lemma createIncidentFromViolation_finishes :
  forall v, finishes (createIncidentFromViolation v).
Proof. intro v. unfold createIncidentFromViolation. finishes_tac. Qed.

Lemma addIncidentEvent_finishes :
  forall i t d a x, finishes (addIncidentEvent i t d a x).
Proof. intros. unfold addIncidentEvent. finishes_tac. Qed.

Lemma executeStep_finishes :
  forall step v inc, finishes (executeStep step v inc).
Proof.
  intros step v inc.
  unfold executeStep, executeAction, executeNotification, executeDelay,
    executeCondition, executeRemediation, step_config.
  pose proof createIncidentFromViolation_finishes.
  pose proof addIncidentEvent_finishes.
  destruct (PlaybookStep.type step); finishes_tac; auto.
Qed.

Lemma creates_incident_finishes :
  forall step, finishes (creates_incident step).
Proof.
  intro step. unfold creates_incident, step_config. finishes_tac.
Qed.

Lemma run_step_finishes :
  forall step v inc, finishes (run_step step v inc).
Proof.
  intros. unfold run_step.
  apply finishes_bind; [apply executeStep_finishes|intro].
  apply finishes_bind; [apply creates_incident_finishes|intro].
  apply finishes_ret.
Qed.

(** ** Step executor: transitions and termination *)

Lemma current_step_inv :
  forall pb cur s,
    current_step pb cur = Some s ->
    exists sid, cur = Some sid /\ In s (steps_of pb) /\
                PlaybookStep.id s = sid.
Proof.
  intros pb [sid|] s; simpl; [|discriminate].
  destruct (negb (String.eqb sid "")); [|discriminate].
  unfold find_step. intro H. apply find_some in H. destruct H as [Hin Heq].
  apply String.eqb_eq in Heq. exists sid. auto.
Qed.

Lemma run_step_inv :
  forall step v inc w next w',
    run_step step v inc w = (Ok next, w') ->
    exists r w1,
      executeStep step v inc w = (Ok r, w1) /\
      fst next =
        (if ok r then PlaybookStep.onSuccess step else PlaybookStep.onFailure step).
Proof.
  intros step v inc w next w'. unfold run_step, bind.
  destruct (executeStep step v inc w) as [[r|e|] w1]; try discriminate.
  destruct (creates_incident step w1) as [[c|e|] w2]; try discriminate.
  unfold ret. intro H. injection H as <- <-. exists r, w1. split; reflexivity.
Qed.

Lemma run_steps_absent :
  forall fuel pb v inc w, run_steps fuel pb v None inc w = (Ok inc, w).
Proof. intros [|fuel] pb v inc w; reflexivity. Qed.

Lemma run_steps_unresolved :
  forall fuel pb v sid inc w,
    find_step pb sid = None ->
    run_steps fuel pb v (Some sid) inc w = (Ok inc, w).
Proof.
  intros fuel pb v sid inc w H.
  assert (Hc : current_step pb (Some sid) = None).
  { simpl. rewrite H. destruct (negb (String.eqb sid "")); reflexivity. }
  destruct fuel; cbn [run_steps]; rewrite Hc; reflexivity.
Qed.

Lemma run_steps_finishes :
  forall rank pb,
    descends rank pb ->
    forall v fuel cur inc w,
      (forall s, current_step pb cur = Some s -> rank (PlaybookStep.id s) < fuel) ->
      fst (run_steps fuel pb v cur inc w) <> Diverge.
Proof.
  intros rank pb Hd v fuel.
  induction fuel as [|fuel IH]; intros cur inc w Hr; cbn [run_steps];
    destruct (current_step pb cur) as [step|] eqn:Hc; try (simpl; discriminate).
  - specialize (Hr step eq_refl). lia.
  - pose proof (run_step_finishes step v inc w) as Hf.
    unfold bind. destruct (run_step step v inc w) as [[next|e|] w1] eqn:Hs;
      simpl in Hf; try (simpl; congruence).
    apply IH. intros s' Hs'.
    destruct (run_step_inv _ _ _ _ _ _ Hs) as (r & w0 & _ & Hnext).
    destruct (current_step_inv _ _ _ Hc) as (sid & _ & Hin & _).
    destruct (current_step_inv _ _ _ Hs') as (sid' & Hsid' & _ & _).
    assert (rank (PlaybookStep.id s') < rank (PlaybookStep.id step)).
    { apply (Hd step sid' s' Hin).
      - rewrite <- Hsid', Hnext. destruct (ok r); auto.
      - rewrite <- Hsid'. exact Hs'. }
    specialize (Hr step eq_refl). lia.
Qed.

Lemma first_step_rank :
  forall rank pb s,
    current_step pb (first_step_id pb) = Some s ->
    rank (PlaybookStep.id s) = start_rank rank pb.
Proof.
  intros rank pb s H. unfold start_rank.
  destruct (current_step_inv _ _ _ H) as (sid & Hsid & _ & Hid).
  rewrite Hsid, Hid. reflexivity.
Qed.

Lemma executePlaybook_returns :
  forall fuel key pb v w,
    fst (run_from_first fuel pb v w) <> Diverge ->
    exists r w', executePlaybook fuel key pb v w = (Ok r, w').
Proof.
  intros fuel key pb v w H.
  unfold executePlaybook, try_catch, run_playbook. unfold bind at 1.
  destruct (run_from_first fuel pb v w) as [[r|e|] w1];
    simpl in H; [| |congruence].
  - unfold bind, newDate, push_history, assign_lastRun, ret. world_simpl.
    destruct (map_get String.eqb key (playbooks w1)); eexists; eexists; reflexivity.
  - eexists; eexists; reflexivity.
Qed.

Lemma run_step_after :
  forall step v inc w r w1,
    executeStep step v inc w = (Ok r, w1) ->
    exists inc',
      run_step step v inc w =
        (Ok (if ok r then PlaybookStep.onSuccess step
             else PlaybookStep.onFailure step, inc'), w1) /\
      (is_create_incident step -> inc' = data r) /\
      (~ is_create_incident step -> inc' = inc).
Proof.
  intros step v inc w r w1 H. unfold run_step.
  rewrite (bind_Ok _ _ _ _ _ _ _ H). unfold creates_incident.
  destruct (PlaybookStep.type step) eqn:Hty;
    try (exists inc; split; [reflexivity|];
         split; [intros (Hty' & _); congruence|reflexivity]).
  unfold step_config.
  destruct (PlaybookStep.config step) as [cfg|] eqn:Hcfg.
  - unfold bind, ret.
    destruct (StepConfig.action cfg) as [a|] eqn:Hact.
    + destruct a;
        try (exists inc; split; [reflexivity|];
             split; [intros (_ & cfg' & Hc' & Ha'); congruence|reflexivity]).
      exists (data r). split; [reflexivity|]. split; [reflexivity|].
      intro Hno. exfalso. apply Hno. split; [exact Hty|]. exists cfg. auto.
    + exists inc. split; [reflexivity|].
      split; [intros (_ & cfg' & Hc' & Ha'); congruence|reflexivity].
  - unfold executeStep, executeAction, step_config in H.
    rewrite Hty, Hcfg in H. discriminate H.
Qed.

Lemma run_steps_next :
  forall fuel pb v cur step inc w r w1,
    current_step pb cur = Some step ->
    executeStep step v inc w = (Ok r, w1) ->
    exists inc',
      run_steps (S fuel) pb v cur inc w =
        run_steps fuel pb v
          (if ok r then PlaybookStep.onSuccess step
           else PlaybookStep.onFailure step) inc' w1 /\
      (is_create_incident step -> inc' = data r) /\
      (~ is_create_incident step -> inc' = inc).
Proof.
  intros fuel pb v cur step inc w r w1 Hcur Hex.
  destruct (run_step_after step v inc w r w1 Hex) as (inc' & Hrs & Hc & Hn).
  exists inc'. split; [|split; assumption].
  cbn [run_steps]. rewrite Hcur. rewrite (bind_Ok _ _ _ _ _ _ _ Hrs).
  reflexivity.
Qed.

Lemma run_steps_raised :
  forall fuel pb v cur step inc w e w1,
    current_step pb cur = Some step ->
    executeStep step v inc w = (Throw e, w1) ->
    run_steps (S fuel) pb v cur inc w = (Throw e, w1).
Proof.
  intros fuel pb v cur step inc w e w1 Hcur Hex.
  cbn [run_steps]. rewrite Hcur. apply bind_Throw. unfold run_step.
  apply bind_Throw. exact Hex.
Qed.

(** C4 (as amended). For a playbook whose [onSuccess]/[onFailure]
    references form no cycle (they descend along some rank), a run of the
    step executor comes to an end and [executePlaybook] returns.  Each turn
    of the loop runs the handler of the current step and goes on from the
    step's [onSuccess] when the handler reports success and from its
    [onFailure] when it reports failure, with the incident the step created
    bound if it is a [create_incident] step and the incident bound before
    otherwise; a handler that raises ends the loop with its error.  An
    absent transition ends the run; a transition naming a step id that is
    not in the playbook ends the run without raising. *)
Theorem executePlaybook_terminates :
  forall (rank : string -> nat) (pb : Playbook.t),
    descends rank pb ->
    forall (fuel : nat) (key : string) (v : Violation.t) (w : World),
      start_rank rank pb < fuel ->
      (exists r w', executePlaybook fuel key pb v w = (Ok r, w')) /\
      fst (run_from_first fuel pb v w) <> Diverge /\
      (forall step inc w0 next w1,
          run_step step v inc w0 = (Ok next, w1) ->
          exists r w2,
            executeStep step v inc w0 = (Ok r, w2) /\
            fst next = (if ok r then PlaybookStep.onSuccess step
                        else PlaybookStep.onFailure step)) /\
      (forall n cur step inc w0 r w1,
          current_step pb cur = Some step ->
          executeStep step v inc w0 = (Ok r, w1) ->
          exists inc',
            run_steps (S n) pb v cur inc w0 =
              run_steps n pb v
                (if ok r then PlaybookStep.onSuccess step
                 else PlaybookStep.onFailure step) inc' w1 /\
            (is_create_incident step -> inc' = data r) /\
            (~ is_create_incident step -> inc' = inc)) /\
      (forall n cur step inc w0 e w1,
          current_step pb cur = Some step ->
          executeStep step v inc w0 = (Throw e, w1) ->
          run_steps (S n) pb v cur inc w0 = (Throw e, w1)) /\
      (forall inc w0, run_steps fuel pb v None inc w0 = (Ok inc, w0)) /\
      (forall sid inc w0,
          find_step pb sid = None ->
          run_steps fuel pb v (Some sid) inc w0 = (Ok inc, w0)).
Proof.
  intros rank pb Hd fuel key v w Hfuel.
  assert (Hend : fst (run_from_first fuel pb v w) <> Diverge).
  { unfold run_from_first.
    destruct (Playbook.steps pb); [|simpl; discriminate].
    apply (run_steps_finishes rank pb Hd).
    intros s Hs. rewrite (first_step_rank rank pb s Hs). exact Hfuel. }
  split; [|split; [|split; [|split; [|split; [|split]]]]].
  - apply executePlaybook_returns. exact Hend.
  - exact Hend.
  - intros step inc w0 next w1. apply run_step_inv.
  - intros n cur step inc w0 r w1. apply run_steps_next.
  - intros n cur step inc w0 e w1. apply run_steps_raised.
  - intros. apply run_steps_absent.
  - intros. apply run_steps_unresolved. assumption.
Qed.

Lemma critical_alert_descends : descends critical_alert_rank critical_alert.
Proof.
  intros s next s' Hin Hnext Hcur. simpl in Hin.
  destruct Hin as [<-|[<-|[<-|[]]]]; simpl in Hnext;
    destruct Hnext as [H|H]; try discriminate H; injection H as <-;
    vm_compute in Hcur; try discriminate Hcur;
    injection Hcur as <-; vm_compute; lia.
Defined.

Lemma executePlaybook_terminates_witness :
  (exists r w',
      executePlaybook 4 "critical-alert" critical_alert
                      (a_violation critical certificate)
                      (new_SOARAutomation ticking_clock) = (Ok r, w')) /\
  (exists w1,
      run_steps 4 critical_alert (a_violation critical certificate)
                (Some "step-1") None (new_SOARAutomation ticking_clock) =
      run_steps 3 critical_alert (a_violation critical certificate)
                (Some "step-2") (Some 0) w1).
Proof.
  destruct (executePlaybook_terminates critical_alert_rank critical_alert
              critical_alert_descends 4 "critical-alert"
              (a_violation critical certificate)
              (new_SOARAutomation ticking_clock)) as (H & _ & _ & Hnext & _).
  - vm_compute. lia.
  - split; [exact H|].
    assert (Hcur : current_step critical_alert (Some "step-1") =
                   Some (PlaybookStep.mk "step-1" "Create Incident" st_action
                           (action_config create_incident) (Some "step-2")
                           (Some "end")))
      by (vm_compute; reflexivity).
    destruct (Hnext 3 _ _ None (new_SOARAutomation ticking_clock) _ _ Hcur
                eq_refl) as (inc' & Hrun & Hc & _).
    eexists. rewrite Hrun. rewrite Hc; [reflexivity|].
    split; [reflexivity|]. eexists. split; reflexivity.
Defined.

Lemma ringing_run_steps :
  forall v fuel inc w,
    fst (run_steps fuel ringing v (Some "ring") inc w) = Diverge.
Proof.
  intros v fuel. induction fuel as [|fuel IH]; intros inc w.
  - reflexivity.
  - cbn [run_steps].
    change (current_step ringing (Some "ring"))
      with (Some (PlaybookStep.mk "ring" "Ring" st_notification
                    (notification_config webhook "again" [])
                    (Some "ring") None)).
    cbv iota. unfold bind at 1.
    destruct inc as [i|]; simpl; apply IH.
Qed.

(** C4, as first stated, fails: the run of a playbook whose only step names
    itself as its successor never comes to an end. *)
Lemma ringing_runs_forever :
  runs_forever "ringing" ringing (a_violation critical certificate) with_ringing.
Proof.
  intro fuel. unfold executePlaybook, try_catch, run_playbook.
  unfold bind at 1.
  pose proof (ringing_run_steps (a_violation critical certificate) fuel None
                                with_ringing) as H.
  change (run_from_first fuel ringing (a_violation critical certificate)
                         with_ringing)
    with (run_steps fuel ringing (a_violation critical certificate)
                    (Some "ring") None with_ringing).
  destruct (run_steps fuel ringing (a_violation critical certificate)
                      (Some "ring") None with_ringing) as [[r|e|] w1];
    simpl in H; try discriminate H. reflexivity.
Qed.

(** ** What a run leaves untouched *)

Lemma keeps_identity_set_status : forall s, keeps_identity (Incident.set_status s).
Proof. intros s i. split; reflexivity. Qed.

Lemma keeps_identity_set_priority : forall p, keeps_identity (Incident.set_priority p).
Proof. intros p i. split; reflexivity. Qed.

Lemma keeps_identity_set_assignee : forall a, keeps_identity (Incident.set_assignee a).
Proof. intros a i. split; reflexivity. Qed.

Lemma keeps_identity_set_updatedAt : forall d, keeps_identity (Incident.set_updatedAt d).
Proof. intros d i. split; reflexivity. Qed.

Lemma keeps_identity_push_event :
  forall e, keeps_identity
              (fun i => Incident.set_timeline (Incident.timeline i ++ [e]) i).
Proof. intros e i. split; reflexivity. Qed.

Section Preservation.
Variable P : World -> Prop.
Hypothesis P_ticks : forall w n, P w -> P (set_ticks n w).
Hypothesis P_uuid : forall w, P w -> P (set_uuid_next (S (uuid_next w)) w).
Hypothesis P_console : forall w c, P w -> P (set_console c w).
Hypothesis P_modify :
  forall ref f, keeps_identity f -> preserves P (modify_incident ref f).
Hypothesis P_create :
  forall v, preserves P (createIncidentFromViolation v).

Lemma newDate_preserves : preserves P newDate.
Proof. intros w H. apply P_ticks. exact H. Qed.

Lemma uuidv4_preserves : preserves P uuidv4.
Proof. intros w H. apply P_uuid. exact H. Qed.

Lemma console_log_preserves : forall l, preserves P (console_log l).
Proof. intros l w H. apply P_console. exact H. Qed.

Lemma read_incident_preserves : forall ref, preserves P (read_incident ref).
Proof. intros ref w H. exact H. Qed.

Ltac preserves_tac :=
  repeat first
    [ progress cbv zeta
    | apply P_create
    | apply preserves_bind; [|intro]
    | apply preserves_ret
    | apply preserves_throw
    | apply newDate_preserves
    | apply uuidv4_preserves
    | apply console_log_preserves
    | apply read_incident_preserves
    | apply P_modify;
      first [ apply keeps_identity_set_status
            | apply keeps_identity_set_priority
            | apply keeps_identity_set_assignee
            | apply keeps_identity_set_updatedAt
            | apply keeps_identity_push_event ]
    | match goal with
      | |- preserves _ (match ?x with _ => _ end) => destruct x
      end ].

Lemma addIncidentEvent_preserves :
  forall i t d a x, preserves P (addIncidentEvent i t d a x).
Proof. intros. unfold addIncidentEvent. preserves_tac. Qed.

Lemma executeStep_preserves :
  forall step v inc, preserves P (executeStep step v inc).
Proof.
  intros step v inc.
  pose proof addIncidentEvent_preserves.
  unfold executeStep, executeAction, executeNotification, executeDelay,
    executeCondition, executeRemediation, step_config.
  destruct (PlaybookStep.type step); preserves_tac; auto.
Qed.

Lemma creates_incident_preserves :
  forall step, preserves P (creates_incident step).
Proof. intro step. unfold creates_incident, step_config. preserves_tac. Qed.

Lemma run_step_preserves :
  forall step v inc, preserves P (run_step step v inc).
Proof.
  intros. unfold run_step.
  apply preserves_bind; [apply executeStep_preserves|intro].
  apply preserves_bind; [apply creates_incident_preserves|intro].
  apply preserves_ret.
Qed.

Lemma run_steps_preserves :
  forall fuel pb v cur inc, preserves P (run_steps fuel pb v cur inc).
Proof.
  induction fuel as [|fuel IH]; intros pb v cur inc; cbn [run_steps];
    destruct (current_step pb cur) as [step|]; try apply preserves_ret.
  - intros w H. exact H.
  - apply preserves_bind; [apply run_step_preserves|intro]. apply IH.
Qed.

Lemma run_from_first_preserves :
  forall fuel pb v, preserves P (run_from_first fuel pb v).
Proof.
  intros fuel pb v. unfold run_from_first.
  destruct (Playbook.steps pb); [apply run_steps_preserves|apply preserves_throw].
Qed.

End Preservation.

Lemma run_steps_playbooks :
  forall fuel pb v cur inc w,
    playbooks (snd (run_steps fuel pb v cur inc w)) = playbooks w.
Proof.
  intros fuel pb v cur inc w.
  apply (run_steps_preserves (fun w' => playbooks w' = playbooks w)); auto.
  - intros ref f _ w' H. unfold modify_incident.
    destruct (map_get Nat.eqb ref (incidents w')); exact H.
  - intros v' w' H. exact H.
Qed.

Lemma run_steps_executionHistory :
  forall fuel pb v cur inc w,
    executionHistory (snd (run_steps fuel pb v cur inc w)) = executionHistory w.
Proof.
  intros fuel pb v cur inc w.
  apply (run_steps_preserves (fun w' => executionHistory w' = executionHistory w));
    auto.
  - intros ref f _ w' H. unfold modify_incident.
    destruct (map_get Nat.eqb ref (incidents w')); exact H.
  - intros v' w' H. exact H.
Qed.

(** ** The run from the first step *)

Lemma run_from_first_steps :
  forall fuel pb v w steps,
    Playbook.steps pb = Some steps ->
    run_from_first fuel pb v w =
      run_steps fuel pb v (first_step_id pb) None w.
Proof. intros fuel pb v w steps H. unfold run_from_first. rewrite H. reflexivity. Qed.

Lemma run_from_first_missing :
  forall fuel pb v w,
    Playbook.steps pb = None ->
    run_from_first fuel pb v w = (Throw (TypeError_undefined "0"), w).
Proof. intros fuel pb v w H. unfold run_from_first. rewrite H. reflexivity. Qed.

Lemma current_step_steps :
  forall pb cur step,
    current_step pb cur = Some step -> exists steps, Playbook.steps pb = Some steps.
Proof.
  intros pb cur step H.
  destruct (current_step_inv _ _ _ H) as (sid & _ & Hin & _).
  unfold steps_of in Hin.
  destruct (Playbook.steps pb) as [l|]; [exists l; reflexivity|destruct Hin].
Qed.

Lemma run_from_first_playbooks :
  forall fuel pb v w, playbooks (snd (run_from_first fuel pb v w)) = playbooks w.
Proof.
  intros fuel pb v w. unfold run_from_first.
  destruct (Playbook.steps pb); [apply run_steps_playbooks|reflexivity].
Qed.

Lemma run_from_first_executionHistory :
  forall fuel pb v w,
    executionHistory (snd (run_from_first fuel pb v w)) = executionHistory w.
Proof.
  intros fuel pb v w. unfold run_from_first.
  destruct (Playbook.steps pb); [apply run_steps_executionHistory|reflexivity].
Qed.

(** ** [lastRun] *)

Lemma String_eqb_eq' : forall a b : string, String.eqb a b = true <-> a = b.
Proof. exact String.eqb_eq. Qed.

(** X1. What [executePlaybook] does to [lastRun].  When the run of a
    playbook completes, it sets the playbook's [lastRun] to the clock
    reading taken after the [success] entry was recorded; when the run
    fails with an uncaught error, it returns [null] and leaves [lastRun] as
    it was: the assignment is in the [try] block only. *)
Theorem executePlaybook_lastRun :
  forall (fuel : nat) (key : string) (pb : Playbook.t) (v : Violation.t)
         (w : World),
    map_get String.eqb key (playbooks w) = Some pb ->
    (forall r w1,
        run_from_first fuel pb v w = (Ok r, w1) ->
        exists w',
          executePlaybook fuel key pb v w = (Ok r, w') /\
          lastRun_of key w' = Some (clock w1 (S (ticks w1)))) /\
    (forall e w1,
        run_from_first fuel pb v w = (Throw e, w1) ->
        exists w',
          executePlaybook fuel key pb v w = (Ok None, w') /\
          lastRun_of key w' = Playbook.lastRun pb).
Proof.
  intros fuel key pb v w Hkey. split.
  - intros r w1 Hrun.
    pose proof (run_from_first_playbooks fuel pb v w) as Hpb.
    rewrite Hrun in Hpb. simpl in Hpb.
    unfold executePlaybook, try_catch, run_playbook.
    rewrite (bind_Ok _ _ _ _ _ _ _ Hrun).
    unfold bind, newDate, push_history, assign_lastRun, ret. world_simpl.
    rewrite Hpb, Hkey. eexists. split; [reflexivity|].
    unfold lastRun_of. world_simpl.
    rewrite (map_get_set_same _ _ _ String_eqb_eq'). reflexivity.
  - intros e w1 Hrun.
    pose proof (run_from_first_playbooks fuel pb v w) as Hpb.
    rewrite Hrun in Hpb. simpl in Hpb.
    unfold executePlaybook, try_catch, run_playbook.
    rewrite (bind_Throw _ _ _ _ _ _ _ Hrun).
    eexists. split; [reflexivity|].
    unfold lastRun_of. simpl. rewrite Hpb, Hkey. reflexivity.
Qed.

Lemma executePlaybook_lastRun_witness :
  (exists w',
      executePlaybook 10 "critical-alert" critical_alert
                      (a_violation critical certificate)
                      (new_SOARAutomation ticking_clock) = (Ok (Some 0), w') /\
      lastRun_of "critical-alert" w' = Some 1007%Z) /\
  (exists w',
      executePlaybook 10 "untemplated" untemplated
                      (a_violation critical certificate) with_untemplated =
        (Ok None, w') /\
      lastRun_of "untemplated" w' = None).
Proof.
  split.
  - assert (Hkey : map_get String.eqb "critical-alert"
                     (playbooks (new_SOARAutomation ticking_clock)) =
                   Some critical_alert) by (vm_compute; reflexivity).
    destruct (executePlaybook_lastRun 10 "critical-alert" critical_alert
                (a_violation critical certificate)
                (new_SOARAutomation ticking_clock) Hkey) as [H _].
    assert (Hrun : run_from_first 10 critical_alert
                          (a_violation critical certificate)
                          (new_SOARAutomation ticking_clock) =
                   (Ok (Some 0),
                    snd (run_from_first 10 critical_alert
                                          (a_violation critical certificate)
                                          (new_SOARAutomation ticking_clock))))
      by (vm_compute; reflexivity).
    destruct (H _ _ Hrun) as (w' & H1 & H2).
    exists w'. split; [exact H1|]. rewrite H2. vm_compute. reflexivity.
  - assert (Hkey : map_get String.eqb "untemplated" (playbooks with_untemplated) =
                   Some untemplated) by (vm_compute; reflexivity).
    destruct (executePlaybook_lastRun 10 "untemplated" untemplated
                (a_violation critical certificate) with_untemplated Hkey)
      as [_ H].
    assert (Hrun : run_from_first 10 untemplated
                          (a_violation critical certificate)
                          with_untemplated =
                   (Throw (TypeError_undefined "replace"),
                    snd (run_from_first 10 untemplated
                                          (a_violation critical certificate)
                                          with_untemplated)))
      by (vm_compute; reflexivity).
    destruct (H _ _ Hrun) as (w' & H1 & H2).
    exists w'. split; [exact H1|]. rewrite H2. reflexivity.
Defined.

Lemma never_throws_ret : forall (A : Type) (a : A), never_throws (ret a).
Proof. intros A a w e. simpl. discriminate. Qed.

Lemma modify_incident_never_throws :
  forall ref f, never_throws (modify_incident ref f).
Proof.
  intros ref f w e. unfold modify_incident.
  destruct (map_get Nat.eqb ref (incidents w)); simpl; discriminate.
Qed.

Ltac never_throws_tac :=
  repeat first
    [ progress cbv zeta
    | apply never_throws_bind; [|intro]
    | apply never_throws_ret
    | apply modify_incident_never_throws
    | match goal with
      | |- never_throws (match ?x with _ => _ end) => destruct x
      | |- never_throws (if ?x then _ else _) => destruct x
      end
    | (intros ? ?; simpl; discriminate) ].

Lemma createIncidentFromViolation_never_throws :
  forall v, never_throws (createIncidentFromViolation v).
Proof. intro v. unfold createIncidentFromViolation. never_throws_tac. Qed.

Lemma addIncidentEvent_never_throws :
  forall i t d a x, never_throws (addIncidentEvent i t d a x).
Proof. intros. unfold addIncidentEvent. never_throws_tac. Qed.

Lemma executeStep_raised :
  forall step v inc w e w1,
    executeStep step v inc w = (Throw e, w1) -> malformed step.
Proof.
  intros step v inc w e w1 H.
  destruct (PlaybookStep.config step) as [cfg|] eqn:Hcfg;
    [|left; exact Hcfg].
  right.
  assert (Hno : never_throws (executeStep step v inc) -> False).
  { intro Hn. apply (Hn w e). rewrite H. reflexivity. }
  pose proof createIncidentFromViolation_never_throws as Hc.
  pose proof addIncidentEvent_never_throws as Ha.
  destruct (PlaybookStep.type step) eqn:Hty.
  - exfalso. apply Hno.
    unfold executeStep, executeAction, step_config. rewrite Hty, Hcfg.
    never_throws_tac; auto.
  - exfalso. apply Hno.
    unfold executeStep, executeCondition, step_config, read_incident.
    rewrite Hty, Hcfg. never_throws_tac.
  - exfalso. apply Hno.
    unfold executeStep, executeDelay, step_config, console_log.
    rewrite Hty, Hcfg. never_throws_tac.
  - destruct (StepConfig.notification cfg) as [n|] eqn:Hn.
    + exists cfg, n. split; [exact Hcfg|]. split; [reflexivity|].
      split; [exact Hn|].
      destruct (Notification.template n) as [t|] eqn:Ht; [|left; reflexivity].
      right.
      destruct (Notification.recipients n) as [rs|] eqn:Hr.
      * exfalso. apply Hno.
        unfold executeStep, executeNotification, step_config, read_incident,
          console_log.
        rewrite Hty, Hcfg. unfold bind at 1, ret at 1. cbv beta iota.
        rewrite Hn, Ht, Hr. never_throws_tac.
      * split; [|reflexivity].
        destruct (Notification.channel n) eqn:Hch; auto; exfalso; apply Hno;
          unfold executeStep, executeNotification, step_config, read_incident,
            console_log;
          rewrite Hty, Hcfg; unfold bind at 1, ret at 1; cbv beta iota;
          rewrite Hn, Ht, Hch; never_throws_tac.
    + exfalso. apply Hno.
      unfold executeStep, executeNotification, step_config.
      rewrite Hty, Hcfg. unfold bind at 1, ret at 1. cbv beta iota.
      rewrite Hn. never_throws_tac.
  - exfalso. apply Hno.
    unfold executeStep, executeRemediation, step_config, console_log.
    rewrite Hty, Hcfg. never_throws_tac.
  - exfalso. apply Hno. unfold executeStep. rewrite Hty. never_throws_tac.
Qed.

Lemma run_step_raised :
  forall step v inc w e w1,
    run_step step v inc w = (Throw e, w1) -> malformed step.
Proof.
  intros step v inc w e w1 H. unfold run_step in H. unfold bind at 1 in H.
  destruct (executeStep step v inc w) as [[r|e'|] w2] eqn:Hex;
    [|injection H as -> ->; apply (executeStep_raised _ _ _ _ _ _ Hex)
     |discriminate H].
  unfold creates_incident, step_config in H.
  destruct (PlaybookStep.type step); try discriminate H.
  destruct (PlaybookStep.config step) eqn:Hcfg; [discriminate H|].
  left. exact Hcfg.
Qed.

Lemma run_steps_raised_malformed :
  forall fuel pb v cur inc w e w1,
    run_steps fuel pb v cur inc w = (Throw e, w1) ->
    exists step, In step (steps_of pb) /\ malformed step.
Proof.
  intros fuel pb v. induction fuel as [|fuel IH]; intros cur inc w e w1 H;
    cbn [run_steps] in H;
    destruct (current_step pb cur) as [step|] eqn:Hcur; try discriminate H.
  unfold bind in H.
  destruct (run_step step v inc w) as [[next|e'|] w2] eqn:Hrs;
    [apply (IH _ _ _ _ _ H)| |discriminate H].
  exists step. split.
  - destruct (current_step_inv _ _ _ Hcur) as (sid & _ & Hin & _). exact Hin.
  - injection H as -> ->. apply (run_step_raised _ _ _ _ _ _ Hrs).
Qed.

(** C6 (as amended). Every attempt of [executePlaybook] that returns is
    recorded in the ledger, and [lastRun] follows the ledger.  When the run
    completed (the entry says [success]), the playbook's [lastRun] is the
    clock reading taken right after the entry's.  When the run failed with
    an uncaught error (the entry says [failure]), [null] is returned and
    [lastRun] is left as it was.  A run fails only for a playbook that has
    no [steps] or one of whose steps lacks what its handler reads (no
    [config], a notification without [template], or one for slack or email
    without [recipients]): the attempts of a playbook that has all of them
    always update [lastRun]. *)
Theorem executePlaybook_lastRun_follows_ledger :
  forall (fuel : nat) (key : string) (pb : Playbook.t) (v : Violation.t)
         (w : World) (r : option uuid) (w' : World),
    map_get String.eqb key (playbooks w) = Some pb ->
    executePlaybook fuel key pb v w = (Ok r, w') ->
    exists entry,
      executionHistory w' = (executionHistory w ++ [entry])%list /\
      ExecutionEntry.playbookId entry = Playbook.id pb /\
      match ExecutionEntry.result entry with
      | success =>
          lastRun_of key w' = Some (clock w' (pred (ticks w'))) /\
          ExecutionEntry.executedAt entry = clock w' (pred (pred (ticks w'))) /\
          exists w1, run_from_first fuel pb v w = (Ok r, w1)
      | failure =>
          lastRun_of key w' = Playbook.lastRun pb /\
          r = None /\
          (exists e w1, run_from_first fuel pb v w = (Throw e, w1)) /\
          (Playbook.steps pb = None \/
           exists step, In step (steps_of pb) /\ malformed step)
      end /\
      (Playbook.steps pb <> None ->
       (forall step, In step (steps_of pb) -> ~ malformed step) ->
       ExecutionEntry.result entry = success).
Proof.
  intros fuel key pb v w r w' Hkey Hex.
  pose proof (run_from_first_playbooks fuel pb v w) as Hpb.
  pose proof (run_from_first_executionHistory fuel pb v w)
    as Hled.
  unfold executePlaybook, try_catch, run_playbook in Hex.
  unfold bind at 1 in Hex.
  destruct (run_from_first fuel pb v w) as [[i|e|] w1] eqn:Hrun;
    cbn [snd] in Hpb, Hled.
  - unfold bind, newDate, push_history, assign_lastRun, ret in Hex.
    world_simpl. rewrite Hpb, Hkey in Hex. injection Hex as <- <-.
    eexists. world_simpl. split; [rewrite Hled; reflexivity|].
    split; [reflexivity|]. cbn [ExecutionEntry.result]. split.
    + unfold lastRun_of. world_simpl.
      rewrite (map_get_set_same _ _ _ String_eqb_eq'). cbn.
      split; [reflexivity|]. split; [reflexivity|]. exists w1. reflexivity.
    + intros _ _. reflexivity.
  - unfold run_failed, bind, newDate, push_history, console_log, ret in Hex.
    injection Hex as <- <-.
    assert (Hwhy : Playbook.steps pb = None \/
                   exists step, In step (steps_of pb) /\ malformed step).
    { destruct (Playbook.steps pb) as [l|] eqn:Hsteps; [right|left; reflexivity].
      rewrite (run_from_first_steps _ _ _ _ l Hsteps) in Hrun.
      apply (run_steps_raised_malformed _ _ _ _ _ _ _ _ Hrun). }
    eexists. world_simpl. split; [rewrite Hled; reflexivity|].
    split; [reflexivity|]. cbn [ExecutionEntry.result]. split.
    + unfold lastRun_of. world_simpl. rewrite Hpb, Hkey.
      split; [reflexivity|]. split; [reflexivity|].
      split; [exists e, w1; reflexivity|exact Hwhy].
    + intros Hsteps Hwf. exfalso.
      destruct Hwhy as [Hnone|(step & Hin & Hmal)];
        [apply Hsteps; exact Hnone|apply (Hwf step Hin Hmal)].
  - discriminate Hex.
Qed.

Lemma critical_alert_well_formed :
  forall step, In step (steps_of critical_alert) -> ~ malformed step.
Proof.
  intros step Hin Hmal. simpl in Hin.
  destruct Hin as [<-|[<-|[<-|[]]]];
    destruct Hmal as [H|(cfg & n & Hc & Hty & Hn & Ht)];
    try discriminate H; try discriminate Hty.
  injection Hc as <-. injection Hn as <-.
  destruct Ht as [Ht|[_ Ht]]; discriminate Ht.
Defined.

Lemma executePlaybook_lastRun_follows_ledger_witness :
  exists entry w',
    executePlaybook 10 "critical-alert" critical_alert
                    (a_violation critical certificate)
                    (new_SOARAutomation ticking_clock) = (Ok (Some 0), w') /\
    executionHistory w' = [entry] /\
    ExecutionEntry.result entry = success /\
    lastRun_of "critical-alert" w' = Some 1007%Z.
Proof.
  assert (Hkey : map_get String.eqb "critical-alert"
                   (playbooks (new_SOARAutomation ticking_clock)) =
                 Some critical_alert) by (vm_compute; reflexivity).
  assert (Hex : executePlaybook 10 "critical-alert" critical_alert
                  (a_violation critical certificate)
                  (new_SOARAutomation ticking_clock) =
                (Ok (Some 0),
                 snd (executePlaybook 10 "critical-alert" critical_alert
                        (a_violation critical certificate)
                        (new_SOARAutomation ticking_clock))))
    by (vm_compute; reflexivity).
  destruct (executePlaybook_lastRun_follows_ledger 10 "critical-alert"
              critical_alert (a_violation critical certificate)
              (new_SOARAutomation ticking_clock) _ _ Hkey Hex)
    as (entry & Hh & _ & Hm & Hwf).
  specialize (Hwf ltac:(discriminate) critical_alert_well_formed).
  rewrite Hwf in Hm. destruct Hm as (Hl & _).
  exists entry. eexists. split; [exact Hex|].
  split; [exact Hh|]. split; [exact Hwf|].
  rewrite Hl. vm_compute. reflexivity.
Defined.

(** C6, as first stated, fails: [lastRun] is not updated after an attempt
    that fails.  After the attempt of a playbook registered with a
    notification that has no [template], which ends in an uncaught error,
    the ledger holds a [failure] entry and the playbook still has no
    [lastRun]. *)
Lemma executePlaybook_failure_keeps_lastRun :
  exists w',
    executePlaybook 10 "untemplated" untemplated
                    (a_violation critical certificate) with_untemplated =
      (Ok None, w') /\
    map ExecutionEntry.result (executionHistory w') = [failure] /\
    lastRun_of "untemplated" with_untemplated = None /\
    lastRun_of "untemplated" w' = None.
Proof.
  exists (snd (executePlaybook 10 "untemplated" untemplated
                 (a_violation critical certificate) with_untemplated)).
  split; [vm_compute; reflexivity|].
  vm_compute. repeat split.
Qed.

(** ** Incidents created by a run that fails *)

Lemma registered_modify :
  forall id vid ref f,
    keeps_identity f -> preserves (registered id vid) (modify_incident ref f).
Proof.
  intros id vid ref f Hf w (Hlt & i & Hget & Hid & Hv).
  unfold modify_incident.
  destruct (map_get Nat.eqb ref (incidents w)) as [j|] eqn:Hj;
    [|split; [exact Hlt|exists i; auto]].
  split; [exact Hlt|]. unfold getIncident in *. simpl.
  destruct (Nat.eq_dec id ref) as [->|Hne].
  - rewrite (map_get_set_same _ _ _ Nat_eqb_eq').
    exists (f j). split; [reflexivity|].
    assert (j = i) by congruence. subst j.
    destruct (Hf i) as [H1 H2]. split; congruence.
  - rewrite (map_get_set_other _ _ _ Nat_eqb_eq' _ _ _ _ Hne).
    exists i. auto.
Qed.

Lemma registered_create :
  forall id vid v, preserves (registered id vid) (createIncidentFromViolation v).
Proof.
  intros id vid v w (Hlt & i & Hget & Hid & Hv).
  unfold registered, createIncidentFromViolation, bind, uuidv4, newDate.
  unfold getIncident in *. simpl.
  split; [lia|].
  rewrite (map_get_set_other _ _ _ Nat_eqb_eq') by lia.
  exists i. auto.
Qed.

Lemma run_steps_registered :
  forall id vid fuel pb v cur inc,
    preserves (registered id vid) (run_steps fuel pb v cur inc).
Proof.
  intros id vid. apply run_steps_preserves.
  - intros w n (Hlt & H). split; [exact Hlt|exact H].
  - intros w (Hlt & H). split; [simpl; lia|exact H].
  - intros w c (Hlt & H). split; [exact Hlt|exact H].
  - apply registered_modify.
  - apply registered_create.
Qed.

Lemma createIncidentFromViolation_registers :
  forall v w,
    fst (createIncidentFromViolation v w) = Ok (uuid_next w) /\
    registered (uuid_next w) (Violation.id v)
               (snd (createIncidentFromViolation v w)).
Proof.
  intros v w.
  unfold registered, getIncident, createIncidentFromViolation, bind, uuidv4,
    newDate. simpl.
  split; [reflexivity|]. split; [lia|].
  rewrite (map_get_set_same _ _ _ Nat_eqb_eq').
  eexists. split; [reflexivity|]. split; reflexivity.
Qed.

Lemma run_step_create_incident :
  forall step v inc w,
    is_create_incident step ->
    executeStep step v inc w =
      (Ok (mkResult true (Some (uuid_next w))),
       snd (createIncidentFromViolation v w)) /\
    run_step step v inc w =
      (Ok (PlaybookStep.onSuccess step, Some (uuid_next w)),
       snd (createIncidentFromViolation v w)).
Proof.
  intros step v inc w (Hty & cfg & Hcfg & Hact).
  assert (He : executeStep step v inc w =
               (Ok (mkResult true (Some (uuid_next w))),
                snd (createIncidentFromViolation v w))).
  { unfold executeStep. rewrite Hty. unfold executeAction, step_config.
    rewrite Hcfg. unfold bind at 1. unfold ret at 1. cbv beta iota.
    rewrite Hact. reflexivity. }
  split; [exact He|].
  unfold run_step. rewrite (bind_Ok _ _ _ _ _ _ _ He).
  unfold creates_incident, step_config. rewrite Hty, Hcfg.
  unfold bind, ret. rewrite Hact. reflexivity.
Qed.

Lemma reaches_run_steps :
  forall pb v c c',
    reaches pb v c c' ->
    forall fuel,
      exists n,
        run_steps (n + fuel) pb v (fst (fst c)) (snd (fst c)) (snd c) =
        run_steps fuel pb v (fst (fst c')) (snd (fst c')) (snd c').
Proof.
  intros pb v c c' H. induction H as [c|cur inc w step next w' c Hc Hs _ IH];
    intro fuel.
  - exists 0. reflexivity.
  - destruct (IH fuel) as [n Hn]. exists (S n).
    cbn [fst snd plus run_steps] in *. rewrite Hc.
    rewrite (bind_Ok _ _ _ _ _ _ _ Hs). exact Hn.
Qed.

Lemma run_failed_result :
  forall pb e w,
    run_failed pb e w =
      (Ok None,
       set_console (console w ++ [LogPlaybookFailed (Playbook.name pb) e])
         (set_executionHistory
            (executionHistory w ++
             [ExecutionEntry.mk (Playbook.id pb) (clock w (ticks w)) failure])
            (set_ticks (S (ticks w)) w))).
Proof. intros. reflexivity. Qed.

Lemma executePlaybook_caught :
  forall fuel key pb v w e w1,
    run_from_first fuel pb v w = (Throw e, w1) ->
    executePlaybook fuel key pb v w = run_failed pb e w1.
Proof.
  intros fuel key pb v w e w1 H.
  unfold executePlaybook, try_catch, run_playbook.
  rewrite (bind_Throw _ _ _ _ _ _ _ H). reflexivity.
Qed.

(** C9. If a run of a playbook reaches a [create_incident] step and, from
    there on, ends in an uncaught error, then [executePlaybook] returns
    [null] and appends a [failure] entry to the ledger, and the incident
    that step created is still in the incident store: [getIncident] finds
    it under its id and [getAllIncidents] lists it. *)
Theorem created_incident_survives_failed_run :
  forall (pb : Playbook.t) (v : Violation.t) (key : string) (w : World)
         (cur : option string) (inc : option uuid) (w1 : World)
         (step : PlaybookStep.t) (fuel : nat) (e : JsError) (w2 : World),
    reaches pb v (first_step_id pb, None, w) (cur, inc, w1) ->
    current_step pb cur = Some step ->
    is_create_incident step ->
    run_steps fuel pb v cur inc w1 = (Throw e, w2) ->
    exists fuel' w3 i,
      fst (executeStep step v inc w1) =
        Ok (mkResult true (Some (uuid_next w1))) /\
      executePlaybook fuel' key pb v w = (Ok None, w3) /\
      executionHistory w3 =
        (executionHistory w ++
         [ExecutionEntry.mk (Playbook.id pb) (clock w2 (ticks w2)) failure])%list /\
      getIncident (uuid_next w1) w3 = Some i /\
      In i (getAllIncidents w3) /\
      Incident.id i = uuid_next w1 /\
      Incident.violationIds i = [Violation.id v].
Proof.
  intros pb v key w cur inc w1 step fuel e w2 Hreach Hcur Hstep Hrun.
  destruct (run_step_create_incident step v inc w1 Hstep) as [Hexec Hrs].
  destruct (createIncidentFromViolation_registers v w1) as [_ Hreg].
  (* the failure comes after the step *)
  destruct fuel as [|fuel]; cbn [run_steps] in Hrun; rewrite Hcur in Hrun;
    [discriminate Hrun|].
  pose proof Hrun as Hrest.
  rewrite (bind_Ok _ _ _ _ _ _ _ Hrs) in Hrest. cbn [fst snd] in Hrest.
  pose proof (run_steps_registered (uuid_next w1) (Violation.id v) fuel pb v
                (PlaybookStep.onSuccess step) (Some (uuid_next w1)) _ Hreg) as Hreg2.
  rewrite Hrest in Hreg2. cbn [snd] in Hreg2.
  (* the whole run *)
  destruct (reaches_run_steps pb v _ _ Hreach (S fuel)) as [n Hn].
  cbn [fst snd] in Hn.
  destruct (current_step_steps _ _ _ Hcur) as [steps Hsteps].
  assert (Hwhole : run_from_first (n + S fuel) pb v w = (Throw e, w2)).
  { rewrite (run_from_first_steps _ _ _ _ steps Hsteps).
    rewrite Hn. cbn [run_steps]. rewrite Hcur. exact Hrun. }
  pose proof (run_from_first_executionHistory (n + S fuel) pb v w) as Hled.
  rewrite Hwhole in Hled. cbn [snd] in Hled.
  destruct Hreg2 as (_ & i & Hget & Hid & Hv).
  exists (n + S fuel). eexists. exists i.
  split; [rewrite Hexec; reflexivity|].
  split; [rewrite (executePlaybook_caught _ key _ _ _ _ _ Hwhole);
          apply run_failed_result|].
  world_simpl. rewrite Hled.
  split; [reflexivity|]. split; [exact Hget|].
  split; [|split; assumption].
  apply (map_get_In_values _ _ Nat.eqb (uuid_next w1)). exact Hget.
Qed.

Lemma created_incident_survives_failed_run_witness :
  exists fuel' w3 i,
    executePlaybook fuel' "untemplated" untemplated
                    (a_violation critical certificate) with_untemplated =
      (Ok None, w3) /\
    getIncident 0 w3 = Some i /\
    In i (getAllIncidents w3) /\
    Incident.violationIds i = [7].
Proof.
  assert (Hcur : current_step untemplated (first_step_id untemplated) =
                 Some (PlaybookStep.mk "open" "Create Incident" st_action
                         (action_config create_incident) (Some "tell") None))
    by (vm_compute; reflexivity).
  assert (Hstep : is_create_incident
                    (PlaybookStep.mk "open" "Create Incident" st_action
                       (action_config create_incident) (Some "tell") None)).
  { split; [reflexivity|]. eexists. split; reflexivity. }
  assert (Hrun : run_steps 10 untemplated (a_violation critical certificate)
                   (first_step_id untemplated) None with_untemplated =
                 (Throw (TypeError_undefined "replace"),
                  snd (run_steps 10 untemplated
                         (a_violation critical certificate)
                         (first_step_id untemplated) None with_untemplated)))
    by (vm_compute; reflexivity).
  destruct (created_incident_survives_failed_run untemplated
              (a_violation critical certificate) "untemplated" with_untemplated
              _ _ _ _ _ _ _
              (reaches_here untemplated (a_violation critical certificate) _)
              Hcur Hstep Hrun)
    as (fuel' & w3 & i & _ & H1 & _ & H3 & H4 & _ & H6).
  exists fuel', w3, i.
  split; [exact H1|]. split; [exact H3|]. split; [exact H4|exact H6].
Defined.

(** ** Failure isolation *)

Lemma executePlaybook_never_throws :
  forall fuel key pb v, never_throws (executePlaybook fuel key pb v).
Proof.
  intros fuel key pb v w e. unfold executePlaybook, try_catch.
  destruct (run_playbook fuel key pb v w) as [[r|e'|] w1];
    try rewrite run_failed_result; simpl; discriminate.
Qed.

Lemma readable_trigger_answers :
  forall pb v, readable_trigger pb -> exists b, shouldTrigger pb v = Ok b.
Proof.
  intros pb v (trigger & Htr & Hc). unfold shouldTrigger. rewrite Htr.
  destruct (PlaybookTrigger.type trigger); try (eexists; reflexivity).
  destruct (PlaybookTrigger.conditions trigger) as [c|];
    [eexists; reflexivity|].
  exfalso. apply Hc; reflexivity.
Qed.

Lemma set_lastRun_readable :
  forall key d pb w,
    map_get String.eqb key (playbooks w) = Some pb ->
    triggers_readable w ->
    triggers_readable
      (set_playbooks
         (map_set String.eqb key (Playbook.set_lastRun d pb) (playbooks w)) w).
Proof.
  intros key d pb w Hkey Hr k p Hk Hen. world_simpl.
  destruct (String.eqb_spec k key) as [->|Hne].
  - rewrite (map_get_set_same _ _ _ String_eqb_eq') in Hk.
    injection Hk as <-. apply (Hr key pb Hkey). exact Hen.
  - rewrite (map_get_set_other _ _ _ String_eqb_eq' _ _ _ _ Hne) in Hk.
    apply (Hr k p Hk Hen).
Qed.

Lemma triggers_readable_playbooks :
  forall w w',
    playbooks w' = playbooks w -> triggers_readable w -> triggers_readable w'.
Proof.
  intros w w' H Hr k p Hk Hen. rewrite H in Hk. apply (Hr k p Hk Hen).
Qed.

Lemma executePlaybook_readable :
  forall fuel key pb v w,
    triggers_readable w ->
    triggers_readable (snd (executePlaybook fuel key pb v w)).
Proof.
  intros fuel key pb v w Hr.
  pose proof (run_from_first_playbooks fuel pb v w) as Hpb.
  unfold executePlaybook, try_catch, run_playbook.
  unfold bind at 1.
  destruct (run_from_first fuel pb v w) as [[i|e|] w1];
    cbn [snd] in Hpb.
  - unfold bind, newDate, push_history, assign_lastRun, ret. world_simpl.
    destruct (map_get String.eqb key (playbooks w1)) as [p|] eqn:Hkey;
      cbn [snd].
    + apply (set_lastRun_readable key _ p
               (set_ticks (S (S (ticks w1)))
                  (set_executionHistory
                     (executionHistory w1 ++
                      [ExecutionEntry.mk (Playbook.id pb) (clock w1 (ticks w1))
                         success])
                     (set_ticks (S (ticks w1)) w1)))).
      * exact Hkey.
      * apply (triggers_readable_playbooks w); [exact Hpb|exact Hr].
    + apply (triggers_readable_playbooks w); [exact Hpb|exact Hr].
  - rewrite run_failed_result. cbn [snd].
    apply (triggers_readable_playbooks w); [exact Hpb|exact Hr].
  - cbn [snd]. apply (triggers_readable_playbooks w); [exact Hpb|exact Hr].
Qed.

Lemma executePlaybooks_loop_never_throws :
  forall fuel v keys acc w e,
    triggers_readable w ->
    fst (executePlaybooks_loop fuel v keys acc w) <> Throw e.
Proof.
  intros fuel v keys.
  induction keys as [|key rest IH]; intros acc w e Hr;
    cbn [executePlaybooks_loop].
  - simpl. discriminate.
  - destruct (map_get String.eqb key (playbooks w)) as [pb|] eqn:Hkey;
      [|apply IH; exact Hr].
    destruct (Playbook.enabled pb) eqn:Hen; cbn [negb];
      [|apply IH; exact Hr].
    destruct (readable_trigger_answers pb v (Hr key pb Hkey Hen)) as [b ->].
    destruct b; [|apply IH; exact Hr].
    pose proof (executePlaybook_readable fuel key pb v w Hr) as Hr1.
    pose proof (executePlaybook_never_throws fuel key pb v w) as Hnt.
    unfold bind.
    destruct (executePlaybook fuel key pb v w) as [[r|e'|] w1];
      cbn [fst snd] in *.
    + apply IH. exact Hr1.
    + exfalso. apply (Hnt e'). reflexivity.
    + discriminate.
Qed.

Lemma executePlaybooks_never_throws :
  forall fuel v w e,
    triggers_readable w -> fst (executePlaybooks fuel v w) <> Throw e.
Proof.
  intros fuel v w e Hr. unfold executePlaybooks.
  apply executePlaybooks_loop_never_throws. exact Hr.
Qed.

Lemma executePlaybooks_loop_triggered :
  forall fuel v key pb rest acc w r w',
    map_get String.eqb key (playbooks w) = Some pb ->
    Playbook.enabled pb = true ->
    shouldTrigger pb v = Ok true ->
    executePlaybook fuel key pb v w = (Ok r, w') ->
    executePlaybooks_loop fuel v (key :: rest) acc w =
    executePlaybooks_loop fuel v rest
      (match r with Some i => (acc ++ [i])%list | None => acc end) w'.
Proof.
  intros fuel v key pb rest acc w r w' Hkey Hen Htr Hex.
  cbn [executePlaybooks_loop]. rewrite Hkey, Hen, Htr. cbn [negb].
  rewrite (bind_Ok _ _ _ _ _ _ _ Hex). reflexivity.
Qed.

(** C1 (as amended). If the run of one enabled, triggered playbook raises
    an uncaught error during [executePlaybooks], the error is caught at that
    playbook: [executePlaybook] returns [null], a [failure] entry for the
    playbook is appended to the ledger and the failure is logged, the list
    of incidents collected so far is kept, and the loop goes on with the
    remaining playbooks exactly as it would have from that state; a later
    playbook that is enabled and triggered is run, and when it returns an
    incident that incident is appended to the result.  [executePlaybooks]
    itself never raises as long as [shouldTrigger] can read the trigger of
    every enabled playbook, which the run of a playbook, failed or not, does
    not change. *)
Theorem executePlaybooks_failure_isolation :
  forall (fuel : nat) (v : Violation.t) (key : string) (pb : Playbook.t)
         (rest : list string) (acc : list uuid) (e : JsError) (w w1 : World),
    map_get String.eqb key (playbooks w) = Some pb ->
    Playbook.enabled pb = true ->
    shouldTrigger pb v = Ok true ->
    run_from_first fuel pb v w = (Throw e, w1) ->
    exists w2,
      executePlaybook fuel key pb v w = (Ok None, w2) /\
      executionHistory w2 =
        (executionHistory w ++
         [ExecutionEntry.mk (Playbook.id pb) (clock w1 (ticks w1)) failure])%list /\
      console w2 = (console w1 ++ [LogPlaybookFailed (Playbook.name pb) e])%list /\
      playbooks w2 = playbooks w /\
      incidents w2 = incidents w1 /\
      executePlaybooks_loop fuel v (key :: rest) acc w =
        executePlaybooks_loop fuel v rest acc w2 /\
      (forall key' pb' rest' acc' i w' w'',
          map_get String.eqb key' (playbooks w') = Some pb' ->
          Playbook.enabled pb' = true ->
          shouldTrigger pb' v = Ok true ->
          executePlaybook fuel key' pb' v w' = (Ok (Some i), w'') ->
          executePlaybooks_loop fuel v (key' :: rest') acc' w' =
            executePlaybooks_loop fuel v rest' (acc' ++ [i])%list w'') /\
      (triggers_readable w -> triggers_readable w2) /\
      (forall w0 e0,
          triggers_readable w0 ->
          fst (executePlaybooks fuel v w0) <> Throw e0) /\
      (forall keys acc0 w0 e0,
          triggers_readable w0 ->
          fst (executePlaybooks_loop fuel v keys acc0 w0) <> Throw e0).
Proof.
  intros fuel v key pb rest acc e w w1 Hkey Hen Htr Hrun.
  pose proof (executePlaybook_caught fuel key pb v w e w1 Hrun) as Hex.
  rewrite run_failed_result in Hex.
  pose proof (run_from_first_executionHistory fuel pb v w)
    as Hled.
  pose proof (run_from_first_playbooks fuel pb v w) as Hpb.
  rewrite Hrun in Hled, Hpb. cbn [snd] in Hled, Hpb.
  eexists. split; [exact Hex|]. world_simpl.
  split; [rewrite Hled; reflexivity|].
  split; [reflexivity|]. split; [exact Hpb|]. split; [reflexivity|].
  split; [|split; [|split; [|split]]].
  - apply (executePlaybooks_loop_triggered fuel v key pb rest acc w None _
             Hkey Hen Htr Hex).
  - intros key' pb' rest' acc' i w' w'' Hkey' Hen' Htr' Hex'.
    apply (executePlaybooks_loop_triggered fuel v key' pb' rest' acc' w'
             (Some i) w'' Hkey' Hen' Htr' Hex').
  - apply triggers_readable_playbooks. world_simpl. exact Hpb.
  - intros w0 e0. apply executePlaybooks_never_throws.
  - intros keys acc0 w0 e0. apply executePlaybooks_loop_never_throws.
Qed.

Lemma executePlaybooks_failure_isolation_witness :
  (exists w2,
      executePlaybook 10 "untemplated" untemplated
                      (a_violation critical certificate)
                      untemplated_then_critical = (Ok None, w2) /\
      map ExecutionEntry.result (executionHistory w2) = [failure] /\
      executePlaybooks_loop 10 (a_violation critical certificate)
                            ["untemplated"; "critical-alert"] []
                            untemplated_then_critical =
        executePlaybooks_loop 10 (a_violation critical certificate)
                              ["critical-alert"] [] w2) /\
  fst (executePlaybooks 10 (a_violation critical certificate)
                        untemplated_then_critical) = Ok [2] /\
  map ExecutionEntry.result
      (executionHistory
         (snd (executePlaybooks 10 (a_violation critical certificate)
                                untemplated_then_critical))) =
    [failure; success].
Proof.
  split; [|split; vm_compute; reflexivity].
  assert (Hkey : map_get String.eqb "untemplated"
                   (playbooks untemplated_then_critical) = Some untemplated)
    by (vm_compute; reflexivity).
  assert (Hrun : run_from_first 10 untemplated
                        (a_violation critical certificate)
                        untemplated_then_critical =
                 (Throw (TypeError_undefined "replace"),
                  snd (run_from_first 10 untemplated
                                        (a_violation critical certificate)
                                        untemplated_then_critical)))
    by (vm_compute; reflexivity).
  destruct (executePlaybooks_failure_isolation 10
              (a_violation critical certificate) "untemplated" untemplated
              ["critical-alert"] [] _ _ _ Hkey eq_refl eq_refl Hrun)
    as (w2 & H1 & H2 & _ & _ & _ & H6 & _).
  exists w2. split; [exact H1|]. split; [|exact H6].
  rewrite H2. vm_compute. reflexivity.
Defined.

(** C1, as first stated, fails in its last part: [shouldTrigger] is called
    outside the [try] block of [executePlaybook], so an enabled playbook
    registered without [conditions] in its trigger makes [executePlaybooks]
    raise a [TypeError]; the playbooks registered after it are not run and
    nothing is appended to the ledger. *)
Lemma executePlaybooks_raises_on_unreadable_trigger :
  map_keys (playbooks unconditioned_then_critical) =
    ["unconditioned"; "critical-alert"] /\
  shouldTrigger critical_alert (a_violation critical certificate) = Ok true /\
  executePlaybooks 10 (a_violation critical certificate)
                   unconditioned_then_critical =
    (Throw (TypeError_undefined "severity"), unconditioned_then_critical) /\
  executionHistory unconditioned_then_critical = [].
Proof. repeat split. Qed.

(** ** Further properties of the engine *)

(** X3. [createIncidentFromViolation] returns a new incident registered
    under a fresh id: open, with title, description and severity taken from
    the violation, priority [P1] for critical, [P2] for high, [P3] for
    medium and [P4] for low and info, the violation's id as its only
    [violationIds] entry, and a timeline holding a single [created]
    event. *)
Theorem createIncidentFromViolation_incident :
  forall (v : Violation.t) (w : World),
    exists i w',
      createIncidentFromViolation v w = (Ok (uuid_next w), w') /\
      getIncident (uuid_next w) w' = Some i /\
      Incident.id i = uuid_next w /\
      Incident.status i = inc_open /\
      Incident.title i = Violation.title v /\
      Incident.description i = Violation.description v /\
      Incident.severity i = Violation.severity v /\
      Incident.priority i =
        match Violation.severity v with
        | critical => P1
        | high => P2
        | medium => P3
        | low | info => P4
        end /\
      Incident.violationIds i = [Violation.id v] /\
      map IncidentEvent.type (Incident.timeline i) = [created].
Proof.
  intros v w. unfold createIncidentFromViolation, bind, uuidv4, newDate.
  world_simpl. do 2 eexists. split; [reflexivity|].
  split; [apply getIncident_set_incidents|].
  cbn. repeat split.
Qed.

(** X4. [update_status], [assign] and [escalate] need a bound incident:
    run without one, the action step reports failure, throws nothing and
    changes nothing. *)
Theorem executeAction_needs_incident :
  forall (step : PlaybookStep.t) (cfg : StepConfig.t) (a : Action)
         (v : Violation.t) (w : World),
    PlaybookStep.config step = Some cfg ->
    StepConfig.action cfg = Some a ->
    a = update_status \/ a = assign \/ a = escalate ->
    executeAction step v None w = (Ok (mkResult false None), w).
Proof.
  intros step cfg a v w Hcfg Hact Ha.
  unfold executeAction, step_config. rewrite Hcfg.
  unfold bind at 1. unfold ret at 1. cbv beta iota. rewrite Hact.
  destruct Ha as [-> | [-> | ->]]; reflexivity.
Qed.

Lemma executeAction_needs_incident_witness :
  executeAction escalate_step (a_violation critical certificate) None
                (boot ticking_clock) =
    (Ok (mkResult false None), boot ticking_clock).
Proof.
  apply (executeAction_needs_incident escalate_step
           (StepConfig.mk (Some escalate) None None None None) escalate).
  - reflexivity.
  - reflexivity.
  - right. right. reflexivity.
Defined.

(** ** More on maps: deletion, key order, uniqueness of keys *)

Section JsMapOrder.
Variables K V : Type.
Variable eqb : K -> K -> bool.
Hypothesis eqb_eq : forall a b, eqb a b = true <-> a = b.

Lemma map_get_none_keys :
  forall (k : K) (m : jsmap K V), map_get eqb k m = None <-> ~ In k (map_keys m).
Proof.
  intros k m. induction m as [|[k0 v0] r IH]; simpl.
  - split; auto.
  - destruct (eqb k k0) eqn:E.
    + apply eqb_eq in E. subst k0. split; [discriminate|]. intro H. tauto.
    + rewrite IH. split.
      * intros H [H1|H1]; [|tauto]. subst k0.
        rewrite (eqb_refl' _ eqb eqb_eq) in E. discriminate.
      * tauto.
Qed.

Lemma map_keys_set :
  forall (k : K) (v : V) (m : jsmap K V),
    map_keys (map_set eqb k v m) =
    if is_some (map_get eqb k m) then map_keys m else (map_keys m ++ [k])%list.
Proof.
  intros k v m. induction m as [|[k0 v0] r IH]; simpl; [reflexivity|].
  destruct (eqb k k0) eqn:E; simpl.
  - apply eqb_eq in E. subst k0. reflexivity.
  - rewrite IH. destruct (is_some (map_get eqb k r)); reflexivity.
Qed.

Lemma map_get_delete_other :
  forall (k k' : K) (m : jsmap K V),
    k <> k' -> map_get eqb k (map_delete eqb k' m) = map_get eqb k m.
Proof.
  intros k k' m Hne. induction m as [|[k0 v0] r IH]; simpl; [reflexivity|].
  destruct (eqb k' k0) eqn:E.
  - apply eqb_eq in E. subst k0. rewrite (eqb_neq' _ eqb eqb_eq _ _ Hne).
    reflexivity.
  - simpl. rewrite IH. reflexivity.
Qed.

Lemma map_keys_delete_incl :
  forall (k x : K) (m : jsmap K V),
    In x (map_keys (map_delete eqb k m)) -> In x (map_keys m).
Proof.
  intros k x m. induction m as [|[k0 v0] r IH]; simpl; [auto|].
  destruct (eqb k k0); simpl; tauto.
Qed.

Lemma map_get_delete_same :
  forall (k : K) (m : jsmap K V),
    NoDup (map_keys m) -> map_get eqb k (map_delete eqb k m) = None.
Proof.
  intros k m. induction m as [|[k0 v0] r IH]; simpl; [reflexivity|].
  intro H. inversion H as [|x l Hnot Hnd]; subst.
  destruct (eqb k k0) eqn:E.
  - apply eqb_eq in E. subst k0. apply map_get_none_keys. exact Hnot.
  - simpl. rewrite E. apply IH. exact Hnd.
Qed.

Lemma map_delete_NoDup :
  forall (k : K) (m : jsmap K V),
    NoDup (map_keys m) -> NoDup (map_keys (map_delete eqb k m)).
Proof.
  intros k m. induction m as [|[k0 v0] r IH]; simpl; [auto|].
  intro H. inversion H as [|x l Hnot Hnd]; subst.
  destruct (eqb k k0); [exact Hnd|]. simpl. constructor.
  - intro Hin. apply Hnot. apply (map_keys_delete_incl k). exact Hin.
  - apply IH. exact Hnd.
Qed.

Lemma map_delete_length :
  forall (k : K) (m : jsmap K V),
    List.length (map_delete eqb k m) =
    if is_some (map_get eqb k m) then pred (List.length m) else List.length m.
Proof.
  intros k m. induction m as [|[k0 v0] r IH]; simpl; [reflexivity|].
  destruct (eqb k k0); simpl; [reflexivity|].
  rewrite IH. destruct (map_get eqb k r) eqn:E; simpl; [|reflexivity].
  destruct r; [discriminate E|reflexivity].
Qed.
End JsMapOrder.

(** ** The playbook registry *)

(** X5. [addPlaybook] followed by [getPlaybook] under the playbook's id
    returns the playbook; every other id is unaffected.  Registering under
    an id that is already taken replaces the playbook in place, so the
    order in which playbooks are run does not change; a new id goes last. *)
Theorem addPlaybook_getPlaybook :
  forall (p : Playbook.t) (w : World),
    exists w',
      addPlaybook p w = (Ok tt, w') /\
      getPlaybook (Playbook.id p) w' = Some p /\
      (forall id, id <> Playbook.id p -> getPlaybook id w' = getPlaybook id w) /\
      map_keys (playbooks w') =
        (if is_some (getPlaybook (Playbook.id p) w)
         then map_keys (playbooks w)
         else (map_keys (playbooks w) ++ [Playbook.id p])%list) /\
      incidents w' = incidents w /\
      executionHistory w' = executionHistory w.
Proof.
  intros p w. eexists. split; [reflexivity|]. unfold getPlaybook. world_simpl.
  split; [apply (map_get_set_same _ _ _ String_eqb_eq')|].
  split; [intros id Hne; apply (map_get_set_other _ _ _ String_eqb_eq'); exact Hne|].
  split; [apply (map_keys_set _ _ _ String_eqb_eq')|].
  split; reflexivity.
Qed.

(** X6. [deletePlaybook] answers whether a playbook was registered under
    the id; afterwards [getPlaybook] finds nothing under it, every other
    playbook is still there, and there is one playbook less exactly when
    the answer was [true]. *)
Theorem deletePlaybook_getPlaybook :
  forall (id : string) (w : World),
    NoDup (map_keys (playbooks w)) ->
    exists w',
      deletePlaybook id w = (Ok (is_some (getPlaybook id w)), w') /\
      getPlaybook id w' = None /\
      (forall id', id' <> id -> getPlaybook id' w' = getPlaybook id' w) /\
      List.length (getAllPlaybooks w') =
        (if is_some (getPlaybook id w) then pred (List.length (getAllPlaybooks w))
         else List.length (getAllPlaybooks w)) /\
      NoDup (map_keys (playbooks w')).
Proof.
  intros id w Hnd. eexists. split; [reflexivity|].
  unfold getPlaybook, getAllPlaybooks, map_values. world_simpl.
  split; [apply (map_get_delete_same _ _ _ String_eqb_eq'); exact Hnd|].
  split; [intros id' Hne; apply (map_get_delete_other _ _ _ String_eqb_eq');
          exact Hne|].
  split; [rewrite !length_map; apply map_delete_length|].
  apply map_delete_NoDup. exact Hnd.
Qed.

Lemma deletePlaybook_getPlaybook_witness :
  exists w',
    deletePlaybook "critical-alert" (new_SOARAutomation ticking_clock) =
      (Ok true, w') /\
    getPlaybook "critical-alert" w' = None /\
    List.length (getAllPlaybooks w') = 2.
Proof.
  assert (Hnd : NoDup (map_keys (playbooks (new_SOARAutomation ticking_clock)))).
  { vm_compute. repeat constructor; simpl; intuition discriminate. }
  destruct (deletePlaybook_getPlaybook "critical-alert"
              (new_SOARAutomation ticking_clock) Hnd)
    as (w' & H1 & H2 & _ & H4 & _).
  exists w'. split; [exact H1|]. split; [exact H2|]. exact H4.
Defined.

(** X7. [togglePlaybook] sets the [enabled] flag of the playbook registered
    under the id and nothing else: the other playbooks, the order of the
    registry and all other fields of the playbook stay; for an id that is
    not registered it does nothing. *)
Theorem togglePlaybook_enabled :
  forall (id : string) (enabled : bool) (w : World),
    (forall p, getPlaybook id w = Some p ->
       exists w',
         togglePlaybook id enabled w = (Ok tt, w') /\
         getPlaybook id w' = Some (Playbook.set_enabled enabled p) /\
         (forall id', id' <> id -> getPlaybook id' w' = getPlaybook id' w) /\
         map_keys (playbooks w') = map_keys (playbooks w)) /\
    (getPlaybook id w = None -> togglePlaybook id enabled w = (Ok tt, w)).
Proof.
  intros id enabled w. unfold getPlaybook, togglePlaybook. split.
  - intros p Hp. rewrite Hp. eexists. split; [reflexivity|]. world_simpl.
    split; [apply (map_get_set_same _ _ _ String_eqb_eq')|].
    split; [intros id' Hne; apply (map_get_set_other _ _ _ String_eqb_eq');
            exact Hne|].
    rewrite (map_keys_set _ _ _ String_eqb_eq'), Hp. reflexivity.
  - intro Hp. rewrite Hp. reflexivity.
Qed.

(** ** Playbooks that are not run *)

Lemma executePlaybooks_loop_idle :
  forall fuel v keys acc w,
    (forall key pb,
        In key keys ->
        map_get String.eqb key (playbooks w) = Some pb ->
        Playbook.enabled pb = false \/ shouldTrigger pb v = Ok false) ->
    executePlaybooks_loop fuel v keys acc w = (Ok acc, w).
Proof.
  intros fuel v keys. induction keys as [|key rest IH]; intros acc w H;
    cbn [executePlaybooks_loop]; [reflexivity|].
  assert (Hrest : forall k pb,
             In k rest -> map_get String.eqb k (playbooks w) = Some pb ->
             Playbook.enabled pb = false \/ shouldTrigger pb v = Ok false)
    by (intros k pb' Hin; apply H; right; exact Hin).
  destruct (map_get String.eqb key (playbooks w)) as [pb|] eqn:Hkey;
    [|apply IH; exact Hrest].
  destruct (H key pb (or_introl eq_refl) Hkey) as [-> | ->]; cbn [negb];
    [apply IH; exact Hrest|].
  destruct (negb (Playbook.enabled pb)); apply IH; exact Hrest.
Qed.

(** X8. When every registered playbook is disabled, or has a trigger of a
    type other than [violation] (a [schedule], [manual] or [webhook]
    trigger never fires, whatever its conditions), or has a trigger that
    does not match the violation, [executePlaybooks] returns the empty list
    and changes nothing: no incident, no ledger entry, no [lastRun], no
    output, no clock reading. *)
Theorem executePlaybooks_nothing_to_run :
  forall (fuel : nat) (v : Violation.t) (w : World),
    (forall key p,
        getPlaybook key w = Some p ->
        Playbook.enabled p = false \/
        (exists trigger,
            Playbook.trigger p = Some trigger /\
            PlaybookTrigger.type trigger <> trg_violation) \/
        shouldTrigger p v = Ok false) ->
    executePlaybooks fuel v w = (Ok [], w).
Proof.
  intros fuel v w H. unfold executePlaybooks.
  apply executePlaybooks_loop_idle. intros key p _ E.
  destruct (H key p E) as [Hen | [(trigger & Htr & Hty) | Hno]];
    [left; exact Hen| |right; exact Hno].
  right. unfold shouldTrigger. rewrite Htr.
  destruct (PlaybookTrigger.type trigger); [contradiction| | |]; reflexivity.
Qed.

Lemma executePlaybooks_nothing_to_run_witness :
  executePlaybooks 10 (a_violation critical certificate) all_switched_off =
    (Ok [], all_switched_off) /\
  executePlaybooks 10 (a_violation medium certificate)
                   (new_SOARAutomation ticking_clock) =
    (Ok [], new_SOARAutomation ticking_clock).
Proof.
  split.
  - apply executePlaybooks_nothing_to_run. intros key p Hp. left.
    unfold getPlaybook in Hp. vm_compute in Hp.
    repeat match type of Hp with
           | (if ?b then _ else _) = _ => destruct b
           end;
      try discriminate Hp; injection Hp as <-; reflexivity.
  - apply executePlaybooks_nothing_to_run. intros key p Hp. right. right.
    unfold getPlaybook in Hp. vm_compute in Hp.
    repeat match type of Hp with
           | (if ?b then _ else _) = _ => destruct b
           end;
      try discriminate Hp; injection Hp as <-; reflexivity.
Defined.

(** ** What a call of [executePlaybooks] adds to the ledger *)

Lemma executePlaybook_effect :
  forall fuel key pb v w r w',
    map_get String.eqb key (playbooks w) = Some pb ->
    executePlaybook fuel key pb v w = (Ok r, w') ->
    (exists entry,
        executionHistory w' = (executionHistory w ++ [entry])%list /\
        ExecutionEntry.playbookId entry = Playbook.id pb) /\
    map_keys (playbooks w') = map_keys (playbooks w) /\
    (forall k, option_map without_lastRun (map_get String.eqb k (playbooks w')) =
               option_map without_lastRun (map_get String.eqb k (playbooks w))).
Proof.
  intros fuel key pb v w r w' Hkey Hex.
  pose proof (run_from_first_playbooks fuel pb v w) as Hpb.
  pose proof (run_from_first_executionHistory fuel pb v w)
    as Hled.
  unfold executePlaybook, try_catch, run_playbook in Hex.
  unfold bind at 1 in Hex.
  destruct (run_from_first fuel pb v w) as [[i|e|] w1];
    cbn [snd] in Hpb, Hled.
  - unfold bind, newDate, push_history, assign_lastRun, ret in Hex.
    world_simpl. rewrite Hpb, Hkey in Hex. injection Hex as <- <-. world_simpl.
    split; [eexists; split; [rewrite Hled; reflexivity|reflexivity]|].
    split.
    + rewrite (map_keys_set _ _ _ String_eqb_eq'), Hkey. reflexivity.
    + intro k. destruct (String.eqb_spec k key) as [->|Hne].
      * rewrite (map_get_set_same _ _ _ String_eqb_eq'), Hkey. reflexivity.
      * rewrite (map_get_set_other _ _ _ String_eqb_eq' _ _ _ _ Hne). reflexivity.
  - rewrite run_failed_result in Hex. injection Hex as <- <-. world_simpl.
    split; [eexists; split; [rewrite Hled; reflexivity|reflexivity]|].
    rewrite Hpb. split; reflexivity.
  - discriminate Hex.
Qed.

Lemma ids_at_same :
  forall v (o o' : option Playbook.t),
    option_map without_lastRun o' = option_map without_lastRun o ->
    match o' with
    | Some p => if Playbook.enabled p && triggers p v then [Playbook.id p] else []
    | None => []
    end =
    match o with
    | Some p => if Playbook.enabled p && triggers p v then [Playbook.id p] else []
    | None => []
    end.
Proof.
  intros v [p|] [p'|]; simpl; intro H; try discriminate H; [|reflexivity].
  destruct p, p'. unfold without_lastRun in H. simpl in H.
  injection H as -> -> -> -> -> ->. reflexivity.
Qed.

Lemma executePlaybooks_loop_ledger :
  forall fuel v keys acc w r w',
    executePlaybooks_loop fuel v keys acc w = (Ok r, w') ->
    exists entries,
      executionHistory w' = (executionHistory w ++ entries)%list /\
      map ExecutionEntry.playbookId entries =
        flat_map (fun key =>
                    match map_get String.eqb key (playbooks w) with
                    | Some p =>
                        if Playbook.enabled p && triggers p v
                        then [Playbook.id p] else []
                    | None => []
                    end) keys /\
      List.length r <= List.length acc + List.length entries /\
      map_keys (playbooks w') = map_keys (playbooks w) /\
      (forall k, option_map without_lastRun (map_get String.eqb k (playbooks w')) =
                 option_map without_lastRun (map_get String.eqb k (playbooks w))).
Proof.
  intros fuel v keys. induction keys as [|key rest IH]; intros acc w r w' H;
    cbn [executePlaybooks_loop] in H.
  - injection H as <- <-. exists []. rewrite app_nil_r. simpl.
    repeat split; auto. lia.
  - cbn [flat_map].
    destruct (map_get String.eqb key (playbooks w)) as [pb|] eqn:Hkey;
      [|apply IH; exact H].
    destruct (Playbook.enabled pb) eqn:Hen; cbn [negb andb] in *;
      [|apply IH; exact H].
    unfold triggers.
    destruct (shouldTrigger pb v) as [[|]|e|] eqn:Htr;
      [|apply IH; exact H|discriminate H|discriminate H].
    unfold bind in H.
    destruct (executePlaybook fuel key pb v w) as [[i|e|] w1] eqn:Hex;
      try discriminate H.
    destruct (executePlaybook_effect _ _ _ _ _ _ _ Hkey Hex)
      as ((entry & Hled & Hid) & Hkeys & Hsame).
    destruct (IH _ _ _ _ H) as (entries & Hled' & Hids & Hlen & Hkeys' & Hsame').
    exists (entry :: entries). split; [|split; [|split; [|split]]].
    + rewrite Hled', Hled, <- app_assoc. reflexivity.
    + cbn [map app]. rewrite Hid, Hids. f_equal.
      apply flat_map_ext. intro k. apply ids_at_same. apply Hsame.
    + cbn [List.length]. destruct i as [i|]; [rewrite length_app in Hlen; simpl in Hlen|];
        lia.
    + rewrite Hkeys'. exact Hkeys.
    + intro k. rewrite Hsame'. apply Hsame.
Qed.

(** X9. A call of [executePlaybooks] that returns has appended to the
    ledger exactly one entry for each enabled playbook whose trigger matches
    the violation, in registration order, after the entries that were
    there; it returns at most one incident per such playbook; and it has
    neither added nor removed a playbook nor changed anything of a playbook
    but its [lastRun]. *)
Theorem executePlaybooks_ledger :
  forall (fuel : nat) (v : Violation.t) (w : World) (r : list uuid) (w' : World),
    executePlaybooks fuel v w = (Ok r, w') ->
    exists entries,
      executionHistory w' = (executionHistory w ++ entries)%list /\
      map ExecutionEntry.playbookId entries = triggered_ids v w /\
      List.length r <= List.length entries /\
      map_keys (playbooks w') = map_keys (playbooks w) /\
      (forall id, option_map without_lastRun (getPlaybook id w') =
                  option_map without_lastRun (getPlaybook id w)).
Proof.
  intros fuel v w r w' H. unfold executePlaybooks in H.
  destruct (executePlaybooks_loop_ledger _ _ _ _ _ _ _ H)
    as (entries & H1 & H2 & H3 & H4 & H5).
  exists entries. repeat split; auto.
Qed.

Lemma executePlaybooks_ledger_witness :
  exists entries,
    executionHistory
      (snd (executePlaybooks 10 (a_violation critical certificate)
                             (new_SOARAutomation ticking_clock))) = entries /\
    map ExecutionEntry.playbookId entries =
      ["critical-alert"; "cert-expiry-alert"].
Proof.
  destruct (executePlaybooks_ledger 10 (a_violation critical certificate)
              (new_SOARAutomation ticking_clock) [0; 3]
              (snd (executePlaybooks 10 (a_violation critical certificate)
                                     (new_SOARAutomation ticking_clock))))
    as (entries & H1 & H2 & _).
  - vm_compute. reflexivity.
  - exists entries. split; [rewrite H1; reflexivity|].
    rewrite H2. vm_compute. reflexivity.
Defined.

(** ** Which incidents a run touches *)

Section BoundPreservation.
Variable P : World -> Prop.
Variable R : uuid -> Prop.
Hypothesis P_ticks : forall w n, P w -> P (set_ticks n w).
Hypothesis P_uuid : forall w, P w -> P (set_uuid_next (S (uuid_next w)) w).
Hypothesis P_console : forall w c, P w -> P (set_console c w).
Hypothesis P_modify :
  forall ref f, R ref -> keeps_identity f -> preserves P (modify_incident ref f).
Hypothesis P_create :
  forall v, preserves P (createIncidentFromViolation v).

Ltac bound_tac :=
  repeat first
    [ progress cbv zeta
    | apply P_create
    | apply preserves_bind; [|intro]
    | apply preserves_ret
    | apply preserves_throw
    | apply (newDate_preserves P P_ticks)
    | apply (uuidv4_preserves P P_uuid)
    | apply (console_log_preserves P P_console)
    | apply read_incident_preserves
    | apply P_modify;
      [ solve [auto]
      | first [ apply keeps_identity_set_status
              | apply keeps_identity_set_priority
              | apply keeps_identity_set_assignee
              | apply keeps_identity_set_updatedAt
              | apply keeps_identity_push_event ] ]
    | match goal with
      | |- preserves _ (match ?x with _ => _ end) => destruct x
      end ].

Lemma addIncidentEvent_preserves_bound :
  forall i t d a x, R i -> preserves P (addIncidentEvent i t d a x).
Proof. intros i t d a x Hi. unfold addIncidentEvent. bound_tac. Qed.

Lemma executeStep_preserves_bound :
  forall step v inc,
    (forall i, inc = Some i -> R i) -> preserves P (executeStep step v inc).
Proof.
  intros step v inc Hinc.
  unfold executeStep, executeAction, executeNotification, executeDelay,
    executeCondition, executeRemediation, step_config.
  destruct inc as [i|];
    [assert (Hi : R i) by (apply Hinc; reflexivity)|];
    destruct (PlaybookStep.type step); bound_tac;
    try (apply addIncidentEvent_preserves_bound; exact Hi).
Qed.

Lemma run_step_preserves_bound :
  forall step v inc,
    (forall i, inc = Some i -> R i) -> preserves P (run_step step v inc).
Proof.
  intros step v inc Hinc. unfold run_step.
  apply preserves_bind; [apply executeStep_preserves_bound; exact Hinc|intro].
  apply preserves_bind; [|intro; apply preserves_ret].
  unfold creates_incident, step_config. bound_tac.
Qed.
End BoundPreservation.

Section EnginePreservation.
Variable P : World -> Prop.
Hypothesis P_ticks : forall w n, P w -> P (set_ticks n w).
Hypothesis P_uuid : forall w, P w -> P (set_uuid_next (S (uuid_next w)) w).
Hypothesis P_console : forall w c, P w -> P (set_console c w).
Hypothesis P_history : forall w h, P w -> P (set_executionHistory h w).
Hypothesis P_playbooks : forall w p, P w -> P (set_playbooks p w).
Hypothesis P_modify :
  forall ref f, keeps_identity f -> preserves P (modify_incident ref f).
Hypothesis P_create :
  forall v, preserves P (createIncidentFromViolation v).

Lemma executePlaybook_preserves :
  forall fuel key pb v, preserves P (executePlaybook fuel key pb v).
Proof.
  intros fuel key pb v w H.
  pose proof (run_from_first_preserves P P_ticks P_uuid P_console P_modify
                P_create fuel pb v w H) as Hrun.
  unfold executePlaybook, try_catch, run_playbook. unfold bind at 1.
  destruct (run_from_first fuel pb v w) as [[i|e|] w1];
    cbn [snd] in Hrun.
  - unfold bind, newDate, push_history, assign_lastRun, ret. world_simpl.
    destruct (map_get String.eqb key (playbooks w1)); cbn [snd];
      auto using P_ticks, P_history, P_playbooks.
  - rewrite run_failed_result. cbn [snd]. auto using P_ticks, P_history, P_console.
  - exact Hrun.
Qed.

Lemma executePlaybooks_loop_preserves :
  forall fuel v keys acc, preserves P (executePlaybooks_loop fuel v keys acc).
Proof.
  intros fuel v keys. induction keys as [|key rest IH]; intros acc w H;
    cbn [executePlaybooks_loop]; [exact H|].
  destruct (map_get String.eqb key (playbooks w)) as [pb|]; [|apply IH; exact H].
  destruct (negb (Playbook.enabled pb)); [apply IH; exact H|].
  destruct (shouldTrigger pb v) as [[|]|e|];
    [|apply IH; exact H|exact H|exact H].
  apply preserves_bind; [apply executePlaybook_preserves|intro; apply IH|exact H].
Qed.
End EnginePreservation.

Lemma registered_same_incidents :
  forall i vid w w',
    uuid_next w <= uuid_next w' -> incidents w' = incidents w ->
    registered i vid w -> registered i vid w'.
Proof.
  intros i vid w w' Hn Hi (Hlt & inc & Hget & Hrest).
  split; [lia|]. exists inc. unfold getIncident in *. rewrite Hi. auto.
Qed.

Lemma executePlaybook_registered :
  forall i vid fuel key pb v,
    preserves (registered i vid) (executePlaybook fuel key pb v).
Proof.
  intros i vid fuel key pb v. apply executePlaybook_preserves.
  - intros w n H. apply (registered_same_incidents i vid w); auto.
  - intros w H. apply (registered_same_incidents i vid w); simpl; auto.
  - intros w c H. apply (registered_same_incidents i vid w); auto.
  - intros w h H. apply (registered_same_incidents i vid w); auto.
  - intros w p H. apply (registered_same_incidents i vid w); auto.
  - apply registered_modify.
  - apply registered_create.
Qed.

Lemma untouched_modify :
  forall n wb ref f,
    n <= ref -> preserves (untouched_below n wb) (modify_incident ref f).
Proof.
  intros n wb ref f Hle w [Hn Hk]. unfold modify_incident.
  destruct (map_get Nat.eqb ref (incidents w)); [|split; assumption].
  split; [exact Hn|]. intros id Hid. unfold getIncident. cbn [snd]. world_simpl.
  rewrite (map_get_set_other _ _ _ Nat_eqb_eq') by lia. apply Hk. exact Hid.
Qed.

Lemma untouched_create :
  forall n wb v,
    preserves (untouched_below n wb) (createIncidentFromViolation v).
Proof.
  intros n wb v w [Hn Hk].
  unfold untouched_below, incidents_kept, getIncident, createIncidentFromViolation,
    bind, uuidv4, newDate in *. simpl.
  split; [lia|]. intros id Hid.
  rewrite (map_get_set_other _ _ _ Nat_eqb_eq') by lia. apply Hk. exact Hid.
Qed.

Lemma run_step_untouched :
  forall n wb step v inc,
    (forall i, inc = Some i -> n <= i) ->
    preserves (untouched_below n wb) (run_step step v inc).
Proof.
  intros n wb step v inc Hinc.
  apply (run_step_preserves_bound (untouched_below n wb) (fun i => n <= i)).
  - intros w k [Hn Hk]. split; assumption.
  - intros w [Hn Hk]. split; [simpl; lia|exact Hk].
  - intros w c [Hn Hk]. split; assumption.
  - intros ref f Hle _. apply untouched_modify. exact Hle.
  - apply untouched_create.
  - exact Hinc.
Qed.

Lemma run_step_registered :
  forall i vid step v inc, preserves (registered i vid) (run_step step v inc).
Proof.
  intros i vid. apply run_step_preserves.
  - intros w n (Hlt & H). split; [exact Hlt|exact H].
  - intros w (Hlt & H). split; [simpl; lia|exact H].
  - intros w c (Hlt & H). split; [exact Hlt|exact H].
  - apply registered_modify.
  - apply registered_create.
Qed.

Lemma run_step_bound :
  forall step v inc w next w1,
    run_step step v inc w = (Ok next, w1) ->
    (snd next = Some (uuid_next w) /\ w1 = snd (createIncidentFromViolation v w)) \/
    snd next = inc.
Proof.
  intros step v inc w next w1 H.
  destruct (PlaybookStep.type step) eqn:Hty;
    try (right; unfold run_step, creates_incident, bind in H; rewrite Hty in H;
         destruct (executeStep step v inc w) as [[r|e|] w2]; try discriminate H;
         injection H as <- _; reflexivity).
  destruct (PlaybookStep.config step) as [cfg|] eqn:Hcfg.
  - destruct (StepConfig.action cfg) as [[]|] eqn:Hact;
      try (right; unfold run_step, creates_incident, step_config, bind in H;
           rewrite Hty, Hcfg in H;
           destruct (executeStep step v inc w) as [[r|e|] w2]; try discriminate H;
           unfold ret in H; rewrite Hact in H;
           injection H as <- _; reflexivity).
    left.
    assert (Hc : is_create_incident step)
      by (split; [exact Hty|exists cfg; split; assumption]).
    destruct (run_step_create_incident step v inc w Hc) as [_ Hrs].
    rewrite Hrs in H. injection H as <- <-. split; reflexivity.
  - unfold run_step, bind, executeStep in H. rewrite Hty in H.
    unfold executeAction, step_config, bind, throw in H. rewrite Hcfg in H.
    discriminate H.
Qed.

Lemma run_steps_frame :
  forall n wb v fuel pb cur inc w,
    untouched_below n wb w ->
    fresh_bound n (Violation.id v) inc w ->
    untouched_below n wb (snd (run_steps fuel pb v cur inc w)) /\
    (forall r, fst (run_steps fuel pb v cur inc w) = Ok r ->
               fresh_bound n (Violation.id v) r (snd (run_steps fuel pb v cur inc w))).
Proof.
  intros n wb v fuel. induction fuel as [|fuel IH]; intros pb cur inc w Hu Hb;
    cbn [run_steps]; destruct (current_step pb cur) as [step|].
  - split; [exact Hu|]. intros r Hr. discriminate Hr.
  - split; [exact Hu|]. intros r Hr. injection Hr as <-. exact Hb.
  - assert (Hle : forall i, inc = Some i -> n <= i)
      by (intros i Hi; apply (Hb i Hi)).
    pose proof (run_step_untouched n wb step v inc Hle w Hu) as Hu1.
    unfold bind.
    destruct (run_step step v inc w) as [[next|e|] w1] eqn:Hs; cbn [snd] in Hu1.
    + apply IH; [exact Hu1|].
      intros i Hi.
      destruct (run_step_bound _ _ _ _ _ _ Hs) as [[Hnew Hw1]|Hold].
      * rewrite Hnew in Hi. injection Hi as <-.
        destruct Hu as [Hn _]. split; [exact Hn|].
        rewrite Hw1. apply createIncidentFromViolation_registers.
      * rewrite Hold in Hi. destruct (Hb i Hi) as [Hni Hreg].
        split; [exact Hni|].
        pose proof (run_step_registered i (Violation.id v) step v inc w Hreg) as Hr.
        rewrite Hs in Hr. exact Hr.
    + split; [exact Hu1|]. intros r Hr. discriminate Hr.
    + split; [exact Hu1|]. intros r Hr. discriminate Hr.
  - split; [exact Hu|]. intros r Hr. injection Hr as <-. exact Hb.
Qed.

Lemma run_from_first_frame :
  forall n wb v fuel pb w,
    untouched_below n wb w ->
    untouched_below n wb (snd (run_from_first fuel pb v w)) /\
    (forall r, fst (run_from_first fuel pb v w) = Ok r ->
               fresh_bound n (Violation.id v) r (snd (run_from_first fuel pb v w))).
Proof.
  intros n wb v fuel pb w Hu. unfold run_from_first.
  destruct (Playbook.steps pb).
  - apply run_steps_frame; [exact Hu|]. intros i Hi. discriminate Hi.
  - split; [exact Hu|]. intros r Hr. discriminate Hr.
Qed.

Lemma untouched_same_incidents :
  forall n wb w w',
    uuid_next w <= uuid_next w' -> incidents w' = incidents w ->
    untouched_below n wb w -> untouched_below n wb w'.
Proof.
  intros n wb w w' Hn Hi [Hle Hk]. split; [lia|].
  intros id Hid. unfold getIncident. rewrite Hi. apply Hk. exact Hid.
Qed.

Lemma executePlaybook_frame :
  forall n wb fuel key pb v w,
    untouched_below n wb w ->
    untouched_below n wb (snd (executePlaybook fuel key pb v w)) /\
    (forall i, fst (executePlaybook fuel key pb v w) = Ok (Some i) ->
               n <= i /\
               registered i (Violation.id v)
                          (snd (executePlaybook fuel key pb v w))).
Proof.
  intros n wb fuel key pb v w Hu.
  destruct (run_from_first_frame n wb v fuel pb w Hu) as [Hu1 Hb1].
  destruct (executePlaybook fuel key pb v w) as [o w2] eqn:Hex. cbn [fst snd].
  unfold executePlaybook, try_catch, run_playbook in Hex. unfold bind at 1 in Hex.
  destruct (run_from_first fuel pb v w) as [[r|e|] w1];
    cbn [fst snd] in Hu1, Hb1.
  - specialize (Hb1 r eq_refl).
    unfold bind, newDate, push_history, assign_lastRun, ret in Hex. world_simpl.
    destruct (map_get String.eqb key (playbooks w1)); injection Hex as <- <-;
      (split;
       [ apply (untouched_same_incidents n wb w1); simpl; auto
       | intros i Hi; injection Hi as Hi; destruct (Hb1 i Hi) as [Hni Hreg];
         (split; [exact Hni
                 |apply (registered_same_incidents i _ w1); simpl; auto]) ]).
  - rewrite run_failed_result in Hex. injection Hex as <- <-. split.
    + apply (untouched_same_incidents n wb w1); simpl; auto.
    + intros i Hi. discriminate Hi.
  - injection Hex as <- <-. split; [exact Hu1|]. intros i Hi. discriminate Hi.
Qed.

Lemma executePlaybooks_loop_frame :
  forall n0 w0 fuel v keys acc w,
    untouched_below n0 w0 w ->
    (forall i, In i acc -> n0 <= i /\ registered i (Violation.id v) w) ->
    NoDup acc ->
    untouched_below n0 w0 (snd (executePlaybooks_loop fuel v keys acc w)) /\
    (forall r,
        fst (executePlaybooks_loop fuel v keys acc w) = Ok r ->
        NoDup r /\
        forall i, In i r ->
                  n0 <= i /\
                  registered i (Violation.id v)
                             (snd (executePlaybooks_loop fuel v keys acc w))).
Proof.
  intros n0 w0 fuel v keys. induction keys as [|key rest IH];
    intros acc w Hu Hacc Hnd; cbn [executePlaybooks_loop].
  - split; [exact Hu|]. intros r Hr. injection Hr as <-. split; assumption.
  - destruct (map_get String.eqb key (playbooks w)) as [pb|]; [|apply IH; assumption].
    destruct (negb (Playbook.enabled pb)); [apply IH; assumption|].
    destruct (shouldTrigger pb v) as [[|]|e|];
      [|apply IH; assumption
       |split; [exact Hu|intros r Hr; discriminate Hr]
       |split; [exact Hu|intros r Hr; discriminate Hr]].
    assert (Hself : untouched_below (uuid_next w) w w)
      by (split; [lia|intros id _; reflexivity]).
    destruct (executePlaybook_frame (uuid_next w) w fuel key pb v w Hself)
      as [[Hn1 Hk1] Hres].
    assert (Hacc1 : forall i, In i acc ->
                      n0 <= i /\
                      registered i (Violation.id v)
                                 (snd (executePlaybook fuel key pb v w))).
    { intros i Hi. destruct (Hacc i Hi) as [Hni Hreg]. split; [exact Hni|].
      apply executePlaybook_registered. exact Hreg. }
    assert (Hu1 : untouched_below n0 w0 (snd (executePlaybook fuel key pb v w))).
    { destruct Hu as [Hn Hk]. split; [lia|].
      intros id Hid. rewrite Hk1 by lia. apply Hk. exact Hid. }
    unfold bind.
    destruct (executePlaybook fuel key pb v w) as [[[i|]|e|] w1];
      cbn [fst snd] in *.
    + apply IH; [exact Hu1| |].
      * intros j Hj. apply in_app_or in Hj. destruct Hj as [Hj|[Hj|[]]];
          [apply Hacc1; exact Hj|]. subst j.
        destruct (Hres i eq_refl) as [Hle Hreg]. destruct Hu as [Hn _].
        split; [lia|exact Hreg].
      * apply NoDup_app; [exact Hnd|repeat constructor; simpl; tauto|].
        intros j Hj [Hij|[]]. subst j. destruct (Hacc i Hj) as [_ (Hlt & _)].
        destruct (Hres i eq_refl) as [Hle _]. lia.
    + apply IH; assumption.
    + split; [exact Hu1|]. intros r Hr. discriminate Hr.
    + split; [exact Hu1|]. intros r Hr. discriminate Hr.
Qed.

Lemma executePlaybooks_loop_frame_at :
  forall n0 w0 fuel v keys acc w o w',
    untouched_below n0 w0 w ->
    (forall i, In i acc -> n0 <= i /\ registered i (Violation.id v) w) ->
    NoDup acc ->
    executePlaybooks_loop fuel v keys acc w = (o, w') ->
    untouched_below n0 w0 w' /\
    (forall r, o = Ok r ->
               NoDup r /\
               forall i, In i r -> n0 <= i /\ registered i (Violation.id v) w').
Proof.
  intros n0 w0 fuel v keys acc w o w' Hu Hacc Hnd H.
  pose proof (executePlaybooks_loop_frame n0 w0 fuel v keys acc w Hu Hacc Hnd) as X.
  rewrite H in X. exact X.
Qed.

(** X10. The incidents [executePlaybooks] returns are pairwise distinct,
    were created during the call, are registered in the incident store
    ([getIncident] and [getAllIncidents] return them), and each records the
    violation as its only [violationIds] entry. *)
Theorem executePlaybooks_returns_created :
  forall (fuel : nat) (v : Violation.t) (w : World) (r : list uuid) (w' : World),
    executePlaybooks fuel v w = (Ok r, w') ->
    NoDup r /\
    forall i, In i r ->
      uuid_next w <= i /\ i < uuid_next w' /\
      exists inc,
        getIncident i w' = Some inc /\
        In inc (getAllIncidents w') /\
        Incident.id inc = i /\
        Incident.violationIds inc = [Violation.id v].
Proof.
  intros fuel v w r w' H. unfold executePlaybooks in H.
  assert (Hself : untouched_below (uuid_next w) w w)
    by (split; [lia|intros id _; reflexivity]).
  assert (Hacc : forall i, In i (@nil uuid) ->
                   uuid_next w <= i /\ registered i (Violation.id v) w)
    by (intros i []).
  destruct (executePlaybooks_loop_frame_at (uuid_next w) w fuel v _ _ _ _ _
              Hself Hacc (NoDup_nil uuid) H) as [_ Hres].
  destruct (Hres r eq_refl) as [Hnd Hall]. split; [exact Hnd|].
  intros i Hi. destruct (Hall i Hi) as (Hle & Hlt & inc & Hget & Hid & Hv).
  split; [exact Hle|]. split; [exact Hlt|]. exists inc.
  split; [exact Hget|]. split; [|split; assumption].
  apply (map_get_In_values _ _ Nat.eqb i). exact Hget.
Qed.

Lemma executePlaybooks_returns_created_witness :
  NoDup [0; 2] /\
  forall i, In i [0; 2] ->
    exists inc,
      getIncident i (snd (executePlaybooks 10 (a_violation high ip)
                                           (new_SOARAutomation ticking_clock))) =
        Some inc /\
      Incident.violationIds inc = [7].
Proof.
  destruct (executePlaybooks_returns_created 10 (a_violation high ip)
              (new_SOARAutomation ticking_clock) [0; 2]
              (snd (executePlaybooks 10 (a_violation high ip)
                                     (new_SOARAutomation ticking_clock))))
    as [Hnd Hall].
  - vm_compute. reflexivity.
  - split; [exact Hnd|]. intros i Hi.
    destruct (Hall i Hi) as (_ & _ & inc & Hget & _ & _ & Hv).
    exists inc. split; [exact Hget|exact Hv].
Defined.

(** X11. [executePlaybooks] never modifies or removes an incident that was
    in the store when it was called: whatever the outcome, [getIncident]
    returns for it what it returned before.  The violations held by the
    detector are not touched either. *)
Theorem executePlaybooks_keeps_earlier_incidents :
  forall (fuel : nat) (v : Violation.t) (w : World),
    incidents_kept (uuid_next w) w (snd (executePlaybooks fuel v w)) /\
    violations (snd (executePlaybooks fuel v w)) = violations w.
Proof.
  intros fuel v w. split.
  - assert (Hself : untouched_below (uuid_next w) w w)
      by (split; [lia|intros id _; reflexivity]).
    assert (Hacc : forall i, In i (@nil uuid) ->
                     uuid_next w <= i /\ registered i (Violation.id v) w)
      by (intros i []).
    destruct (executePlaybooks fuel v w) as [o w'] eqn:H. cbn [snd].
    unfold executePlaybooks in H.
    destruct (executePlaybooks_loop_frame_at (uuid_next w) w fuel v _ _ _ _ _
                Hself Hacc (NoDup_nil uuid) H) as [[_ Hk] _].
    exact Hk.
  - unfold executePlaybooks.
    apply (executePlaybooks_loop_preserves
             (fun w' => violations w' = violations w)); auto.
    + intros ref f _ w' H. unfold modify_incident.
      destruct (map_get Nat.eqb ref (incidents w')); exact H.
    + intros v' w' H. exact H.
Qed.

(** ** The engine as constructed *)

(** X2. A newly constructed engine, whatever the clock, answers a violation
    by its severity alone.  A critical one runs [critical-alert] and
    [cert-expiry-alert]: two incidents, the first escalated to [P1] with the
    timeline [created, escalation], and one slack notification.  A high one
    runs [high-severity-response] and [cert-expiry-alert]: two incidents and
    no output at all, since the first step of these two playbooks names no
    successor and their notification, delay and condition steps are never
    reached.  Any other severity runs nothing and changes nothing. *)
Theorem default_playbooks_response :
  forall (k : nat) (c : nat -> Date) (v : Violation.t),
    let w := new_SOARAutomation c in
    let res := executePlaybooks (4 + k) v w in
    match Violation.severity v with
    | critical =>
        fst res = Ok [0; 3] /\
        map ExecutionEntry.playbookId (executionHistory (snd res)) =
          ["critical-alert"; "cert-expiry-alert"] /\
        map ExecutionEntry.result (executionHistory (snd res)) =
          [success; success] /\
        List.length (console (snd res)) = 1 /\
        option_map Incident.priority (getIncident 0 (snd res)) = Some P1 /\
        option_map (fun i => map IncidentEvent.type (Incident.timeline i))
                   (getIncident 0 (snd res)) = Some [created; escalation] /\
        option_map (fun i => map IncidentEvent.type (Incident.timeline i))
                   (getIncident 3 (snd res)) = Some [created]
    | high =>
        fst res = Ok [0; 2] /\
        map ExecutionEntry.playbookId (executionHistory (snd res)) =
          ["high-severity-response"; "cert-expiry-alert"] /\
        map ExecutionEntry.result (executionHistory (snd res)) =
          [success; success] /\
        console (snd res) = [] /\
        option_map Incident.priority (getIncident 0 (snd res)) = Some P2 /\
        option_map (fun i => map IncidentEvent.type (Incident.timeline i))
                   (getIncident 0 (snd res)) = Some [created]
    | _ => res = (Ok [], w)
    end.
Proof.
  intros k c v. destruct v as [id pid pname req ctl aid aty aident sev st ti de da ua ra ev re].
  cbn [Violation.severity]. destruct sev; vm_compute; repeat split; reflexivity.
Qed.

(** ** Statistics of the engine *)

Lemma filter_partition_length :
  forall (A : Type) (f : A -> bool) (l : list A),
    List.length (filter (fun x => negb (f x)) l) + List.length (filter f l) =
    List.length l.
Proof.
  intros A f l. induction l as [|x l IH]; simpl; [reflexivity|].
  destruct (f x); simpl; lia.
Qed.

Lemma filter_length_bound :
  forall (A : Type) (f : A -> bool) (l : list A),
    List.length (filter f l) <= List.length l.
Proof.
  intros A f l. induction l as [|x l IH]; simpl; [lia|].
  destruct (f x); simpl; lia.
Qed.

(** X12. In the statistics of the engine every incident is counted once, as
    open or as closed: [openIncidents + closedIncidents = totalIncidents];
    [closedIncidents] is the number of incidents
    [getIncidentsByStatus("closed")] returns; there are no more enabled
    playbooks than playbooks; and [recentExecutions] is the size of the
    whole ledger, of which [getExecutionHistory()] returns the last ten at
    most. *)
Theorem SOAR_getStats_consistent :
  forall (w : World),
    SOARStats.openIncidents (SOARAutomation.getStats w) +
    SOARStats.closedIncidents (SOARAutomation.getStats w) =
      SOARStats.totalIncidents (SOARAutomation.getStats w) /\
    SOARStats.totalIncidents (SOARAutomation.getStats w) =
      List.length (getAllIncidents w) /\
    SOARStats.closedIncidents (SOARAutomation.getStats w) =
      List.length (getIncidentsByStatus inc_closed w) /\
    SOARStats.enabledPlaybooks (SOARAutomation.getStats w) <=
      SOARStats.totalPlaybooks (SOARAutomation.getStats w) /\
    List.length (getExecutionHistory None w) =
      Nat.min 10 (SOARStats.recentExecutions (SOARAutomation.getStats w)).
Proof.
  intro w. unfold SOARAutomation.getStats, getIncidentsByStatus. cbv zeta.
  cbn [SOARStats.openIncidents SOARStats.closedIncidents SOARStats.totalIncidents
       SOARStats.enabledPlaybooks SOARStats.totalPlaybooks
       SOARStats.recentExecutions].
  split; [apply filter_partition_length|]. split; [reflexivity|].
  split; [reflexivity|]. split.
  - eapply Nat.le_trans; [apply filter_length_bound|].
    unfold map_values. rewrite length_map. lia.
  - pose proof (slice_from_last_length _ 10%Z (executionHistory w)) as H.
    unfold getExecutionHistory. apply Nat2Z.inj. rewrite H by lia. lia.
Qed.

(** ** Detection *)

Lemma starts_with_prefix :
  forall sub s, starts_with sub s = true <-> exists post, s = (sub ++ post)%string.
Proof.
  induction sub as [|a sub IH]; intro s; simpl.
  - split; [intros _; exists s; reflexivity|reflexivity].
  - destruct s as [|b s].
    + split; [discriminate|]. intros [post H]. discriminate H.
    + rewrite andb_true_iff, IH. split.
      * intros [Hab [post ->]]. apply Ascii.eqb_eq in Hab. subst b.
        exists post. reflexivity.
      * intros [post H]. injection H as -> ->. split.
        -- apply Ascii.eqb_refl.
        -- exists post. reflexivity.
Qed.

Lemma String_includes_substring :
  forall s sub, String_includes s sub = true <-> substring sub s.
Proof.
  unfold substring. induction s as [|c s IH]; intro sub.
  - simpl. rewrite orb_false_r, starts_with_prefix. split.
    + intros [post H]. exists EmptyString, post. exact H.
    + intros [pre [post H]]. destruct pre as [|a pre]; [|discriminate H].
      exists post. exact H.
  - cbn [String_includes]. rewrite orb_true_iff, starts_with_prefix, IH. split.
    + intros [[post H]|[pre [post H]]].
      * exists EmptyString, post. exact H.
      * exists (String c pre), post. simpl. rewrite H. reflexivity.
    + intros [pre [post H]]. destruct pre as [|a pre].
      * left. exists post. exact H.
      * right. simpl in H. injection H as _ H. exists pre, post. exact H.
Qed.

Lemma txt_marker_publishes :
  forall marker domainName mon d,
    getDomainInfo domainName mon = Some d ->
    existsb (fun r => String_includes (DNSRecord.value r) marker)
            (filter (fun r => DNSType_eqb (DNSRecord.type r) dns_TXT)
                    (DomainRecord.dnsRecords d)) = true <->
    publishes marker domainName mon.
Proof.
  intros marker domainName mon d Hd. unfold publishes. rewrite existsb_exists.
  split.
  - intros [r [Hin Hinc]]. apply filter_In in Hin. destruct Hin as [Hin Ht].
    exists d, r. repeat split; try assumption.
    + destruct (DNSRecord.type r); simpl in Ht; congruence.
    + apply String_includes_substring. exact Hinc.
  - intros [d' [r [Hd' [Hin [Ht Hsub]]]]].
    assert (d' = d) by congruence. subst d'.
    exists r. split.
    + apply filter_In. split; [exact Hin|]. rewrite Ht. reflexivity.
    + apply String_includes_substring. exact Hsub.
Qed.

Lemma not_cached_publishes :
  forall marker domainName mon,
    getDomainInfo domainName mon = None -> ~ publishes marker domainName mon.
Proof.
  intros marker domainName mon Hn [d [r [Hd _]]]. congruence.
Qed.

Lemma checkDomainSecurity_hasSPF :
  forall domainName mon,
    DomainSecurity.hasSPF (checkDomainSecurity domainName mon) = true <->
    publishes "v=spf1" domainName mon.
Proof.
  intros domainName mon. unfold checkDomainSecurity.
  destruct (map_get String.eqb domainName (InfrastructureMonitor.domainCache mon))
    as [d|] eqn:Hd.
  - cbn [DomainSecurity.hasSPF]. apply txt_marker_publishes. exact Hd.
  - cbn [DomainSecurity.hasSPF]. split; [discriminate|].
    intro H. exfalso. exact (not_cached_publishes _ _ _ Hd H).
Qed.

Lemma checkDomainSecurity_hasDMARC :
  forall domainName mon,
    DomainSecurity.hasDMARC (checkDomainSecurity domainName mon) = true <->
    publishes "v=DMARC1" domainName mon.
Proof.
  intros domainName mon. unfold checkDomainSecurity.
  destruct (map_get String.eqb domainName (InfrastructureMonitor.domainCache mon))
    as [d|] eqn:Hd.
  - cbn [DomainSecurity.hasDMARC]. apply txt_marker_publishes. exact Hd.
  - cbn [DomainSecurity.hasDMARC]. split; [discriminate|].
    intro H. exfalso. exact (not_cached_publishes _ _ _ Hd H).
Qed.

Lemma checkDomainSecurity_hasDKIM :
  forall domainName mon,
    DomainSecurity.hasDKIM (checkDomainSecurity domainName mon) = true <->
    publishes "v=DKIM1" domainName mon.
Proof.
  intros domainName mon. unfold checkDomainSecurity.
  destruct (map_get String.eqb domainName (InfrastructureMonitor.domainCache mon))
    as [d|] eqn:Hd.
  - cbn [DomainSecurity.hasDKIM]. apply txt_marker_publishes. exact Hd.
  - cbn [DomainSecurity.hasDKIM]. split; [discriminate|].
    intro H. exfalso. exact (not_cached_publishes _ _ _ Hd H).
Qed.

Lemma issued_nil : forall w, issued [] w w.
Proof.
  intro w. unfold issued. simpl. repeat split; try lia. constructor.
Qed.

Lemma seq_from :
  forall n len, seq n len = map (fun i => n + i) (seq 0 len).
Proof.
  induction n as [|n IH]; intro len.
  - simpl. rewrite map_id. reflexivity.
  - rewrite <- seq_shift, IH, map_map. reflexivity.
Qed.

Ltac run_checks :=
  unfold new_violation, expiring_violation, invalid_violation, bind, ret,
         uuidv4, newDate; cbv beta iota.

Ltac issued_tac :=
  unfold issued;
  cbn [map seq List.length Violation.id Violation.status app];
  world_simpl; repeat split; try reflexivity; try lia;
  try (f_equal; try lia; f_equal; lia);
  repeat constructor.

Lemma checkIP_issued :
  forall (JSON_stringify : forall A : Type, A -> string) ipRecord policies w,
    exists vs w',
      checkIP JSON_stringify ipRecord policies w = (Ok vs, w') /\
      issued vs w w' /\ List.length vs <= 2.
Proof.
  intros J ipRecord policies w. unfold checkIP.
  destruct (Reputation_eqb (IPRecord.reputation ipRecord) rep_malicious);
    destruct (IPRecord.isTor ipRecord); run_checks;
    do 2 eexists; (split; [reflexivity|]); (split; [|simpl; lia]);
    issued_tac.
Qed.

Lemma checkDomain_issued :
  forall (JSON_stringify : forall A : Type, A -> string) mon domainRecord
         policies w,
    exists vs w',
      checkDomain JSON_stringify mon domainRecord policies w = (Ok vs, w') /\
      issued vs w w' /\ List.length vs <= 2.
Proof.
  intros J mon domainRecord policies w. unfold checkDomain.
  destruct (DomainSecurity.hasSPF
              (checkDomainSecurity (DomainRecord.domain domainRecord) mon));
    destruct (DomainSecurity.hasDMARC
                (checkDomainSecurity (DomainRecord.domain domainRecord) mon));
    cbn [negb]; run_checks;
    do 2 eexists; (split; [reflexivity|]); (split; [|simpl; lia]);
    issued_tac.
Qed.

Lemma checkCertificate_issued :
  forall Number_toString JSON_stringify cert policies w,
    exists vs w',
      checkCertificate Number_toString JSON_stringify cert policies w =
        (Ok vs, w') /\
      issued vs w w' /\ List.length vs <= 2.
Proof.
  intros N J cert policies w. unfold checkCertificate.
  destruct (ExpiryCheck.isExpiring (checkCertificateExpiry cert));
    destruct (CertificateInfo.isValid cert);
    cbn [negb]; run_checks;
    do 2 eexists; (split; [reflexivity|]); (split; [|simpl; lia]);
    issued_tac.
Qed.

(** X13. What [checkIP] reports.  An address whose reputation is
    [malicious] yields a [critical] finding titled "Malicious IP Address
    Detected"; an address flagged as a Tor exit node yields a [high] finding
    titled "Tor Exit Node Detected", after the first one when both hold.
    Nothing else is reported: an address that is neither (a [suspicious]
    one, a proxy, a VPN endpoint) yields no finding and leaves the run time
    as it was.  Every finding is [open] and names the address as its
    asset. *)
Theorem checkIP_findings :
  forall (JSON_stringify : forall A : Type, A -> string)
         (ipRecord : IPRecord.t) (policies : list Policy.t) (w : World),
    exists vs w',
      checkIP JSON_stringify ipRecord policies w = (Ok vs, w') /\
      map (fun v => (Violation.severity v, Violation.title v)) vs =
        ((if Reputation_eqb (IPRecord.reputation ipRecord) rep_malicious
          then [(critical, malicious_ip_title)] else []) ++
         (if IPRecord.isTor ipRecord then [(high, tor_exit_title)] else []))%list /\
      Forall (fun v => Violation.status v = open /\
                       Violation.assetType v = ip /\
                       Violation.assetIdentifier v = IPRecord.ip ipRecord) vs /\
      (IPRecord.reputation ipRecord <> rep_malicious ->
       IPRecord.isTor ipRecord = false -> vs = [] /\ w' = w).
Proof.
  intros J ipRecord policies w. unfold checkIP.
  destruct (Reputation_eqb (IPRecord.reputation ipRecord) rep_malicious) eqn:Hr;
    destruct (IPRecord.isTor ipRecord) eqn:Ht; run_checks;
    do 2 eexists; (split; [reflexivity|]); (split; [reflexivity|]);
    (split; [repeat constructor|]); intros Hne Htor; try discriminate Htor;
    try (split; reflexivity).
  exfalso. apply Hne.
  destruct (IPRecord.reputation ipRecord); simpl in Hr; congruence.
Qed.

(** X14. What [checkDomain] reports.  The findings depend on the TXT
    records cached for the record's domain name: "Missing SPF Record" is
    reported exactly when no cached TXT record has [v=spf1] as a substring
    (so also when the name is not in the cache), "Missing DMARC Record"
    exactly when none has [v=DMARC1].  Both are of severity [high] and name
    the domain.  Nothing else is reported: for a cached domain without a
    [v=DKIM1] record, [checkDomainSecurity] lists "Missing DKIM record"
    among its issues, and no violation is made of it. *)
Theorem checkDomain_findings :
  forall (JSON_stringify : forall A : Type, A -> string)
         (mon : InfrastructureMonitor.t) (domainRecord : DomainRecord.t)
         (policies : list Policy.t) (w : World),
    let name := DomainRecord.domain domainRecord in
    exists vs w',
      checkDomain JSON_stringify mon domainRecord policies w = (Ok vs, w') /\
      (In missing_spf_title (map Violation.title vs) <->
       ~ publishes "v=spf1" name mon) /\
      (In missing_dmarc_title (map Violation.title vs) <->
       ~ publishes "v=DMARC1" name mon) /\
      Forall (fun v => (Violation.title v = missing_spf_title \/
                        Violation.title v = missing_dmarc_title) /\
                       Violation.severity v = high /\
                       Violation.status v = open /\
                       Violation.assetType v = domain /\
                       Violation.assetIdentifier v = name) vs /\
      (getDomainInfo name mon <> None -> ~ publishes "v=DKIM1" name mon ->
       In "Missing DKIM record"
          (DomainSecurity.issues (checkDomainSecurity name mon))).
Proof.
  intros J mon domainRecord policies w name. unfold checkDomain. fold name.
  pose proof (checkDomainSecurity_hasSPF name mon) as Hspf.
  pose proof (checkDomainSecurity_hasDMARC name mon) as Hdmarc.
  pose proof (checkDomainSecurity_hasDKIM name mon) as Hdkim.
  assert (Hissue : getDomainInfo name mon <> None ->
                   ~ publishes "v=DKIM1" name mon ->
                   In "Missing DKIM record"
                      (DomainSecurity.issues (checkDomainSecurity name mon))).
  { intros Hc Hno.
    assert (Hk : DomainSecurity.hasDKIM (checkDomainSecurity name mon) = false).
    { destruct (DomainSecurity.hasDKIM (checkDomainSecurity name mon));
        [|reflexivity]. exfalso. apply Hno, Hdkim. reflexivity. }
    unfold getDomainInfo in Hc. unfold checkDomainSecurity in *.
    destruct (map_get String.eqb name (InfrastructureMonitor.domainCache mon));
      [|congruence].
    cbn [DomainSecurity.issues DomainSecurity.hasDKIM] in *.
    rewrite Hk. rewrite !in_app_iff. right. right. left. reflexivity. }
  destruct (DomainSecurity.hasSPF (checkDomainSecurity name mon)) eqn:Es;
    destruct (DomainSecurity.hasDMARC (checkDomainSecurity name mon)) eqn:Ed;
    cbn [negb]; run_checks;
    do 2 eexists; (split; [reflexivity|]);
    cbn [map app Violation.title];
    (split; [|split; [|split; [|exact Hissue]]]).
  all: try (repeat constructor; fail).
  all: unfold missing_spf_title, missing_dmarc_title; simpl In.
  all: split.
  all: try (intros [H|[H|H]]; try discriminate H; try contradiction).
  all: try (intros [H|H]; try discriminate H; try contradiction).
  all: try (intro H; contradiction).
  all: try (intro H; exfalso; apply H; first [apply Hspf | apply Hdmarc];
            reflexivity).
  all: try (intro Hp; first [apply Hspf in Hp | apply Hdmarc in Hp];
            discriminate Hp).
  all: try (intros _; auto; fail).
Qed.

(** ** Storing what was detected *)

Lemma fold_set_get_other :
  forall (vs : list Violation.t) m id,
    ~ In id (map Violation.id vs) ->
    map_get Nat.eqb id
      (fold_left (fun m v => map_set Nat.eqb (Violation.id v) v m) vs m) =
    map_get Nat.eqb id m.
Proof.
  induction vs as [|a r IH]; intros m id Hn; simpl; [reflexivity|].
  simpl in Hn. rewrite IH by tauto.
  apply (map_get_set_other _ _ _ Nat_eqb_eq'). intro E. apply Hn. left.
  symmetry. exact E.
Qed.

Lemma fold_set_get_in :
  forall (vs : list Violation.t) m v,
    NoDup (map Violation.id vs) -> In v vs ->
    map_get Nat.eqb (Violation.id v)
      (fold_left (fun m v => map_set Nat.eqb (Violation.id v) v m) vs m) =
    Some v.
Proof.
  induction vs as [|a r IH]; intros m v Hnd Hin; simpl; [contradiction|].
  simpl in Hnd. inversion Hnd as [|x l Hnot Hnd']; subst.
  destruct Hin as [->|Hin].
  - rewrite fold_set_get_other by exact Hnot.
    apply (map_get_set_same _ _ _ Nat_eqb_eq').
  - apply IH; assumption.
Qed.

Lemma fold_set_keys :
  forall (vs : list Violation.t) (m : jsmap uuid Violation.t),
    NoDup (map Violation.id vs) ->
    (forall id, In id (map Violation.id vs) -> ~ In id (map_keys m)) ->
    map_keys (fold_left (fun m v => map_set Nat.eqb (Violation.id v) v m) vs m) =
    (map_keys m ++ map Violation.id vs)%list.
Proof.
  induction vs as [|a r IH]; intros m Hnd Hfresh; simpl.
  - rewrite app_nil_r. reflexivity.
  - simpl in Hnd. inversion Hnd as [|x l Hnot Hnd']; subst.
    assert (Ha : map_get Nat.eqb (Violation.id a) m = None).
    { apply (map_get_none_keys _ _ _ Nat_eqb_eq'). apply Hfresh. left.
      reflexivity. }
    rewrite IH.
    + rewrite (map_keys_set _ _ _ Nat_eqb_eq'), Ha. simpl.
      rewrite <- app_assoc. reflexivity.
    + exact Hnd'.
    + intros id Hin. rewrite (map_keys_set _ _ _ Nat_eqb_eq'), Ha. simpl.
      rewrite in_app_iff. intros [H|[H|[]]].
      * apply (Hfresh id); [right; exact Hin|exact H].
      * subst id. contradiction.
Qed.

Lemma fresh_ids_NoDup :
  forall n len, NoDup (map (fun i => n + 2 * i) (seq 0 len)).
Proof.
  intros n len. generalize 0 at 2 as a.
  induction len as [|len IH]; intro a; simpl.
  - constructor.
  - constructor; [|apply IH]. intro H. apply in_map_iff in H.
    destruct H as [i [Hi Hin]]. apply in_seq in Hin. lia.
Qed.

Lemma fresh_ids_range :
  forall n len id,
    In id (map (fun i => n + 2 * i) (seq 0 len)) -> n <= id < n + 2 * len.
Proof.
  intros n len id H. apply in_map_iff in H. destruct H as [i [<- Hi]].
  apply in_seq in Hi. lia.
Qed.

Lemma issued_detected :
  forall vs w w',
    issued vs w w' ->
    detected vs w
      (set_violations
         (fold_left (fun m v => map_set Nat.eqb (Violation.id v) v m) vs
                    (violations w')) w').
Proof.
  intros vs w w' (Hid & Hu & Hv & Hp & Hi & Hh & Ho).
  unfold detected. world_simpl. rewrite Hv. repeat split; assumption.
Qed.

Lemma detected_nil : forall w, detected [] w w.
Proof.
  intro w. unfold detected. simpl. repeat split; try lia. constructor.
Qed.

Lemma detected_app :
  forall vs1 vs2 w w1 w2,
    detected vs1 w w1 -> detected vs2 w1 w2 -> detected (vs1 ++ vs2) w w2.
Proof.
  intros vs1 vs2 w w1 w2 (Hid1 & Hu1 & Hv1 & Hp1 & Hi1 & Hh1 & Ho1)
         (Hid2 & Hu2 & Hv2 & Hp2 & Hi2 & Hh2 & Ho2).
  unfold detected. repeat split; try congruence.
  - rewrite map_app, length_app, seq_app, map_app, Hid1, Hid2. f_equal.
    simpl. rewrite (seq_from (List.length vs1)), map_map.
    apply map_ext. intro i. rewrite Hu1. lia.
  - rewrite Hu2, Hu1, length_app. lia.
  - rewrite fold_left_app, <- Hv1. exact Hv2.
  - apply Forall_app. split; assumption.
Qed.

Lemma detected_stored :
  forall vs w w',
    detected vs w w' ->
    Forall (fun v => getViolation (Violation.id v) w' = Some v /\
                     uuid_next w <= Violation.id v < uuid_next w') vs.
Proof.
  intros vs w w' (Hid & Hu & Hv & _). apply Forall_forall. intros v Hin.
  split.
  - unfold getViolation. rewrite Hv. apply fold_set_get_in; [|exact Hin].
    rewrite Hid. apply fresh_ids_NoDup.
  - assert (H : In (Violation.id v) (map Violation.id vs))
      by (apply in_map; exact Hin).
    rewrite Hid in H. apply fresh_ids_range in H. lia.
Qed.

Lemma detected_keeps :
  forall vs w w' id,
    detected vs w w' -> id < uuid_next w ->
    getViolation id w' = getViolation id w.
Proof.
  intros vs w w' id (Hid & Hu & Hv & _) Hlt. unfold getViolation.
  rewrite Hv. apply fold_set_get_other. rewrite Hid. intro H.
  apply fresh_ids_range in H. lia.
Qed.

Lemma detected_grows :
  forall vs w w',
    detected vs w w' -> violations_below w ->
    violations_below w' /\
    List.length (getAllViolations w') =
      List.length (getAllViolations w) + List.length vs.
Proof.
  intros vs w w' (Hid & Hu & Hv & _) Hb.
  assert (Hk : map_keys (violations w') =
               (map_keys (violations w) ++ map Violation.id vs)%list).
  { rewrite Hv. apply fold_set_keys.
    - rewrite Hid. apply fresh_ids_NoDup.
    - intros id Hin Hold. rewrite Hid in Hin. apply fresh_ids_range in Hin.
      apply Hb in Hold. lia. }
  split.
  - intros id Hin. rewrite Hk in Hin. apply in_app_iff in Hin.
    destruct Hin as [Hin|Hin].
    + apply Hb in Hin. lia.
    + rewrite Hid in Hin. apply fresh_ids_range in Hin. lia.
  - unfold getAllViolations, map_values.
    rewrite length_map, <- (length_map fst (violations w')).
    fold (map_keys (violations w')). rewrite Hk, length_app.
    unfold map_keys. rewrite !length_map. reflexivity.
Qed.

Lemma store_issued :
  forall (check : M (list Violation.t)) w,
    (exists vs w', check w = (Ok vs, w') /\ issued vs w w' /\
                   List.length vs <= 2) ->
    exists vs w',
      (violations <- check ;; store_violations violations ;; ret violations) w =
        (Ok vs, w') /\
      detected vs w w' /\ List.length vs <= 2 /\
      fst (check w) = Ok vs.
Proof.
  intros check w (vs & w1 & Hc & Hi & Hl).
  exists vs. eexists. unfold bind, store_violations, ret. rewrite Hc.
  cbv beta iota. split; [reflexivity|]. split; [|split; [exact Hl|reflexivity]].
  apply issued_detected. exact Hi.
Qed.

Lemma checkAsset_detected :
  forall Number_toString (JSON_stringify : forall A : Type, A -> string) mon
         identifier type policies w,
    exists vs w',
      checkAsset Number_toString JSON_stringify mon identifier type policies w =
        (Ok vs, w') /\
      detected vs w w' /\ List.length vs <= 2.
Proof.
  intros N J mon identifier type policies w.
  assert (Hnone : exists vs w',
             (@ret (list Violation.t) []) w = (Ok vs, w') /\ issued vs w w' /\
             List.length vs <= 2).
  { exists [], w. split; [reflexivity|]. split; [apply issued_nil|simpl; lia]. }
  destruct type; unfold checkAsset.
  - destruct (getDomainInfo identifier mon) as [d|].
    + destruct (store_issued _ w (checkDomain_issued J mon d policies w))
        as (vs & w' & H & Hd & Hl & _). exists vs, w'. auto.
    + destruct (store_issued _ w Hnone) as (vs & w' & H & Hd & Hl & _).
      exists vs, w'. auto.
  - destruct (getIPInfo identifier mon) as [i|].
    + destruct (store_issued _ w (checkIP_issued J i policies w))
        as (vs & w' & H & Hd & Hl & _). exists vs, w'. auto.
    + destruct (store_issued _ w Hnone) as (vs & w' & H & Hd & Hl & _).
      exists vs, w'. auto.
  - destruct (getCertificateInfo identifier mon) as [c|].
    + destruct (store_issued _ w
                  (checkCertificate_issued N (J CertificateInfo.t) c policies w))
        as (vs & w' & H & Hd & Hl & _). exists vs, w'. auto.
    + destruct (store_issued _ w Hnone) as (vs & w' & H & Hd & Hl & _).
      exists vs, w'. auto.
  - exists [], w. split; [reflexivity|]. split; [apply detected_nil|simpl; lia].
Qed.

Lemma runDetection_loop_detected :
  forall Number_toString (JSON_stringify : forall A : Type, A -> string) mon
         policies assets acc w,
    exists vs w',
      runDetection_loop Number_toString JSON_stringify mon policies assets acc w =
        (Ok (acc ++ vs)%list, w') /\
      detected vs w w' /\ List.length vs <= 2 * List.length assets.
Proof.
  intros N J mon policies assets.
  induction assets as [|asset rest IH]; intros acc w.
  - exists [], w. simpl. rewrite app_nil_r. split; [reflexivity|].
    split; [apply detected_nil|simpl; lia].
  - destruct (checkAsset_detected N J mon (MonitoredAsset.identifier asset)
                (MonitoredAsset.type asset) policies w)
      as (vs1 & w1 & H1 & Hd1 & Hl1).
    destruct (IH (acc ++ vs1)%list w1) as (vs2 & w2 & H2 & Hd2 & Hl2).
    exists (vs1 ++ vs2)%list, w2. cbn [runDetection_loop].
    rewrite (bind_Ok _ _ _ _ _ _ _ H1), H2, app_assoc.
    split; [reflexivity|]. split.
    + eapply detected_app; eassumption.
    + rewrite length_app. simpl. lia.
Qed.

(** X15. [checkAsset] keeps what it reports.  It never throws; it returns
    at most two findings, each [open], stored in the detector under an
    identifier that was not handed out before, so that [getViolation] gives
    the finding back.  A violation stored under an identifier handed out
    earlier is left as it was, and the engine's playbooks and incidents are
    not touched.  An asset of type [cloud_resource], and an asset whose
    identifier has no entry in the monitor's cache for its type, is
    reported clean. *)
Theorem checkAsset_stores_findings :
  forall (Number_toString : number -> string)
         (JSON_stringify : forall A : Type, A -> string)
         (mon : InfrastructureMonitor.t) (identifier : string)
         (type : AssetType) (policies : list Policy.t) (w : World),
    exists vs w',
      checkAsset Number_toString JSON_stringify mon identifier type policies w =
        (Ok vs, w') /\
      List.length vs <= 2 /\
      Forall (fun v => getViolation (Violation.id v) w' = Some v /\
                       Violation.status v = open /\
                       uuid_next w <= Violation.id v < uuid_next w') vs /\
      (forall id, id < uuid_next w -> getViolation id w' = getViolation id w) /\
      playbooks w' = playbooks w /\ incidents w' = incidents w /\
      ((type = cloud_resource \/
        (type = domain /\ getDomainInfo identifier mon = None) \/
        (type = ip /\ getIPInfo identifier mon = None) \/
        (type = certificate /\ getCertificateInfo identifier mon = None)) ->
       vs = [] /\ w' = w).
Proof.
  intros N J mon identifier type policies w.
  destruct (checkAsset_detected N J mon identifier type policies w)
    as (vs & w' & H & Hd & Hl).
  exists vs, w'. split; [exact H|]. split; [exact Hl|].
  split; [|split; [|split; [|split]]].
  - pose proof (detected_stored _ _ _ Hd) as Hs.
    destruct Hd as (_ & _ & _ & _ & _ & _ & Ho).
    rewrite Forall_forall in *. intros v Hin.
    destruct (Hs v Hin) as [Hg Hr]. auto.
  - intros id Hlt. eapply detected_keeps; eassumption.
  - apply Hd.
  - apply Hd.
  - intros [->|[[-> Hn]|[[-> Hn]|[-> Hn]]]]; unfold checkAsset in H;
      try rewrite Hn in H; unfold bind, ret, store_violations in H;
      cbv beta iota in H; simpl in H; injection H as <- <-;
      (split; [reflexivity|]); destruct w; reflexivity.
Qed.

Lemma checkAsset_same_findings :
  forall Number_toString (JSON_stringify : forall A : Type, A -> string) mon
         identifier type policies w w0 vs w' vs0 w0',
    checkAsset Number_toString JSON_stringify mon identifier type policies w =
      (Ok vs, w') ->
    checkAsset Number_toString JSON_stringify mon identifier type policies w0 =
      (Ok vs0, w0') ->
    map finding vs = map finding vs0.
Proof.
  intros N J mon identifier type policies w w0 vs w' vs0 w0'.
  unfold checkAsset. destruct type.
  - destruct (getDomainInfo identifier mon) as [d|]; unfold checkDomain;
      [destruct (DomainSecurity.hasSPF
                   (checkDomainSecurity (DomainRecord.domain d) mon));
       destruct (DomainSecurity.hasDMARC
                   (checkDomainSecurity (DomainRecord.domain d) mon))|];
      cbn [negb]; run_checks; unfold store_violations; cbv beta iota;
      intros H H0; injection H as <- _; injection H0 as <- _; reflexivity.
  - destruct (getIPInfo identifier mon) as [i|]; unfold checkIP;
      [destruct (Reputation_eqb (IPRecord.reputation i) rep_malicious);
       destruct (IPRecord.isTor i)|];
      run_checks; unfold store_violations; cbv beta iota;
      intros H H0; injection H as <- _; injection H0 as <- _; reflexivity.
  - destruct (getCertificateInfo identifier mon) as [c|];
      unfold checkCertificate;
      [destruct (ExpiryCheck.isExpiring (checkCertificateExpiry c));
       destruct (CertificateInfo.isValid c)|];
      cbn [negb]; run_checks; unfold store_violations; cbv beta iota;
      intros H H0; injection H as <- _; injection H0 as <- _; reflexivity.
  - unfold ret. intros H H0. injection H as <- _. injection H0 as <- _.
    reflexivity.
Qed.

Lemma runDetection_loop_same_findings :
  forall Number_toString (JSON_stringify : forall A : Type, A -> string) mon
         policies assets acc acc0 w w0 vs w' vs0 w0',
    map finding acc = map finding acc0 ->
    runDetection_loop Number_toString JSON_stringify mon policies assets acc w =
      (Ok vs, w') ->
    runDetection_loop Number_toString JSON_stringify mon policies assets acc0 w0 =
      (Ok vs0, w0') ->
    map finding vs = map finding vs0.
Proof.
  intros N J mon policies assets.
  induction assets as [|asset rest IH];
    intros acc acc0 w w0 vs w' vs0 w0' Hacc H H0.
  - simpl in H, H0. unfold ret in H, H0. injection H as <- _.
    injection H0 as <- _. exact Hacc.
  - cbn [runDetection_loop] in H, H0.
    destruct (checkAsset_detected N J mon (MonitoredAsset.identifier asset)
                (MonitoredAsset.type asset) policies w) as (a & w1 & Ha & _).
    destruct (checkAsset_detected N J mon (MonitoredAsset.identifier asset)
                (MonitoredAsset.type asset) policies w0) as (a0 & w2 & Ha0 & _).
    rewrite (bind_Ok _ _ _ _ _ _ _ Ha) in H.
    rewrite (bind_Ok _ _ _ _ _ _ _ Ha0) in H0.
    refine (IH _ _ _ _ _ _ _ _ _ H H0).
    rewrite !map_app, Hacc.
    rewrite (checkAsset_same_findings _ _ _ _ _ _ _ _ _ _ _ _ Ha Ha0).
    reflexivity.
Qed.

Lemma runDetection_loop_in_turn :
  forall Number_toString (JSON_stringify : forall A : Type, A -> string) mon
         policies assets acc w,
    exists vs w',
      runDetection_loop Number_toString JSON_stringify mon policies assets acc w =
        (Ok (acc ++ vs)%list, w') /\
      checked_in_turn Number_toString JSON_stringify mon policies assets w vs w' /\
      detected vs w w' /\ List.length vs <= 2 * List.length assets.
Proof.
  intros N J mon policies assets.
  induction assets as [|asset rest IH]; intros acc w.
  - exists [], w. simpl. rewrite app_nil_r. split; [reflexivity|].
    split; [constructor|]. split; [apply detected_nil|simpl; lia].
  - destruct (checkAsset_detected N J mon (MonitoredAsset.identifier asset)
                (MonitoredAsset.type asset) policies w)
      as (vs1 & w1 & H1 & Hd1 & Hl1).
    destruct (IH (acc ++ vs1)%list w1) as (vs2 & w2 & H2 & Hc2 & Hd2 & Hl2).
    exists (vs1 ++ vs2)%list, w2. cbn [runDetection_loop].
    rewrite (bind_Ok _ _ _ _ _ _ _ H1), H2, app_assoc.
    split; [reflexivity|]. split; [|split].
    + econstructor; eassumption.
    + eapply detected_app; eassumption.
    + rewrite length_app. simpl. lia.
Qed.

Lemma checked_in_turn_complete :
  forall Number_toString (JSON_stringify : forall A : Type, A -> string) mon
         policies assets w vs w',
    checked_in_turn Number_toString JSON_stringify mon policies assets w vs w' ->
    forall asset w0 vs0 w0',
      In asset assets ->
      checkAsset Number_toString JSON_stringify mon
                 (MonitoredAsset.identifier asset) (MonitoredAsset.type asset)
                 policies w0 = (Ok vs0, w0') ->
      incl (map finding vs0) (map finding vs).
Proof.
  intros N J mon policies assets w vs w' H.
  induction H as [w|a rest w vs1 w1 vs2 w2 Hc _ IH];
    intros asset w0 vs0 w0' Hin H0; [destruct Hin|].
  rewrite map_app. destruct Hin as [->|Hin].
  - rewrite (checkAsset_same_findings _ _ _ _ _ _ _ _ _ _ _ _ H0 Hc).
    apply incl_appl, incl_refl.
  - apply incl_appr. apply (IH asset w0 vs0 w0' Hin H0).
Qed.

Lemma checked_in_turn_sound :
  forall Number_toString (JSON_stringify : forall A : Type, A -> string) mon
         policies assets w vs w',
    checked_in_turn Number_toString JSON_stringify mon policies assets w vs w' ->
    forall v,
      In v vs ->
      exists asset w0 vs0 w0',
        In asset assets /\
        checkAsset Number_toString JSON_stringify mon
                   (MonitoredAsset.identifier asset) (MonitoredAsset.type asset)
                   policies w0 = (Ok vs0, w0') /\
        In v vs0.
Proof.
  intros N J mon policies assets w vs w' H.
  induction H as [w|a rest w vs1 w1 vs2 w2 Hc _ IH]; intros v Hin;
    [destruct Hin|].
  apply in_app_or in Hin. destruct Hin as [Hin|Hin].
  - exists a, w, vs1, w1. split; [left; reflexivity|]. split; assumption.
  - destruct (IH v Hin) as (asset & w0 & vs0 & w0' & Ha & H0 & Hv).
    exists asset, w0, vs0, w0'. split; [right; exact Ha|]. split; assumption.
Qed.

(** X16. [runDetection] never throws and checks every monitored asset: it
    runs [checkAsset] on each asset the monitor lists, in that order, each
    from the state the one before left, and returns what they returned, one
    after the other.  So whatever [checkAsset] finds for a monitored asset
    is among the findings returned (same severity, title, asset and
    policy), and every finding returned was returned by [checkAsset] for a
    monitored asset.  There are at most two findings per asset, all of them
    [open], under identifiers that differ from one another, and each is
    stored so that [getViolation] gives it back afterwards (a later asset's
    findings do not displace an earlier one's).  Violations stored under
    identifiers handed out before the pass are left as they were. *)
Theorem runDetection_findings :
  forall (Number_toString : number -> string)
         (JSON_stringify : forall A : Type, A -> string)
         (mon : InfrastructureMonitor.t) (policies : list Policy.t) (w : World),
    exists vs w',
      runDetection Number_toString JSON_stringify mon policies w = (Ok vs, w') /\
      checked_in_turn Number_toString JSON_stringify mon policies
                      (getAssets mon) w vs w' /\
      (forall asset w0 vs0 w0',
          In asset (getAssets mon) ->
          checkAsset Number_toString JSON_stringify mon
                     (MonitoredAsset.identifier asset)
                     (MonitoredAsset.type asset) policies w0 = (Ok vs0, w0') ->
          incl (map finding vs0) (map finding vs)) /\
      (forall v,
          In v vs ->
          exists asset w0 vs0 w0',
            In asset (getAssets mon) /\
            checkAsset Number_toString JSON_stringify mon
                       (MonitoredAsset.identifier asset)
                       (MonitoredAsset.type asset) policies w0 = (Ok vs0, w0') /\
            In v vs0) /\
      List.length vs <= 2 * List.length (getAssets mon) /\
      NoDup (map Violation.id vs) /\
      Forall (fun v => getViolation (Violation.id v) w' = Some v /\
                       Violation.status v = open) vs /\
      (forall id, id < uuid_next w -> getViolation id w' = getViolation id w).
Proof.
  intros N J mon policies w.
  destruct (runDetection_loop_in_turn N J mon policies (getAssets mon) [] w)
    as (vs & w' & H & Hc & Hd & Hl).
  exists vs, w'. split; [exact H|]. split; [exact Hc|].
  split; [apply (checked_in_turn_complete _ _ _ _ _ _ _ _ Hc)|].
  split; [apply (checked_in_turn_sound _ _ _ _ _ _ _ _ Hc)|].
  split; [exact Hl|]. split; [|split].
  - destruct Hd as (Hid & _). rewrite Hid. apply fresh_ids_NoDup.
  - pose proof (detected_stored _ _ _ Hd) as Hs.
    destruct Hd as (_ & _ & _ & _ & _ & _ & Ho).
    rewrite Forall_forall in *. intros v Hin.
    destruct (Hs v Hin) as [Hg _]. auto.
  - intros id Hlt. eapply detected_keeps; eassumption.
Qed.

Lemma runDetection_findings_witness :
  exists vs w',
    runDetection (fun _ => "0") (fun _ _ => "{}") a_monitor []
                 (boot ticking_clock) = (Ok vs, w') /\
    map Violation.title vs =
      [malicious_ip_title; tor_exit_title; missing_dmarc_title] /\
    map Violation.assetIdentifier vs =
      ["203.0.113.9"; "203.0.113.9"; "example.com"] /\
    Forall (fun v => getViolation (Violation.id v) w' = Some v) vs.
Proof.
  destruct (runDetection_findings (fun _ => "0") (fun _ _ => "{}") a_monitor []
              (boot ticking_clock))
    as (vs & w' & H & _ & _ & _ & _ & _ & Hst & _).
  exists vs, w'. split; [exact H|].
  assert (Hvs : vs = match fst (runDetection (fun _ => "0") (fun _ _ => "{}")
                                  a_monitor [] (boot ticking_clock)) with
                     | Ok r => r
                     | _ => []
                     end) by (rewrite H; reflexivity).
  split; [rewrite Hvs; vm_compute; reflexivity|].
  split; [rewrite Hvs; vm_compute; reflexivity|].
  rewrite Forall_forall in *. intros v Hin. apply Hst. exact Hin.
Defined.

(** X17. Detection does not recognise what it has already reported.  When
    the stored violations carry identifiers handed out earlier, a second
    [runDetection] over the same monitor reports the findings of the first
    once more (same severity, title, asset and policy, in the same order)
    under identifiers of their own, and the detector then holds both sets
    next to what it held before. *)
Theorem runDetection_reports_again :
  forall (Number_toString : number -> string)
         (JSON_stringify : forall A : Type, A -> string)
         (mon : InfrastructureMonitor.t) (policies : list Policy.t) (w : World),
    violations_below w ->
    exists vs1 w1 vs2 w2,
      runDetection Number_toString JSON_stringify mon policies w = (Ok vs1, w1) /\
      runDetection Number_toString JSON_stringify mon policies w1 = (Ok vs2, w2) /\
      map finding vs2 = map finding vs1 /\
      (forall v1 v2, In v1 vs1 -> In v2 vs2 -> Violation.id v1 <> Violation.id v2) /\
      List.length (getAllViolations w2) =
        List.length (getAllViolations w) + 2 * List.length vs1.
Proof.
  intros N J mon policies w Hb. unfold runDetection.
  destruct (runDetection_loop_detected N J mon policies (getAssets mon) [] w)
    as (vs1 & w1 & H1 & Hd1 & _).
  destruct (runDetection_loop_detected N J mon policies (getAssets mon) [] w1)
    as (vs2 & w2 & H2 & Hd2 & _).
  simpl in H1, H2. exists vs1, w1, vs2, w2.
  assert (Hsame : map finding vs2 = map finding vs1).
  { exact (runDetection_loop_same_findings _ _ _ _ _ _ _ _ _ _ _ _ _
             eq_refl H2 H1). }
  split; [exact H1|]. split; [exact H2|]. split; [exact Hsame|]. split.
  - intros v1 v2 Hin1 Hin2.
    pose proof (detected_stored _ _ _ Hd1) as Hs1.
    pose proof (detected_stored _ _ _ Hd2) as Hs2.
    rewrite Forall_forall in Hs1, Hs2.
    destruct (Hs1 v1 Hin1) as [_ Hr1]. destruct (Hs2 v2 Hin2) as [_ Hr2]. lia.
  - destruct (detected_grows _ _ _ Hd1 Hb) as [Hb1 Hl1].
    destruct (detected_grows _ _ _ Hd2 Hb1) as [_ Hl2].
    rewrite Hl2, Hl1.
    assert (Hlen : List.length vs2 = List.length vs1).
    { rewrite <- (length_map finding vs2), Hsame. apply length_map. }
    lia.
Qed.

Lemma runDetection_reports_again_witness :
  violations_below (boot ticking_clock) /\
  exists vs1 w1 vs2 w2,
    runDetection (fun _ => "0") (fun _ _ => "{}") a_monitor []
                 (boot ticking_clock) = (Ok vs1, w1) /\
    runDetection (fun _ => "0") (fun _ _ => "{}") a_monitor [] w1 = (Ok vs2, w2) /\
    map finding vs2 = map finding vs1 /\
    (forall v1 v2, In v1 vs1 -> In v2 vs2 -> Violation.id v1 <> Violation.id v2) /\
    List.length (getAllViolations w2) =
      List.length (getAllViolations (boot ticking_clock)) + 2 * List.length vs1.
Proof.
  assert (H : violations_below (boot ticking_clock)) by (intros id []).
  split; [exact H|].
  exact (runDetection_reports_again (fun _ => "0") (fun _ _ => "{}") a_monitor []
           (boot ticking_clock) H).
Defined.

(** ** Detector statistics *)

Lemma count_fold :
  forall (l : list Violation.t) f g,
    let counts :=
      fold_left
        (fun acc v =>
           (bump ViolationStatus_eqb (Violation.status v) (fst acc),
            bump SeverityLevel_eqb (Violation.severity v) (snd acc)))
        l (f, g) in
    (forall st, fst counts st =
                f st + List.length
                         (filter (fun v => ViolationStatus_eqb (Violation.status v) st) l)) /\
    (forall sv, snd counts sv =
                g sv + List.length
                         (filter (fun v => SeverityLevel_eqb (Violation.severity v) sv) l)).
Proof.
  induction l as [|a r IH]; intros f g; cbn [fold_left filter List.length].
  - split; intro; cbn [fst snd]; lia.
  - cbn [fst snd].
    destruct (IH (bump ViolationStatus_eqb (Violation.status a) f)
                 (bump SeverityLevel_eqb (Violation.severity a) g)) as [Hs Hv].
    split.
    + intro st. cbv zeta in Hs. rewrite Hs. unfold bump.
      destruct (Violation.status a), st; cbn [ViolationStatus_eqb List.length];
        lia.
    + intro sv. cbv zeta in Hv. rewrite Hv. unfold bump.
      destruct (Violation.severity a), sv; cbn [SeverityLevel_eqb List.length];
        lia.
Qed.

Lemma status_partition :
  forall l : list Violation.t,
    List.length l =
      List.length (filter (fun v => ViolationStatus_eqb (Violation.status v) open) l) +
      List.length (filter (fun v => ViolationStatus_eqb (Violation.status v) investigating) l) +
      List.length (filter (fun v => ViolationStatus_eqb (Violation.status v) remediating) l) +
      List.length (filter (fun v => ViolationStatus_eqb (Violation.status v) resolved) l) +
      List.length (filter (fun v => ViolationStatus_eqb (Violation.status v) false_positive) l) /\
    List.length
      (filter (fun v => ViolationStatus_eqb (Violation.status v) open ||
                        ViolationStatus_eqb (Violation.status v) investigating ||
                        ViolationStatus_eqb (Violation.status v) remediating) l) =
      List.length (filter (fun v => ViolationStatus_eqb (Violation.status v) open) l) +
      List.length (filter (fun v => ViolationStatus_eqb (Violation.status v) investigating) l) +
      List.length (filter (fun v => ViolationStatus_eqb (Violation.status v) remediating) l).
Proof.
  induction l as [|a r [IH1 IH2]]; [split; reflexivity|].
  cbn [filter]. destruct (Violation.status a);
    cbn [ViolationStatus_eqb orb List.length]; split; lia.
Qed.

Lemma severity_partition :
  forall l : list Violation.t,
    List.length l =
      List.length (filter (fun v => SeverityLevel_eqb (Violation.severity v) critical) l) +
      List.length (filter (fun v => SeverityLevel_eqb (Violation.severity v) high) l) +
      List.length (filter (fun v => SeverityLevel_eqb (Violation.severity v) medium) l) +
      List.length (filter (fun v => SeverityLevel_eqb (Violation.severity v) low) l) +
      List.length (filter (fun v => SeverityLevel_eqb (Violation.severity v) info) l).
Proof.
  induction l as [|a r IH]; [reflexivity|].
  cbn [filter]. destruct (Violation.severity a);
    cbn [SeverityLevel_eqb List.length]; lia.
Qed.

(** X18. The detector's statistics agree with its queries.  In the record
    [getStats] returns, [byStatus] and [bySeverity] count what
    [getViolationsByStatus] and [getViolationsBySeverity] list, [openCount]
    is the number of violations [getOpenViolations] lists, and
    [resolvedCount] that of the resolved ones.  Every stored violation is
    counted once by status and once by severity: [total] is [openCount]
    plus [resolvedCount] plus the false positives, and also the sum of the
    five severity counters. *)
Theorem ViolationDetector_getStats_consistent :
  forall w : World,
    let s := ViolationDetector.getStats w in
    (forall st, ViolationStats.byStatus s st =
                List.length (getViolationsByStatus st w)) /\
    (forall sv, ViolationStats.bySeverity s sv =
                List.length (getViolationsBySeverity sv w)) /\
    ViolationStats.openCount s = List.length (getOpenViolations w) /\
    ViolationStats.resolvedCount s =
      List.length (getViolationsByStatus resolved w) /\
    ViolationStats.total s =
      ViolationStats.openCount s + ViolationStats.resolvedCount s +
      ViolationStats.byStatus s false_positive /\
    ViolationStats.total s =
      ViolationStats.bySeverity s critical + ViolationStats.bySeverity s high +
      ViolationStats.bySeverity s medium + ViolationStats.bySeverity s low +
      ViolationStats.bySeverity s info.
Proof.
  intro w. unfold ViolationDetector.getStats. cbv zeta.
  cbn [ViolationStats.byStatus ViolationStats.bySeverity ViolationStats.openCount
       ViolationStats.resolvedCount ViolationStats.total].
  destruct (count_fold (getAllViolations w) (fun _ => 0) (fun _ => 0))
    as [Hs Hv].
  cbv zeta in Hs, Hv. cbn beta in Hs, Hv.
  destruct (status_partition (getAllViolations w)) as [Hp Ho].
  pose proof (severity_partition (getAllViolations w)) as Hq.
  unfold getViolationsByStatus, getViolationsBySeverity, getOpenViolations.
  repeat split.
  - intro st. rewrite Hs. reflexivity.
  - intro sv. rewrite Hv. reflexivity.
  - rewrite !Hs, Ho. lia.
  - rewrite Hs. reflexivity.
  - rewrite !Hs. lia.
  - rewrite !Hv. lia.
Qed.

(** ** Violations reported by hand *)

Lemma getViolation_set_other :
  forall id id' v m w,
    id' <> id ->
    getViolation id' (set_violations (map_set Nat.eqb id v m) w) =
    map_get Nat.eqb id' m.
Proof.
  intros. unfold getViolation. simpl.
  apply (map_get_set_other _ _ _ Nat_eqb_eq'). assumption.
Qed.

Lemma map_set_set :
  forall (id : uuid) (v v' : Violation.t) m,
    map_set Nat.eqb id v' (map_set Nat.eqb id v m) = map_set Nat.eqb id v' m.
Proof.
  intros id v v' m. induction m as [|[k x] r IH]; simpl.
  - rewrite Nat.eqb_refl. reflexivity.
  - destruct (Nat.eqb id k) eqn:E; simpl.
    + rewrite Nat.eqb_refl. reflexivity.
    + rewrite E, IH. reflexivity.
Qed.

(** X19. [addRemediation] appends to a stored violation a remediation
    action made of the fields it is given and an identifier handed out for
    it, returns that action, and stamps the violation's [updatedAt].  It
    changes nothing else: the violation keeps its status (a resolved one
    stays resolved, with its [resolvedAt]) and severity, and the other
    violations are as they were.  For an identifier that is not stored it
    returns [undefined], takes no identifier and reads no clock. *)
Theorem addRemediation_appends :
  forall (id : uuid) (r : NewRemediation.t) (w : World),
    (forall v, getViolation id w = Some v ->
       exists rem v' w',
         addRemediation id r w = (Ok (Some rem), w') /\
         getViolation id w' = Some v' /\
         Violation.remediation v' = (Violation.remediation v ++ [rem])%list /\
         RemediationAction.id rem = uuid_next w /\
         RemediationAction.type rem = NewRemediation.type r /\
         RemediationAction.status rem = NewRemediation.status r /\
         RemediationAction.description rem = NewRemediation.description r /\
         Violation.status v' = Violation.status v /\
         Violation.resolvedAt v' = Violation.resolvedAt v /\
         Violation.severity v' = Violation.severity v /\
         Violation.updatedAt v' = clock w (ticks w) /\
         (forall id', id' <> id -> getViolation id' w' = getViolation id' w)) /\
    (getViolation id w = None -> addRemediation id r w = (Ok None, w)).
Proof.
  intros id r w. split.
  - intros v H. unfold addRemediation. rewrite H.
    unfold bind at 1. unfold uuidv4 at 1. cbv beta iota zeta.
    unfold bind at 1.
    rewrite (modify_violation_present id _ _ v) by exact H.
    unfold bind at 1. unfold newDate at 1. cbv beta iota.
    unfold bind at 1.
    rewrite (modify_violation_present id _ _
               (push_remediation
                  (RemediationAction.mk (uuid_next w) (NewRemediation.type r)
                     (NewRemediation.status r) (NewRemediation.description r)
                     (NewRemediation.assignedTo r) (NewRemediation.completedAt r)
                     (NewRemediation.automationScript r)) v))
      by apply getViolation_set_violations.
    unfold ret. world_simpl. rewrite map_set_set.
    do 3 eexists. split; [reflexivity|].
    split; [apply getViolation_set_violations|].
    cbn [Violation.remediation Violation.status Violation.resolvedAt
         Violation.severity Violation.updatedAt Violation.set_updatedAt
         push_remediation RemediationAction.id RemediationAction.type
         RemediationAction.status RemediationAction.description].
    repeat split.
    intros id' Hne. rewrite getViolation_set_other by exact Hne. reflexivity.
  - intro H. unfold addRemediation. rewrite H. reflexivity.
Qed.

Lemma addRemediation_appends_witness :
  exists rem v' w',
    addRemediation 0
      (NewRemediation.mk automated in_progress "Close port 23" None None None)
      one_resolved = (Ok (Some rem), w') /\
    getViolation 0 w' = Some v' /\
    List.length (Violation.remediation v') = 2 /\
    Violation.status v' = resolved.
Proof.
  destruct (addRemediation_appends 0
              (NewRemediation.mk automated in_progress "Close port 23" None None
                                 None) one_resolved) as [H _].
  destruct (H (Violation.mk 0 "system" "Manual" None None "10.0.0.1" ip "10.0.0.1"
                 low resolved "Open port" "Port 23 is open" 1000%Z 1002%Z
                 (Some 1003%Z) []
                 [RemediationAction.mk 1 manual pending
                    "Review and remediate violation" None None None])
              eq_refl)
    as (rem & v' & w' & H1 & H2 & H3 & _ & _ & _ & _ & H8 & _).
  exists rem, v', w'. split; [exact H1|]. split; [exact H2|].
  split; [rewrite H3; reflexivity|exact H8].
Defined.

Lemma map_set_length :
  forall (K V : Type) (eqb : K -> K -> bool) (k : K) (v : V) (m : jsmap K V),
    List.length (map_set eqb k v m) =
    if is_some (map_get eqb k m) then List.length m else S (List.length m).
Proof.
  intros K V eqb k v m. induction m as [|[k0 v0] r IH]; simpl; [reflexivity|].
  destruct (eqb k k0); simpl; [reflexivity|]. rewrite IH.
  destruct (is_some (map_get eqb k r)); reflexivity.
Qed.

Lemma map_delete_set_fresh :
  forall (id : uuid) (v : Violation.t) m,
    ~ In id (map_keys m) ->
    map_delete Nat.eqb id (map_set Nat.eqb id v m) = m.
Proof.
  intros id v m. induction m as [|[k x] r IH]; simpl; intro Hn.
  - rewrite Nat.eqb_refl. reflexivity.
  - destruct (Nat.eqb id k) eqn:E.
    + apply Nat.eqb_eq in E. subst k. tauto.
    + simpl. rewrite E, IH by tauto. reflexivity.
Qed.

(** X20. A violation reported by hand is stored as given and can be
    deleted again.  [createViolation] returns a violation that is [open],
    has the fields of its argument (no evidence when none is given) and one
    pending manual remediation, and [getViolation] gives it back under its
    identifier; the violations stored before are as they were, and there is
    one more of them.  [deleteViolation] of that identifier then answers
    [true] and leaves the detector holding what it held before the report;
    deleting it a second time answers [false]. *)
Theorem createViolation_deleteViolation :
  forall (data : NewViolation.t) (w : World),
    violations_below w ->
    exists v w1 w2,
      createViolation data w = (Ok v, w1) /\
      getViolation (Violation.id v) w1 = Some v /\
      Violation.status v = open /\
      Violation.severity v = NewViolation.severity data /\
      Violation.title v = NewViolation.title data /\
      Violation.assetIdentifier v = NewViolation.assetIdentifier data /\
      (NewViolation.evidence data = None -> Violation.evidence v = []) /\
      map RemediationAction.status (Violation.remediation v) = [pending] /\
      (forall id, id <> Violation.id v -> getViolation id w1 = getViolation id w) /\
      List.length (getAllViolations w1) = S (List.length (getAllViolations w)) /\
      deleteViolation (Violation.id v) w1 = (Ok true, w2) /\
      violations w2 = violations w /\
      fst (deleteViolation (Violation.id v) w2) = Ok false.
Proof.
  intros data w Hb.
  assert (Hfresh : ~ In (uuid_next w) (map_keys (violations w))).
  { intro H. apply Hb in H. lia. }
  assert (Hnone : map_get Nat.eqb (uuid_next w) (violations w) = None).
  { apply (map_get_none_keys _ _ _ Nat_eqb_eq'). exact Hfresh. }
  unfold createViolation, bind, uuidv4, newDate. cbv beta iota zeta.
  do 3 eexists. split; [reflexivity|].
  cbn [Violation.id Violation.status Violation.severity Violation.title
       Violation.assetIdentifier Violation.evidence Violation.remediation map
       RemediationAction.status].
  split; [apply getViolation_set_violations|].
  do 4 (split; [reflexivity|]).
  split; [intro He; rewrite He; reflexivity|].
  split; [reflexivity|].
  split; [intros id Hne; rewrite getViolation_set_other by exact Hne;
          reflexivity|].
  split.
  { unfold getAllViolations, map_values. world_simpl. rewrite !length_map.
    rewrite map_set_length, Hnone. reflexivity. }
  unfold deleteViolation. world_simpl.
  rewrite (map_get_set_same _ _ _ Nat_eqb_eq').
  rewrite map_delete_set_fresh by exact Hfresh.
  split; [reflexivity|]. split; [reflexivity|].
  world_simpl. rewrite Hnone. reflexivity.
Qed.

Lemma createViolation_deleteViolation_witness :
  violations_below (boot ticking_clock) /\
  exists v w1 w2,
    createViolation a_new_violation (boot ticking_clock) = (Ok v, w1) /\
    getViolation (Violation.id v) w1 = Some v /\
    deleteViolation (Violation.id v) w1 = (Ok true, w2) /\
    violations w2 = violations (boot ticking_clock).
Proof.
  assert (H : violations_below (boot ticking_clock)) by (intros id []).
  split; [exact H|].
  destruct (createViolation_deleteViolation a_new_violation
              (boot ticking_clock) H)
    as (v & w1 & w2 & H1 & H2 & _ & _ & _ & _ & _ & _ & _ & _ & H11 & H12 & _).
  exists v, w1, w2. auto.
Defined.

(** ** Rules *)

(** X21. [toggleRule] acts on the first rule that bears the identifier and
    on no other: that rule gets the requested [enabled] flag and keeps its
    place, and every other rule is left as it was.  [addRule] does not
    refuse an identifier that is taken, and a rule added under one is out
    of [toggleRule]'s reach.  After switching the first bearer off,
    [getRules] lists the enabled rules before it followed by the enabled
    rules after it. *)
Theorem toggleRule_first_match :
  forall (ruleId : string) (enabled : bool) (pre post : list DetectionRule.t)
         (r : DetectionRule.t),
    DetectionRule.id r = ruleId ->
    (forall x, In x pre -> DetectionRule.id x <> ruleId) ->
    toggleRule ruleId enabled (pre ++ r :: post) =
      (pre ++ DetectionRule.set_enabled enabled r :: post)%list /\
    (forall r',
        toggleRule ruleId enabled (addRule r' (pre ++ r :: post)) =
        addRule r' (pre ++ DetectionRule.set_enabled enabled r :: post)) /\
    getRules (toggleRule ruleId false (pre ++ r :: post)) =
      (getRules pre ++ getRules post)%list /\
    getRules (toggleRule ruleId true (pre ++ r :: post)) =
      (getRules pre ++ DetectionRule.set_enabled true r :: getRules post)%list.
Proof.
  intros ruleId enabled pre post r Hid Hpre.
  assert (H : forall b post',
             toggleRule ruleId b (pre ++ r :: post') =
             (pre ++ DetectionRule.set_enabled b r :: post')%list).
  { intros b post'. induction pre as [|x pre IH]; simpl.
    - rewrite Hid, String.eqb_refl. reflexivity.
    - destruct (String.eqb (DetectionRule.id x) ruleId) eqn:E.
      + apply String.eqb_eq in E. exfalso.
        apply (Hpre x); [left; reflexivity|exact E].
      + rewrite IH; [reflexivity|]. intros y Hy. apply Hpre. right. exact Hy. }
  split; [apply H|]. split.
  - intro r'. unfold addRule. rewrite <- !app_assoc. simpl. apply H.
  - rewrite !H. unfold getRules. rewrite !filter_app. split; reflexivity.
Qed.

Lemma toggleRule_first_match_witness :
  getRules (toggleRule "ip-suspicious" false initializeDefaultRules) =
    (getRules (firstn 6 initializeDefaultRules) ++
     getRules (skipn 7 initializeDefaultRules))%list /\
  List.length (getRules (toggleRule "ip-suspicious" false initializeDefaultRules)) = 7.
Proof.
  assert (Hpre : forall x, In x (firstn 6 initializeDefaultRules) ->
                           DetectionRule.id x <> "ip-suspicious").
  { intros x Hx. simpl in Hx.
    repeat (destruct Hx as [<-|Hx]; [simpl; discriminate|]). destruct Hx. }
  destruct (toggleRule_first_match "ip-suspicious" false
              (firstn 6 initializeDefaultRules) (skipn 7 initializeDefaultRules)
              (nth 6 initializeDefaultRules
                   (DetectionRule.mk "" "" ""
                      (RuleCondition.mk rk_ip ip op_equals "" (rv_string "")) info false CUSTOM))
              eq_refl Hpre) as (_ & _ & H & _).
  split; [exact H|].
  etransitivity; [exact (f_equal (@List.length _) H)|reflexivity].
Defined.

(** ** The monitor's assets *)

Lemma checkAsset_uncached :
  forall Number_toString (JSON_stringify : forall A : Type, A -> string) mon
         identifier type policies w,
    match type with
    | domain => getDomainInfo identifier mon = None
    | ip => getIPInfo identifier mon = None
    | certificate => getCertificateInfo identifier mon = None
    | cloud_resource => True
    end ->
    checkAsset Number_toString JSON_stringify mon identifier type policies w =
      (Ok [], w).
Proof.
  intros N J mon identifier type policies w H.
  unfold checkAsset. destruct type; try rewrite H;
    unfold bind, ret, store_violations; cbv beta iota; simpl;
    destruct w; reflexivity.
Qed.

(** X22. [removeAsset] forgets the asset and what was cached for its
    identifier.  For a monitored asset it answers [true]; the asset is no
    longer found and every other asset still is, but the cache entry of the
    identifier in the cache of the asset's type is gone, also when another
    asset of that type with the same identifier is still monitored: until
    the next refresh [checkAsset] reports that identifier clean.  The
    caches of the other two types are not touched. *)
Theorem removeAsset_clears_cache :
  forall (Number_toString : number -> string)
         (JSON_stringify : forall A : Type, A -> string)
         (id : uuid) (mon : InfrastructureMonitor.t) (asset : MonitoredAsset.t)
         (policies : list Policy.t) (w : World),
    well_keyed mon ->
    getAsset id mon = Some asset ->
    let mon' := snd (removeAsset id mon) in
    fst (removeAsset id mon) = true /\
    getAsset id mon' = None /\
    (forall id', id' <> id -> getAsset id' mon' = getAsset id' mon) /\
    checkAsset Number_toString JSON_stringify mon'
               (MonitoredAsset.identifier asset) (MonitoredAsset.type asset)
               policies w = (Ok [], w) /\
    (MonitoredAsset.type asset <> domain ->
     InfrastructureMonitor.domainCache mon' =
     InfrastructureMonitor.domainCache mon) /\
    (MonitoredAsset.type asset <> ip ->
     InfrastructureMonitor.ipCache mon' = InfrastructureMonitor.ipCache mon) /\
    (MonitoredAsset.type asset <> certificate ->
     InfrastructureMonitor.certCache mon' = InfrastructureMonitor.certCache mon) /\
    well_keyed mon'.
Proof.
  intros N J id mon asset policies w (Ha & Hd & Hi & Hc) Hget mon'.
  subst mon'. unfold removeAsset. unfold getAsset in Hget. rewrite Hget.
  destruct (MonitoredAsset.type asset) eqn:Ht;
    cbn [fst snd InfrastructureMonitor.assets InfrastructureMonitor.domainCache
         InfrastructureMonitor.ipCache InfrastructureMonitor.certCache
         InfrastructureMonitor.set_assets InfrastructureMonitor.set_domainCache
         InfrastructureMonitor.set_ipCache InfrastructureMonitor.set_certCache];
    rewrite Hget; unfold getAsset;
    cbn [is_some InfrastructureMonitor.assets];
    (split; [reflexivity|]);
    (split; [apply (map_get_delete_same _ _ _ Nat_eqb_eq'); exact Ha|]);
    (split; [intros id' Hne;
             apply (map_get_delete_other _ _ _ Nat_eqb_eq'); exact Hne|]);
    (split; [apply checkAsset_uncached;
             unfold getDomainInfo, getIPInfo, getCertificateInfo; simpl;
             try exact I;
             apply (map_get_delete_same _ _ _ String_eqb_eq'); assumption|]);
    (split; [intro Hn; try (exfalso; apply Hn; reflexivity); reflexivity|]);
    (split; [intro Hn; try (exfalso; apply Hn; reflexivity); reflexivity|]);
    (split; [intro Hn; try (exfalso; apply Hn; reflexivity); reflexivity|]);
    unfold well_keyed; simpl;
    repeat split; try assumption; apply map_delete_NoDup; assumption.
Qed.

Lemma removeAsset_clears_cache_witness :
  well_keyed a_monitor /\
  fst (removeAsset 0 a_monitor) = true /\
  getIPInfo "203.0.113.9" (snd (removeAsset 0 a_monitor)) = None /\
  checkAsset (fun _ => "0") (fun _ _ => "{}") (snd (removeAsset 0 a_monitor))
             "203.0.113.9" ip [] (boot ticking_clock) =
    (Ok [], boot ticking_clock).
Proof.
  assert (Hk : well_keyed a_monitor).
  { unfold well_keyed. simpl.
    repeat split; repeat constructor; simpl; intuition discriminate. }
  split; [exact Hk|].
  destruct (removeAsset_clears_cache (fun _ => "0") (fun _ _ => "{}") 0
              a_monitor
              (MonitoredAsset.mk 0 ip "203.0.113.9" "org" 0%Z asset_active [])
              [] (boot ticking_clock) Hk eq_refl) as (H1 & _ & _ & H4 & _).
  split; [exact H1|]. split; [reflexivity|exact H4].
Defined.

(** X23. A certificate added to the monitor is reported clean.
    [addCertificate] registers an active asset of type [certificate] for
    the domain name and caches what [lookupCertificate] answers, which is
    always a valid certificate with 90 days left; [checkAsset] on that
    domain name therefore reports nothing and stores nothing, whatever the
    policies are. *)
Theorem addCertificate_reported_clean :
  forall (Number_toString : number -> string)
         (JSON_stringify : forall A : Type, A -> string)
         (domainName organizationId : string) (mon : InfrastructureMonitor.t)
         (policies : list Policy.t) (w : World),
    exists asset mon' w1 cert,
      addCertificate domainName organizationId mon w = (Ok (asset, mon'), w1) /\
      getAsset (MonitoredAsset.id asset) mon' = Some asset /\
      MonitoredAsset.type asset = certificate /\
      MonitoredAsset.identifier asset = domainName /\
      MonitoredAsset.status asset = asset_active /\
      getCertificateInfo domainName mon' = Some cert /\
      CertificateInfo.isValid cert = true /\
      CertificateInfo.daysUntilExpiry cert = num_of_Z 90 /\
      checkAsset Number_toString JSON_stringify mon' domainName certificate
                 policies w1 = (Ok [], w1).
Proof.
  intros N J domainName organizationId mon policies w.
  unfold addCertificate, lookupCertificate, bind, ret, uuidv4, newDate.
  cbv beta iota zeta.
  do 4 eexists. split; [reflexivity|].
  split.
  { unfold getAsset.
    cbn [InfrastructureMonitor.assets InfrastructureMonitor.set_certCache
         InfrastructureMonitor.set_assets MonitoredAsset.id].
    apply (map_get_set_same _ _ _ Nat_eqb_eq'). }
  do 3 (split; [reflexivity|]).
  assert (Hc : forall c a,
             getCertificateInfo domainName
               (InfrastructureMonitor.set_certCache
                  (map_set String.eqb domainName c
                     (InfrastructureMonitor.certCache
                        (InfrastructureMonitor.set_assets a mon)))
                  (InfrastructureMonitor.set_assets a mon)) = Some c).
  { intros c a. unfold getCertificateInfo.
    cbn [InfrastructureMonitor.certCache InfrastructureMonitor.set_certCache
         InfrastructureMonitor.set_assets].
    apply (map_get_set_same _ _ _ String_eqb_eq'). }
  split; [apply Hc|].
  do 2 (split; [reflexivity|]).
  unfold checkAsset. rewrite Hc.
  unfold checkCertificate, checkCertificateExpiry.
  cbn [CertificateInfo.daysUntilExpiry CertificateInfo.isValid negb].
  assert (H7 : num_le (num_of_Z 90) (num_of_Z 7) = false) by reflexivity.
  assert (H30 : num_le (num_of_Z 90) (num_of_Z 30) = false) by reflexivity.
  assert (H60 : num_le (num_of_Z 90) (num_of_Z 60) = false) by reflexivity.
  rewrite H7, H30, H60. cbn [ExpiryCheck.isExpiring].
  unfold bind, ret, store_violations. cbv beta iota. simpl. reflexivity.
Qed.

(** ** The agent: detection, memory, response *)

Lemma triggered_ids_same :
  forall v w w',
    map_keys (playbooks w') = map_keys (playbooks w) ->
    (forall k, option_map without_lastRun (map_get String.eqb k (playbooks w')) =
               option_map without_lastRun (map_get String.eqb k (playbooks w))) ->
    triggered_ids v w' = triggered_ids v w.
Proof.
  intros v w w' Hk Hp. unfold triggered_ids. rewrite Hk.
  apply flat_map_ext. intro k. apply ids_at_same. apply Hp.
Qed.

Lemma executePlaybooks_effect :
  forall fuel v w r w',
    executePlaybooks fuel v w = (Ok r, w') ->
    uuid_next w <= uuid_next w' /\
    violations w' = violations w /\
    (exists entries,
        executionHistory w' = (executionHistory w ++ entries)%list /\
        map ExecutionEntry.playbookId entries = triggered_ids v w) /\
    map_keys (playbooks w') = map_keys (playbooks w) /\
    (forall k, option_map without_lastRun (map_get String.eqb k (playbooks w')) =
               option_map without_lastRun (map_get String.eqb k (playbooks w))) /\
    (forall n w0, untouched_below n w0 w -> untouched_below n w0 w').
Proof.
  intros fuel v w r w' H. unfold executePlaybooks in H.
  assert (Hacc : forall n i, In i (@nil uuid) ->
                   n <= i /\ registered i (Violation.id v) w)
    by (intros n i []).
  assert (Hframe : forall n w0, untouched_below n w0 w -> untouched_below n w0 w').
  { intros n w0 Hu.
    destruct (executePlaybooks_loop_frame_at n w0 fuel v _ _ _ _ _
                Hu (Hacc n) (NoDup_nil uuid) H) as [Hu' _]. exact Hu'. }
  split.
  { assert (Hself : untouched_below (uuid_next w) w w)
      by (split; [lia|intros id _; reflexivity]).
    apply Hframe in Hself. apply Hself. }
  split.
  { pose proof (executePlaybooks_loop_preserves
                  (fun x => violations x = violations w)) as Hp.
    specialize (Hp (fun x n Hx => Hx) (fun x Hx => Hx) (fun x c Hx => Hx)
                   (fun x h Hx => Hx) (fun x p Hx => Hx)).
    assert (Hm : forall ref f, keeps_identity f ->
                   preserves (fun x => violations x = violations w)
                             (modify_incident ref f)).
    { intros ref f _ x Hx. unfold modify_incident.
      destruct (map_get Nat.eqb ref (incidents x)); exact Hx. }
    assert (Hc : forall v0, preserves (fun x => violations x = violations w)
                                      (createIncidentFromViolation v0)).
    { intros v0 x Hx. exact Hx. }
    specialize (Hp Hm Hc fuel v (map_keys (playbooks w)) [] w eq_refl).
    rewrite H in Hp. exact Hp. }
  destruct (executePlaybooks_loop_ledger _ _ _ _ _ _ _ H)
    as (entries & He & Hids & _ & Hk & Hp).
  split; [exists entries; split; [exact He|exact Hids]|].
  split; [exact Hk|]. split; [exact Hp|exact Hframe].
Qed.

Lemma respond_effect :
  forall G fuel vs mem w mem' w',
    ComplianceAgent.respond G fuel vs mem w = (Ok mem', w') ->
    uuid_next w <= uuid_next w' /\
    violations w' = violations w /\
    (exists entries,
        executionHistory w' = (executionHistory w ++ entries)%list /\
        map ExecutionEntry.playbookId entries =
          flat_map (fun v => triggered_ids v w) vs) /\
    map_keys (playbooks w') = map_keys (playbooks w) /\
    (forall k, option_map without_lastRun (map_get String.eqb k (playbooks w')) =
               option_map without_lastRun (map_get String.eqb k (playbooks w))) /\
    incidents_kept (uuid_next w) w w' /\
    (forall i e, i < uuid_next w ->
                 map_get Nat.eqb i (AgentMemory.memoryStore mem) = Some e ->
                 map_get Nat.eqb i (AgentMemory.memoryStore mem') = Some e) /\
    Forall (fun v => remembered v mem') vs.
Proof.
  intros G fuel vs. induction vs as [|v rest IH]; intros mem w mem' w' H.
  - simpl in H. unfold ret in H. injection H as <- <-.
    split; [lia|]. split; [reflexivity|].
    split; [exists []; rewrite app_nil_r; split; reflexivity|].
    split; [reflexivity|]. split; [reflexivity|].
    split; [intros id _; reflexivity|]. split; [auto|constructor].
  - cbn [ComplianceAgent.respond] in H.
    unfold AgentMemory.storeViolation in H.
    unfold bind at 1 in H. unfold bind at 1 in H. unfold uuidv4 at 1 in H.
    cbv beta iota zeta in H.
    unfold bind at 1 in H. unfold newDate at 1 in H. cbv beta iota in H.
    unfold bind at 1 in H. unfold newDate at 1 in H. cbv beta iota in H.
    unfold ret at 1 in H. cbv beta iota in H.
    unfold bind at 1 in H.
    match type of H with
    | context [executePlaybooks fuel v ?w1] => remember w1 as wm eqn:Hwm
    end.
    destruct (executePlaybooks fuel v wm) as [[r|e|] w2] eqn:Hex;
      try discriminate H.
    cbn [snd AgentMemory.memoryStore] in H.
    destruct (executePlaybooks_effect _ _ _ _ _ Hex)
      as (Hu2 & Hv2 & (en1 & Hh1 & Hid1) & Hk2 & Hp2 & Hf2).
    match type of H with
    | ComplianceAgent.respond _ _ _ ?m _ = _ => remember m as mem1 eqn:Hmem1
    end.
    destruct (IH mem1 w2 mem' w' H)
      as (Hu3 & Hv3 & (en2 & Hh2 & Hid2) & Hk3 & Hp3 & Hi3 & Hm3 & Hr3).
    assert (Hwu : uuid_next wm = S (uuid_next w)) by (subst wm; reflexivity).
    assert (Hwv : violations wm = violations w) by (subst wm; reflexivity).
    assert (Hwp : playbooks wm = playbooks w) by (subst wm; reflexivity).
    assert (Hwi : incidents wm = incidents w) by (subst wm; reflexivity).
    assert (Hwh : executionHistory wm = executionHistory w)
      by (subst wm; reflexivity).
    split; [lia|]. split; [congruence|].
    split.
    { exists (en1 ++ en2)%list. split.
      - rewrite Hh2, Hh1, Hwh, app_assoc. reflexivity.
      - rewrite map_app, Hid1, Hid2. cbn [flat_map]. f_equal.
        + unfold triggered_ids. rewrite Hwp. reflexivity.
        + apply flat_map_ext. intro v'. apply triggered_ids_same.
          * rewrite Hk2, Hwp. reflexivity.
          * intro k. rewrite Hp2, Hwp. reflexivity. }
    split; [rewrite Hk3, Hk2, Hwp; reflexivity|].
    split; [intro k; rewrite Hp3, Hp2, Hwp; reflexivity|].
    split.
    { intros id Hid. rewrite Hi3 by lia.
      assert (Hu : untouched_below (uuid_next w) w wm).
      { split; [lia|]. intros id' _. unfold getIncident. rewrite Hwi.
        reflexivity. }
      apply Hf2 in Hu. apply Hu. exact Hid. }
    assert (Hstep : forall i e, i < uuid_next w ->
               map_get Nat.eqb i (AgentMemory.memoryStore mem) = Some e ->
               map_get Nat.eqb i (AgentMemory.memoryStore mem1) = Some e).
    { intros i e Hi He. subst mem1. cbn [AgentMemory.memoryStore].
      rewrite (map_get_set_other _ _ _ Nat_eqb_eq') by lia. exact He. }
    split.
    { intros i e Hi He. apply Hm3; [lia|]. apply Hstep; assumption. }
    constructor; [|exact Hr3].
    eexists. split.
    { apply (map_get_In_values _ _ Nat.eqb (uuid_next w)).
      apply Hm3; [lia|]. subst mem1. cbn [AgentMemory.memoryStore].
      apply (map_get_set_same _ _ _ Nat_eqb_eq'). }
    cbn [MemoryEntry.type MemoryEntry.metadata MemoryMetadata.violationId
         MemoryMetadata.policyId MemoryMetadata.tags].
    repeat split.
Qed.

Lemma executePlaybooks_loop_readable :
  forall fuel v keys acc w,
    triggers_readable w ->
    triggers_readable (snd (executePlaybooks_loop fuel v keys acc w)).
Proof.
  intros fuel v keys. induction keys as [|key rest IH]; intros acc w Hr;
    cbn [executePlaybooks_loop]; [exact Hr|].
  destruct (map_get String.eqb key (playbooks w)) as [pb|];
    [|apply IH; exact Hr].
  destruct (negb (Playbook.enabled pb)); [apply IH; exact Hr|].
  destruct (shouldTrigger pb v) as [[|]|e|];
    [|apply IH; exact Hr|exact Hr|exact Hr].
  pose proof (executePlaybook_readable fuel key pb v w Hr) as Hr1.
  unfold bind.
  destruct (executePlaybook fuel key pb v w) as [[r|e|] w1]; cbn [snd] in *;
    [apply IH; exact Hr1|exact Hr1|exact Hr1].
Qed.

Lemma storeViolation_returns :
  forall G v mem w,
    exists stored w1,
      AgentMemory.storeViolation G v mem w = (Ok stored, w1) /\
      playbooks w1 = playbooks w.
Proof.
  intros G v mem w.
  unfold AgentMemory.storeViolation, bind, uuidv4, newDate, ret. simpl.
  do 2 eexists. split; reflexivity.
Qed.

Lemma respond_never_throws :
  forall G fuel vs mem w e,
    triggers_readable w ->
    fst (ComplianceAgent.respond G fuel vs mem w) <> Throw e.
Proof.
  intros G fuel vs. induction vs as [|v rest IH]; intros mem w e Hr.
  - simpl. discriminate.
  - cbn [ComplianceAgent.respond].
    destruct (storeViolation_returns G v mem w) as (stored & w1 & Hst & Hpb).
    rewrite (bind_Ok _ _ _ _ _ _ _ Hst).
    assert (Hr1 : triggers_readable w1)
      by (apply (triggers_readable_playbooks w); assumption).
    pose proof (executePlaybooks_never_throws fuel v w1) as Hnt.
    pose proof (executePlaybooks_loop_readable fuel v (map_keys (playbooks w1))
                  [] w1 Hr1) as Hr2.
    fold (executePlaybooks fuel v w1) in Hr2.
    unfold bind.
    destruct (executePlaybooks fuel v w1) as [[r|e'|] w2]; cbn [fst snd] in *.
    + apply IH. exact Hr2.
    + exfalso. apply (Hnt e' Hr1). reflexivity.
    + discriminate.
Qed.

Lemma new_SOARAutomation_readable :
  forall c, triggers_readable (new_SOARAutomation c).
Proof.
  intros c key p Hp _. cbn in Hp.
  repeat match type of Hp with
         | (if ?b then _ else _) = _ => destruct b
         end;
    try discriminate Hp; injection Hp as <-;
    (eexists; split; [reflexivity|]; intros _; discriminate).
Qed.

(** X24. The agent's detection pass, end to end.  [runDetection] of the
    agent never throws, the triggers of the engine's enabled playbooks being
    readable as those of [new SOARAutomation()] are.  When it returns, it returns the detector's
    findings as they are; each of them is still stored in the detector
    exactly as it was reported (the response does not advance its status),
    has an entry of type [violation] in the agent's memory that records its
    identifier, policy and tags, and has been handed to the engine: the
    ledger has grown by one entry per finding and playbook that is enabled
    and triggered by it, finding after finding, in registration order.  The
    incidents that existed before the pass are as they were, and no
    playbook was added, removed or changed but for its [lastRun]. *)
Theorem ComplianceAgent_runDetection_pipeline :
  forall (Number_toString : number -> string)
         (JSON_stringify : forall A : Type, A -> string)
         (generateEmbedding : string -> list number)
         (fuel : nat) (mon : InfrastructureMonitor.t) (policies : list Policy.t)
         (mem : AgentMemory.t) (w : World),
    let run :=
      ComplianceAgent.runDetection Number_toString JSON_stringify
        generateEmbedding fuel mon policies mem w in
    (triggers_readable w -> forall e, fst run <> Throw e) /\
    (forall vs mem' w',
        run = (Ok (vs, mem'), w') ->
        fst (runDetection Number_toString JSON_stringify mon policies w) = Ok vs /\
        Forall (fun v => getViolation (Violation.id v) w' = Some v /\
                         Violation.status v = open /\
                         remembered v mem') vs /\
        (exists entries,
            executionHistory w' = (executionHistory w ++ entries)%list /\
            map ExecutionEntry.playbookId entries =
              flat_map (fun v => triggered_ids v w) vs) /\
        incidents_kept (uuid_next w) w w' /\
        map_keys (playbooks w') = map_keys (playbooks w) /\
        (forall id, option_map without_lastRun (getPlaybook id w') =
                    option_map without_lastRun (getPlaybook id w))).
Proof.
  intros N J G fuel mon policies mem w run. subst run.
  unfold ComplianceAgent.runDetection.
  destruct (runDetection_loop_detected N J mon policies (getAssets mon) [] w)
    as (vs0 & wd & Hdet & Hd & _).
  simpl in Hdet. fold (runDetection N J mon policies w) in Hdet.
  rewrite (bind_Ok _ _ _ _ _ _ _ Hdet).
  split.
  - intros Hr e He. unfold bind in He.
    assert (Hrd : triggers_readable wd).
    { apply (triggers_readable_playbooks w); [|exact Hr].
      destruct Hd as (_ & _ & _ & Hpd & _). exact Hpd. }
    pose proof (respond_never_throws G fuel vs0 mem wd) as Hn.
    destruct (ComplianceAgent.respond G fuel vs0 mem wd) as [[m|e'|] w2];
      simpl in He; try discriminate He.
    injection He as ->. apply (Hn e Hrd). reflexivity.
  - intros vs mem' w' H. unfold bind in H.
    destruct (ComplianceAgent.respond G fuel vs0 mem wd) as [[m|e'|] w2] eqn:Hr;
      try discriminate H.
    unfold ret in H. injection H as <- <- <-.
    destruct (respond_effect _ _ _ _ _ _ _ Hr)
      as (Hu & Hv & (en & Hh & Hid) & Hk & Hp & Hi & _ & Hrem).
    pose proof (detected_stored _ _ _ Hd) as Hs.
    destruct Hd as (_ & Hud & _ & Hpd & Hid' & Hhd & Ho).
    split; [rewrite Hdet; reflexivity|]. split.
    { rewrite Forall_forall in *. intros v Hin.
      destruct (Hs v Hin) as [Hg _]. unfold getViolation in *. rewrite Hv.
      auto. }
    split.
    { exists en. split; [rewrite Hh, Hhd; reflexivity|]. rewrite Hid.
      apply flat_map_ext. intro v. unfold triggered_ids. rewrite Hpd.
      reflexivity. }
    split.
    { intros id Hlt. rewrite Hi by lia. unfold getIncident. rewrite Hid'.
      reflexivity. }
    split; [rewrite Hk, Hpd; reflexivity|].
    intro id. unfold getPlaybook. rewrite Hp, Hpd. reflexivity.
Qed.

Lemma ComplianceAgent_runDetection_pipeline_witness :
  (forall e,
      fst (ComplianceAgent.runDetection (fun _ => "0") (fun _ _ => "{}")
             (fun _ => []) 10 a_monitor [] AgentMemory.empty
             (new_SOARAutomation ticking_clock)) <> Throw e) /\
  exists vs mem' w',
    ComplianceAgent.runDetection (fun _ => "0") (fun _ _ => "{}") (fun _ => [])
      10 a_monitor [] AgentMemory.empty (new_SOARAutomation ticking_clock) =
      (Ok (vs, mem'), w') /\
    map Violation.title vs =
      [malicious_ip_title; tor_exit_title; missing_dmarc_title] /\
    map ExecutionEntry.playbookId (executionHistory w') =
      ["critical-alert"; "cert-expiry-alert";
       "high-severity-response"; "cert-expiry-alert";
       "high-severity-response"; "cert-expiry-alert"] /\
    Forall (fun v => getViolation (Violation.id v) w' = Some v) vs.
Proof.
  destruct (ComplianceAgent_runDetection_pipeline (fun _ => "0")
              (fun _ _ => "{}") (fun _ => []) 10 a_monitor [] AgentMemory.empty
              (new_SOARAutomation ticking_clock)) as [Hnt Hok].
  split; [exact (Hnt (new_SOARAutomation_readable ticking_clock))|].
  assert (H : exists vs mem' w',
             ComplianceAgent.runDetection (fun _ => "0") (fun _ _ => "{}")
               (fun _ => []) 10 a_monitor [] AgentMemory.empty
               (new_SOARAutomation ticking_clock) = (Ok (vs, mem'), w') /\
             map Violation.title vs =
               [malicious_ip_title; tor_exit_title; missing_dmarc_title] /\
             map ExecutionEntry.playbookId (executionHistory w') =
               ["critical-alert"; "cert-expiry-alert";
                "high-severity-response"; "cert-expiry-alert";
                "high-severity-response"; "cert-expiry-alert"]).
  { vm_compute. do 3 eexists. repeat split. }
  destruct H as (vs & mem' & w' & H & Ht & Hh).
  exists vs, mem', w'. split; [exact H|]. split; [exact Ht|].
  split; [exact Hh|].
  destruct (Hok vs mem' w' H) as (_ & Hst & _).
  rewrite Forall_forall in *. intros v Hin. apply Hst. exact Hin.
Defined.

(** ** Which runs return an incident *)

Lemma run_step_no_create :
  forall step v w o w1,
    ~ is_create_incident step ->
    run_step step v None w = (o, w1) ->
    incidents w1 = incidents w /\
    (forall next, o = Ok next -> snd next = None).
Proof.
  intros step v w o w1 Hno H.
  unfold run_step, executeStep, creates_incident, executeAction,
    executeNotification, executeDelay, executeCondition, executeRemediation,
    step_config in H.
  destruct (PlaybookStep.type step) eqn:Hty;
    destruct (PlaybookStep.config step) as [cfg|] eqn:Hcfg;
    unfold bind, ret, throw, console_log in H; cbv beta iota in H.
  all: try (injection H as <- <-; split; [reflexivity|];
            intros next Hn; try discriminate Hn;
            injection Hn as <-; reflexivity).
  - destruct (StepConfig.action cfg) as [[]|] eqn:Hact;
      cbv beta iota in H;
      try (injection H as <- <-; split; [reflexivity|];
           intros next Hn; injection Hn as <-; reflexivity).
    exfalso. apply Hno. split; [exact Hty|]. exists cfg. auto.
  - destruct (StepConfig.condition cfg) as [cond|]; cbv beta iota in H.
    + destruct (String.eqb (Condition.field cond) "acknowledged");
        [|destruct (String.eqb (Condition.field cond) "severity")];
        cbv beta iota in H; injection H as <- <-;
        (split; [reflexivity|]); intros next Hn; injection Hn as <-;
        reflexivity.
    + injection H as <- <-. split; [reflexivity|].
      intros next Hn. injection Hn as <-. reflexivity.
  - destruct (StepConfig.delay cfg); cbv beta iota in H;
      injection H as <- <-; (split; [reflexivity|]);
      intros next Hn; injection Hn as <-; reflexivity.
  - destruct (StepConfig.notification cfg) as [n|]; cbv beta iota in H.
    + destruct (Notification.template n); cbv beta iota in H.
      * destruct (Notification.channel n);
          try destruct (Notification.recipients n);
          cbv beta iota in H; injection H as <- <-;
          (split; [reflexivity|]); intros next Hn; try discriminate Hn;
          injection Hn as <-; reflexivity.
      * injection H as <- <-. split; [reflexivity|].
        intros next Hn. discriminate Hn.
    + injection H as <- <-. split; [reflexivity|].
      intros next Hn. injection Hn as <-. reflexivity.
  - destruct (StepConfig.remediation cfg); cbv beta iota in H;
      injection H as <- <-; (split; [reflexivity|]);
      intros next Hn; injection Hn as <-; reflexivity.
Qed.

Lemma run_steps_no_create :
  forall pb v,
    (forall s, In s (steps_of pb) -> ~ is_create_incident s) ->
    forall fuel cur w o w1,
      run_steps fuel pb v cur None w = (o, w1) ->
      incidents w1 = incidents w /\ (forall r, o = Ok r -> r = None).
Proof.
  intros pb v Hno fuel. induction fuel as [|fuel IH]; intros cur w o w1 H;
    cbn [run_steps] in H;
    destruct (current_step pb cur) as [step|] eqn:Hc.
  - injection H as <- <-. split; [reflexivity|]. intros r Hr. discriminate Hr.
  - injection H as <- <-. split; [reflexivity|].
    intros r Hr. injection Hr as <-. reflexivity.
  - destruct (current_step_inv _ _ _ Hc) as (sid & _ & Hin & _).
    unfold bind in H.
    destruct (run_step step v None w) as [[next|e|] w2] eqn:Hs.
    + destruct (run_step_no_create _ _ _ _ _ (Hno step Hin) Hs) as [Hi Hn].
      rewrite (Hn next eq_refl) in H.
      destruct (IH _ _ _ _ H) as [Hi' Hr]. split; [congruence|exact Hr].
    + destruct (run_step_no_create _ _ _ _ _ (Hno step Hin) Hs) as [Hi _].
      injection H as <- <-. split; [exact Hi|]. intros r Hr. discriminate Hr.
    + destruct (run_step_no_create _ _ _ _ _ (Hno step Hin) Hs) as [Hi _].
      injection H as <- <-. split; [exact Hi|]. intros r Hr. discriminate Hr.
  - injection H as <- <-. split; [reflexivity|].
    intros r Hr. injection Hr as <-. reflexivity.
Qed.

Lemma run_from_first_no_create :
  forall pb v,
    (forall s, In s (steps_of pb) -> ~ is_create_incident s) ->
    forall fuel w o w1,
      run_from_first fuel pb v w = (o, w1) ->
      incidents w1 = incidents w /\ (forall r, o = Ok r -> r = None).
Proof.
  intros pb v Hno fuel w o w1 H. unfold run_from_first in H.
  destruct (Playbook.steps pb).
  - apply (run_steps_no_create pb v Hno _ _ _ _ _ H).
  - injection H as <- <-. split; [reflexivity|]. intros r Hr. discriminate Hr.
Qed.

Lemma run_step_stays_bound :
  forall step v i w next w1,
    run_step step v (Some i) w = (Ok next, w1) ->
    exists j, snd next = Some j.
Proof.
  intros step v i w next w1 H.
  unfold run_step, creates_incident, step_config in H.
  unfold bind at 1 in H.
  destruct (executeStep step v (Some i) w) as [[r|e|] w2] eqn:He;
    try discriminate H.
  destruct (PlaybookStep.type step) eqn:Hty;
    try (unfold bind, ret in H; injection H as <- _; exists i; reflexivity).
  destruct (PlaybookStep.config step) as [cfg|] eqn:Hcfg;
    [|unfold bind, throw in H; discriminate H].
  unfold bind, ret in H. injection H as <- _. cbn [snd].
  destruct (StepConfig.action cfg) as [[]|] eqn:Hact;
    try (exists i; reflexivity).
  unfold executeStep in He. rewrite Hty in He.
  unfold executeAction, step_config in He. rewrite Hcfg in He.
  unfold bind at 1 in He. unfold ret at 1 in He. cbv beta iota in He.
  rewrite Hact in He.
  destruct (createIncidentFromViolation_registers v w) as [Hf _].
  unfold bind in He.
  destruct (createIncidentFromViolation v w) as [[n|e|] w3];
    simpl in Hf; try discriminate Hf.
  unfold ret in He. injection He as <- _. exists n. reflexivity.
Qed.

Lemma run_steps_stays_bound :
  forall pb v fuel cur i w r w1,
    run_steps fuel pb v cur (Some i) w = (Ok r, w1) ->
    exists j, r = Some j.
Proof.
  intros pb v fuel. induction fuel as [|fuel IH]; intros cur i w r w1 H;
    cbn [run_steps] in H;
    destruct (current_step pb cur) as [step|] eqn:Hc;
    try discriminate H;
    try (injection H as <- _; exists i; reflexivity).
  unfold bind in H.
  destruct (run_step step v (Some i) w) as [[next|e|] w2] eqn:Hs;
    try discriminate H.
  destruct (run_step_stays_bound _ _ _ _ _ _ Hs) as [j Hj].
  rewrite Hj in H. apply (IH _ _ _ _ _ H).
Qed.

Lemma first_step_current :
  forall pb s rest,
    Playbook.steps pb = Some (s :: rest) -> PlaybookStep.id s <> "" ->
    current_step pb (first_step_id pb) = Some s.
Proof.
  intros pb s rest Hs Hid.
  unfold first_step_id, current_step, find_step, steps_of.
  rewrite Hs. simpl.
  destruct (String.eqb (PlaybookStep.id s) "") eqn:E.
  - apply String.eqb_eq in E. contradiction.
  - simpl. rewrite String.eqb_refl. reflexivity.
Qed.

(** X25. Which runs return an incident.  A playbook none of whose steps is
    a [create_incident] action never returns an incident and never touches
    the incident store, whatever its other steps are: [update_status],
    [assign] and [escalate] find no incident bound.  A playbook whose first
    step is a [create_incident] action (with a non-empty step id) returns
    an incident from every run that completes: once an incident is bound
    the run stays bound, and the incident returned was created during the
    run and records the violation. *)
Theorem executePlaybook_incident_iff_created :
  forall (fuel : nat) (key : string) (pb : Playbook.t) (v : Violation.t)
         (w : World),
    ((forall s, In s (steps_of pb) -> ~ is_create_incident s) ->
     (fst (executePlaybook fuel key pb v w) = Ok None \/
      fst (executePlaybook fuel key pb v w) = Diverge) /\
     incidents (snd (executePlaybook fuel key pb v w)) = incidents w) /\
    (forall s rest r w1,
        Playbook.steps pb = Some (s :: rest) ->
        is_create_incident s ->
        PlaybookStep.id s <> "" ->
        run_from_first fuel pb v w = (Ok r, w1) ->
        exists i w',
          executePlaybook fuel key pb v w = (Ok (Some i), w') /\
          uuid_next w <= i /\
          registered i (Violation.id v) w').
Proof.
  intros fuel key pb v w. split.
  - intro Hno.
    destruct (run_from_first fuel pb v w) as [o w1] eqn:Hr.
    destruct (run_from_first_no_create pb v Hno _ _ _ _ Hr) as [Hi Hn].
    destruct (executePlaybook fuel key pb v w) as [o' w'] eqn:Hex.
    cbn [fst snd].
    unfold executePlaybook, try_catch, run_playbook in Hex.
    unfold bind at 1 in Hex. rewrite Hr in Hex. destruct o as [r|e|].
    + rewrite (Hn r eq_refl) in Hex.
      unfold bind, newDate, push_history, assign_lastRun, ret in Hex.
      world_simpl.
      destruct (map_get String.eqb key (playbooks w1));
        injection Hex as <- <-; world_simpl; auto.
    + rewrite run_failed_result in Hex. injection Hex as <- <-.
      world_simpl. auto.
    + injection Hex as <- <-. auto.
  - intros s rest r w1 Hs Hc Hid Hr.
    assert (Hcur := first_step_current pb s rest Hs Hid).
    rewrite (run_from_first_steps _ _ _ _ _ Hs) in Hr.
    destruct fuel as [|fuel]; cbn [run_steps] in Hr; rewrite Hcur in Hr;
      [discriminate Hr|].
    destruct (run_step_create_incident s v None w Hc) as [_ Hstep].
    rewrite (bind_Ok _ _ _ _ _ _ _ Hstep) in Hr. cbn [fst snd] in Hr.
    destruct (run_steps_stays_bound _ _ _ _ _ _ _ _ Hr) as [j ->].
    assert (Hu : untouched_below (uuid_next w) w w)
      by (split; [lia|intros id _; reflexivity]).
    destruct (executePlaybook_frame (uuid_next w) w (S fuel) key pb v w Hu)
      as [_ Hreg].
    assert (Hex : exists w', executePlaybook (S fuel) key pb v w = (Ok (Some j), w')).
    { unfold executePlaybook, try_catch, run_playbook. unfold bind at 1.
      rewrite (run_from_first_steps _ _ _ _ _ Hs).
      cbn [run_steps]. rewrite Hcur.
      rewrite (bind_Ok _ _ _ _ _ _ _ Hstep). cbn [fst snd]. rewrite Hr.
      unfold bind, newDate, push_history, assign_lastRun, ret. world_simpl.
      destruct (map_get String.eqb key (playbooks w1)); eexists; reflexivity. }
    destruct Hex as [w' Hex]. exists j, w'. split; [exact Hex|].
    rewrite Hex in Hreg. apply (Hreg j). reflexivity.
Qed.

Lemma executePlaybook_incident_iff_created_witness :
  exists i w',
    executePlaybook 5 "critical-alert" critical_alert
      (a_violation critical certificate) (new_SOARAutomation ticking_clock) =
      (Ok (Some i), w') /\
    registered i 7 w'.
Proof.
  destruct (executePlaybook_incident_iff_created 5 "critical-alert"
              critical_alert (a_violation critical certificate)
              (new_SOARAutomation ticking_clock)) as [_ H].
  assert (Hr : exists r w1,
             run_from_first 5 critical_alert
                                   (a_violation critical certificate)
                                   (new_SOARAutomation ticking_clock) = (Ok r, w1)).
  { vm_compute. do 2 eexists. reflexivity. }
  destruct Hr as (r & w1 & Hr).
  assert (Hc : is_create_incident
                 (PlaybookStep.mk "step-1" "Create Incident" st_action
                    (action_config create_incident) (Some "step-2")
                    (Some "end"))).
  { split; [reflexivity|]. eexists. split; reflexivity. }
  assert (Hid : PlaybookStep.id
                  (PlaybookStep.mk "step-1" "Create Incident" st_action
                     (action_config create_incident) (Some "step-2")
                     (Some "end")) <> "").
  { simpl. discriminate. }
  destruct (H _ _ r w1 eq_refl Hc Hid Hr) as (i & w' & Hex & _ & Hreg).
  exists i, w'. split; [exact Hex|exact Hreg].
Defined.

Lemma map_set_length_le :
  forall (K V : Type) (eqb : K -> K -> bool) (k : K) (v : V) (m : jsmap K V),
    List.length (map_set eqb k v m) >= List.length m.
Proof.
  intros K V eqb k v m. rewrite map_set_length.
  destruct (map_get eqb k m); simpl; lia.
Qed.

(** X26. A [create_incident] step always opens a new incident and makes it
    the incident of the run, whether or not one was bound already.  The
    incident bound before stays in the store exactly as it was, but the run
    no longer refers to it: the remaining steps act on the new one, and
    [executePlaybook] returns the new one only. *)
Theorem create_incident_rebinds :
  forall (step : PlaybookStep.t) (v : Violation.t) (inc : option uuid)
         (w : World),
    is_create_incident step ->
    (forall i, inc = Some i -> i < uuid_next w) ->
    exists w',
      run_step step v inc w =
        (Ok (PlaybookStep.onSuccess step, Some (uuid_next w)), w') /\
      Some (uuid_next w) <> inc /\
      registered (uuid_next w) (Violation.id v) w' /\
      incidents_kept (uuid_next w) w w' /\
      List.length (getAllIncidents w') >= List.length (getAllIncidents w).
Proof.
  intros step v inc w Hc Hinc.
  destruct (run_step_create_incident step v inc w Hc) as [_ Hs].
  destruct (createIncidentFromViolation_registers v w) as [_ Hreg].
  eexists. split; [exact Hs|]. split.
  { intro E. specialize (Hinc _ (eq_sym E)). lia. }
  split; [exact Hreg|]. split.
  - intros id Hid.
    unfold getIncident, createIncidentFromViolation, bind, uuidv4, newDate.
    simpl. apply (map_get_set_other _ _ _ Nat_eqb_eq'). lia.
  - unfold getAllIncidents, map_values, createIncidentFromViolation, bind,
      uuidv4, newDate. cbn [snd]. world_simpl. rewrite !length_map.
    apply map_set_length_le.
Qed.

Lemma create_incident_rebinds_witness :
  fst (executePlaybooks 5 (a_violation low ip) with_opened_twice) = Ok [2] /\
  List.length
    (getAllIncidents (snd (executePlaybooks 5 (a_violation low ip)
                                            with_opened_twice))) = 2 /\
  exists w',
    run_step (PlaybookStep.mk "second" "Create Incident Again" st_action
                (action_config create_incident) None None)
             (a_violation low ip) (Some 0)
             (snd (createIncidentFromViolation (a_violation low ip)
                                               with_opened_twice)) =
      (Ok (None, Some 2), w') /\
    Some 2 <> Some 0.
Proof.
  split; [vm_compute; reflexivity|]. split; [vm_compute; reflexivity|].
  assert (Hc : is_create_incident
                 (PlaybookStep.mk "second" "Create Incident Again" st_action
                    (action_config create_incident) None None)).
  { split; [reflexivity|]. eexists. split; reflexivity. }
  assert (Hb : forall i, Some 0 = Some i ->
                 i < uuid_next (snd (createIncidentFromViolation
                                       (a_violation low ip) with_opened_twice))).
  { intros i Hi. injection Hi as <-. change (0 < 2). lia. }
  destruct (create_incident_rebinds _ (a_violation low ip) (Some 0) _ Hc Hb)
    as (w' & Hs & Hne & _).
  exists w'. split; [exact Hs|exact Hne].
Defined.

(** ** What a finding carries *)

(** X27. What every finding of [checkAsset] carries.  Its policy is linked
    on a best-effort basis: the identifier of the first policy of the
    framework the check looks for ([CUSTOM] for addresses, [SOC2] for
    domains and certificates), or ["system"] when there is none or its
    identifier is empty; the finding for an invalid certificate is always
    filed under ["system"], whatever policies exist.  It carries one piece
    of evidence, of the kind of its asset type, one remediation action,
    manual and pending, no [resolvedAt], and the asset's identifier both as
    [assetId] and as [assetIdentifier]. *)
Theorem checkAsset_finding_shape :
  forall (Number_toString : number -> string)
         (JSON_stringify : forall A : Type, A -> string)
         (mon : InfrastructureMonitor.t) (identifier : string)
         (type : AssetType) (policies : list Policy.t) (w : World),
    exists vs w',
      checkAsset Number_toString JSON_stringify mon identifier type policies w =
        (Ok vs, w') /\
      Forall
        (fun v =>
           Violation.policyId v =
             (if String.eqb (Violation.title v) invalid_title then "system"
              else or_default
                     (option_map Policy.id
                        (find (fun p => ComplianceFramework_eqb
                                          (Policy.framework p)
                                          (linked_framework type)) policies))
                     "system") /\
           map ViolationEvidence.type (Violation.evidence v) =
             [evidence_kind type] /\
           map RemediationAction.type (Violation.remediation v) = [manual] /\
           map RemediationAction.status (Violation.remediation v) = [pending] /\
           Violation.resolvedAt v = None /\
           Violation.assetType v = type /\
           Violation.assetId v = Violation.assetIdentifier v)
        vs.
Proof.
  intros N J mon identifier type policies w. unfold checkAsset.
  destruct type.
  - destruct (getDomainInfo identifier mon) as [d|]; unfold checkDomain;
      [destruct (DomainSecurity.hasSPF
                   (checkDomainSecurity (DomainRecord.domain d) mon));
       destruct (DomainSecurity.hasDMARC
                   (checkDomainSecurity (DomainRecord.domain d) mon))|];
      cbn [negb]; run_checks; unfold store_violations; cbv beta iota;
      do 2 eexists; (split; [reflexivity|]);
      repeat (constructor; [repeat split|]); constructor.
  - destruct (getIPInfo identifier mon) as [i|]; unfold checkIP;
      [destruct (Reputation_eqb (IPRecord.reputation i) rep_malicious);
       destruct (IPRecord.isTor i)|];
      run_checks; unfold store_violations; cbv beta iota;
      do 2 eexists; (split; [reflexivity|]);
      repeat (constructor; [repeat split|]); constructor.
  - destruct (getCertificateInfo identifier mon) as [c|];
      unfold checkCertificate;
      [destruct (ExpiryCheck.isExpiring (checkCertificateExpiry c));
       destruct (CertificateInfo.isValid c)|];
      cbn [negb]; run_checks; unfold store_violations; cbv beta iota;
      do 2 eexists; (split; [reflexivity|]);
      repeat (constructor; [repeat split|]); constructor.
  - do 2 eexists. split; [reflexivity|]. constructor.
Qed.

(** ** Condition steps: the value compared *)

Lemma strict_eq_str_iff :
  forall s v, strict_eq (VStr s) v = true <-> v = VStr s.
Proof.
  intros s [| |b|n|s'|r]; simpl; split; intro H; try congruence.
  - apply String.eqb_eq in H. congruence.
  - injection H as ->. apply String.eqb_refl.
Qed.

Lemma strict_eq_undefined_iff :
  forall v, strict_eq VUndefined v = true <-> v = VUndefined.
Proof.
  intros [| |b|n|s'|r]; simpl; split; intro H; congruence.
Qed.

Lemma strict_eq_bool_iff :
  forall b v, strict_eq (VBool b) v = true <-> v = VBool b.
Proof.
  intros b [| |b'|n|s'|r]; simpl; split; intro H; try congruence.
  - apply Bool.eqb_prop in H. congruence.
  - injection H as ->. apply Bool.eqb_reflx.
Qed.

(** X28. What a condition step compares.  The step reads and changes
    nothing.  On the field [severity] it succeeds exactly when the
    configured literal is the violation's severity as a string; on
    [acknowledged], with an incident bound, exactly when the literal is the
    boolean telling whether that incident has a non-empty assignee; on any
    other field exactly when the literal is [undefined].  The comparison is
    [===]: the configured [operator] is never read, so a step configured as
    [not_equals] or [contains] behaves as [equals]. *)
Theorem executeCondition_resolves :
  forall (step : PlaybookStep.t) (cfg : StepConfig.t) (cond : Condition.t)
         (v : Violation.t) (inc : option uuid) (w : World),
    PlaybookStep.config step = Some cfg ->
    StepConfig.condition cfg = Some cond ->
    exists b,
      executeCondition step v inc w = (Ok (mkResult b None), w) /\
      (Condition.field cond = "severity" ->
       (b = true <->
        Condition.value cond = VStr (SeverityLevel_str (Violation.severity v)))) /\
      (Condition.field cond = "acknowledged" ->
       forall i bound,
         inc = Some i -> getIncident i w = Some bound ->
         (b = true <->
          Condition.value cond = VBool (truthy_str (Incident.assignee bound)))) /\
      (Condition.field cond <> "severity" ->
       Condition.field cond <> "acknowledged" ->
       (b = true <-> Condition.value cond = VUndefined)) /\
      (forall operator,
          executeCondition
            (PlaybookStep.mk (PlaybookStep.id step) (PlaybookStep.name step)
               (PlaybookStep.type step)
               (Some (StepConfig.mk (StepConfig.action cfg)
                        (StepConfig.notification cfg)
                        (StepConfig.remediation cfg)
                        (Some (Condition.mk (Condition.field cond) operator
                                            (Condition.value cond)))
                        (StepConfig.delay cfg)))
               (PlaybookStep.onSuccess step) (PlaybookStep.onFailure step))
            v inc w = executeCondition step v inc w).
Proof.
  intros step cfg cond v inc w Hcfg Hcond.
  assert (Hop : forall operator,
             executeCondition
               (PlaybookStep.mk (PlaybookStep.id step) (PlaybookStep.name step)
                  (PlaybookStep.type step)
                  (Some (StepConfig.mk (StepConfig.action cfg)
                           (StepConfig.notification cfg)
                           (StepConfig.remediation cfg)
                           (Some (Condition.mk (Condition.field cond) operator
                                               (Condition.value cond)))
                           (StepConfig.delay cfg)))
                  (PlaybookStep.onSuccess step) (PlaybookStep.onFailure step))
               v inc w = executeCondition step v inc w).
  { intro operator. unfold executeCondition, step_config.
    cbn [PlaybookStep.config]. rewrite Hcfg. unfold bind, ret.
    cbv beta iota.
    cbn [StepConfig.condition Condition.field Condition.value].
    rewrite Hcond. reflexivity. }
  assert (Hmain : exists b,
             executeCondition step v inc w = (Ok (mkResult b None), w) /\
             (Condition.field cond = "severity" ->
              (b = true <->
               Condition.value cond =
               VStr (SeverityLevel_str (Violation.severity v)))) /\
             (Condition.field cond = "acknowledged" ->
              forall i bound,
                inc = Some i -> getIncident i w = Some bound ->
                (b = true <->
                 Condition.value cond =
                 VBool (truthy_str (Incident.assignee bound)))) /\
             (Condition.field cond <> "severity" ->
              Condition.field cond <> "acknowledged" ->
              (b = true <-> Condition.value cond = VUndefined))).
  { unfold executeCondition, step_config. rewrite Hcfg.
    unfold bind at 1. unfold ret at 1. cbv beta iota. rewrite Hcond.
    destruct (String.eqb (Condition.field cond) "acknowledged") eqn:Ea.
    - apply String.eqb_eq in Ea. destruct inc as [i|].
      + unfold bind, read_incident, ret. cbv beta iota.
        eexists. split; [reflexivity|]. split; [|split].
        * intro Hf. rewrite Hf in Ea. discriminate Ea.
        * intros _ i' bound Hi Hb. injection Hi as <-.
          unfold getIncident in Hb. rewrite Hb. apply strict_eq_bool_iff.
        * intros _ Hn. contradiction.
      + unfold bind, ret. cbv beta iota.
        eexists. split; [reflexivity|]. split; [|split].
        * intro Hf. rewrite Hf in Ea. discriminate Ea.
        * intros _ i' bound Hi. discriminate Hi.
        * intros _ Hn. contradiction.
    - destruct (String.eqb (Condition.field cond) "severity") eqn:Es;
        unfold bind, ret; cbv beta iota;
        eexists; (split; [reflexivity|]); (split; [|split]).
      + intros _. apply strict_eq_str_iff.
      + intro Hf. rewrite Hf in Ea. discriminate Ea.
      + intro Hn. apply String.eqb_eq in Es. contradiction.
      + intro Hf. rewrite Hf in Es. discriminate Es.
      + intro Hf. rewrite Hf in Ea. discriminate Ea.
      + intros _ _. apply strict_eq_undefined_iff. }
  destruct Hmain as (b & H1 & H2 & H3 & H4).
  exists b. split; [exact H1|]. split; [exact H2|]. split; [exact H3|].
  split; [exact H4|exact Hop].
Qed.

Lemma executeCondition_resolves_witness :
  executeCondition (severity_is (VStr "high")) (a_violation high domain) None
                   (boot frozen_clock) =
    (Ok (mkResult true None), boot frozen_clock) /\
  executeCondition (severity_is (VStr "High")) (a_violation high domain) None
                   (boot frozen_clock) =
    (Ok (mkResult false None), boot frozen_clock).
Proof.
  destruct (executeCondition_resolves (severity_is (VStr "high"))
              (StepConfig.mk None None None
                 (Some (Condition.mk "severity" "equals" (VStr "high"))) None)
              (Condition.mk "severity" "equals" (VStr "high"))
              (a_violation high domain) None (boot frozen_clock)
              eq_refl eq_refl) as (b & H & Hs & _).
  destruct (executeCondition_resolves (severity_is (VStr "High"))
              (StepConfig.mk None None None
                 (Some (Condition.mk "severity" "equals" (VStr "High"))) None)
              (Condition.mk "severity" "equals" (VStr "High"))
              (a_violation high domain) None (boot frozen_clock)
              eq_refl eq_refl) as (b' & H' & Hs' & _).
  split.
  - rewrite H. destruct (Hs eq_refl) as [_ Hb]. rewrite (Hb eq_refl).
    reflexivity.
  - rewrite H'. destruct b'; [|reflexivity].
    destruct (Hs' eq_refl) as [Hb _]. specialize (Hb eq_refl).
    discriminate Hb.
Defined.

(** ** Steps that cannot fail *)

Lemma only_printed_refl : forall w, only_printed w w.
Proof.
  intro w. unfold only_printed. repeat split.
  exists []. rewrite app_nil_r. split; [reflexivity|simpl; lia].
Qed.

Lemma only_printed_line :
  forall w l, only_printed w (set_console (console w ++ [l]) w).
Proof.
  intros w l. unfold only_printed. world_simpl. repeat split.
  exists [l]. split; [reflexivity|simpl; lia].
Qed.

(** X29. Notification, delay, remediation steps and steps of a type the
    engine does not know are fire-and-forget.  Their handlers print at most
    one line and change nothing else: no incident, playbook, ledger entry
    or violation, no identifier and no clock reading.  They report failure
    only when the part of [config] they read is missing, so with it in
    place the [onFailure] transition of such a step is never taken; a
    notification for an unknown channel prints nothing and still succeeds,
    and a step of unknown type succeeds without reading its [config].  They
    throw only when the step has no [config], or is a notification without
    [template], or one for slack or email without [recipients]. *)
Theorem executeStep_fire_and_forget :
  forall (step : PlaybookStep.t) (v : Violation.t) (inc : option uuid)
         (w : World),
    PlaybookStep.type step <> st_action ->
    PlaybookStep.type step <> st_condition ->
    only_printed w (snd (executeStep step v inc w)) /\
    match fst (executeStep step v inc w) with
    | Ok r => data r = None /\ (ok r = false -> section_missing step)
    | Throw e => snd (executeStep step v inc w) = w /\ malformed step
    | Diverge => False
    end /\
    (forall tag, PlaybookStep.type step = st_unknown tag ->
                 executeStep step v inc w = (Ok (mkResult true None), w)) /\
    (forall cfg n template tag,
        PlaybookStep.type step = st_notification ->
        PlaybookStep.config step = Some cfg ->
        StepConfig.notification cfg = Some n ->
        Notification.template n = Some template ->
        Notification.channel n = ch_unknown tag ->
        executeStep step v inc w = (Ok (mkResult true None), w)).
Proof.
  intros step v inc w Hna Hnc.
  assert (Hlast : forall cfg n template tag,
             PlaybookStep.type step = st_notification ->
             PlaybookStep.config step = Some cfg ->
             StepConfig.notification cfg = Some n ->
             Notification.template n = Some template ->
             Notification.channel n = ch_unknown tag ->
             executeStep step v inc w = (Ok (mkResult true None), w)).
  { intros cfg n template tag Hty Hcfg Hn Ht Hch.
    unfold executeStep, executeNotification, step_config.
    rewrite Hty, Hcfg. unfold bind at 1. unfold ret at 1. cbv beta iota.
    rewrite Hn, Ht, Hch. unfold bind, read_incident, ret.
    destruct inc; reflexivity. }
  assert (Hunknown : forall tag, PlaybookStep.type step = st_unknown tag ->
             executeStep step v inc w = (Ok (mkResult true None), w)).
  { intros tag Hty. unfold executeStep. rewrite Hty. reflexivity. }
  split; [|split; [|split; [exact Hunknown|exact Hlast]]].
  - unfold executeStep, executeNotification, executeDelay, executeRemediation,
      step_config.
    destruct (PlaybookStep.type step) eqn:Hty; try contradiction;
      try apply only_printed_refl;
      destruct (PlaybookStep.config step) as [cfg|];
      unfold bind, ret, throw, console_log, read_incident; cbv beta iota;
      try apply only_printed_refl.
    + destruct (StepConfig.delay cfg); cbn [snd];
        [apply only_printed_line|apply only_printed_refl].
    + destruct (StepConfig.notification cfg) as [n|]; cbn [snd];
        [|apply only_printed_refl].
      destruct (Notification.template n); cbn [snd];
        [|apply only_printed_refl].
      destruct inc; destruct (Notification.channel n);
        try destruct (Notification.recipients n); cbn [snd];
        first [apply only_printed_line|apply only_printed_refl].
    + destruct (StepConfig.remediation cfg); cbn [snd];
        [apply only_printed_line|apply only_printed_refl].
  - unfold executeStep, executeNotification, executeDelay, executeRemediation,
      step_config, section_missing, malformed.
    destruct (PlaybookStep.type step) eqn:Hty; try contradiction;
      try (cbn [fst snd data ok]; split; [reflexivity|discriminate]);
      destruct (PlaybookStep.config step) as [cfg|] eqn:Hcfg;
      unfold bind, ret, throw, console_log, read_incident; cbv beta iota;
      try (cbn [fst snd]; split; [reflexivity|left; reflexivity]).
    + destruct (StepConfig.delay cfg) eqn:Hd; cbn [fst snd data ok];
        (split; [reflexivity|]); intro H; try discriminate H.
      exists cfg. auto.
    + destruct (StepConfig.notification cfg) as [n|] eqn:Hn;
        cbn [fst snd data ok].
      * destruct (Notification.template n) eqn:Ht; cbn [fst snd].
        -- destruct inc; destruct (Notification.channel n) eqn:Hch;
             try destruct (Notification.recipients n) eqn:Hr;
             cbn [fst snd data ok];
             try (split; [reflexivity|discriminate]);
             (split; [reflexivity|]); right; exists cfg, n;
             repeat split; auto.
        -- split; [reflexivity|]. right. exists cfg, n. repeat split; auto.
      * split; [reflexivity|]. intros _. exists cfg. auto.
    + destruct (StepConfig.remediation cfg) eqn:Hd; cbn [fst snd data ok];
        (split; [reflexivity|]); intro H; try discriminate H.
      exists cfg. auto.
Qed.

Lemma executeStep_fire_and_forget_witness :
  executeStep carrier_pigeon (a_violation high ip) None (boot ticking_clock) =
    (Ok (mkResult true None), boot ticking_clock).
Proof.
  assert (Ha : PlaybookStep.type carrier_pigeon <> st_action)
    by (simpl; discriminate).
  assert (Hc : PlaybookStep.type carrier_pigeon <> st_condition)
    by (simpl; discriminate).
  destruct (executeStep_fire_and_forget carrier_pigeon (a_violation high ip)
              None (boot ticking_clock) Ha Hc) as (_ & _ & _ & H).
  exact (H _ _ _ _ eq_refl eq_refl eq_refl eq_refl eq_refl).
Defined.

(** ** Actions on the bound incident *)

Lemma modify_incident_at :
  forall ref f w i,
    map_get Nat.eqb ref (incidents w) = Some i ->
    modify_incident ref f w =
      (Ok tt, set_incidents (map_set Nat.eqb ref (f i) (incidents w)) w).
Proof.
  intros ref f w i H. unfold modify_incident. rewrite H. reflexivity.
Qed.

Lemma modify_chain :
  forall ref f w i,
    map_get Nat.eqb ref (incidents w) = Some i ->
    map_get Nat.eqb ref (incidents (snd (modify_incident ref f w))) =
      Some (f i) /\
    (forall j, j <> ref ->
               map_get Nat.eqb j (incidents (snd (modify_incident ref f w))) =
               map_get Nat.eqb j (incidents w)).
Proof.
  intros ref f w i H. rewrite (modify_incident_at _ _ _ _ H). cbn [snd].
  world_simpl. split.
  - apply (map_get_set_same _ _ _ Nat_eqb_eq').
  - intros j Hj. apply (map_get_set_other _ _ _ Nat_eqb_eq'). exact Hj.
Qed.

(** X30. What [update_status], [assign] and [escalate] do to the incident
    bound to the run.  The step succeeds; the incident gets status
    [investigating], assignee ["security-team"] or priority [P1]
    respectively and nothing else of it changes but its timeline, which
    grows at its end by one event of the matching type signed
    ["ComplianceAgent"], and its [updatedAt], which is the last of the
    three clock readings the step takes.  Its identity, the violations it
    records and its creation date stay; every other incident, and the
    detector's violations, are untouched. *)
Theorem executeAction_on_bound_incident :
  forall (step : PlaybookStep.t) (cfg : StepConfig.t) (a : Action)
         (v : Violation.t) (i : uuid) (bound : Incident.t) (w : World),
    PlaybookStep.config step = Some cfg ->
    StepConfig.action cfg = Some a ->
    a = update_status \/ a = assign \/ a = escalate ->
    getIncident i w = Some bound ->
    exists bound' ev w',
      executeAction step v (Some i) w = (Ok (mkResult true None), w') /\
      getIncident i w' = Some bound' /\
      Incident.timeline bound' = (Incident.timeline bound ++ [ev])%list /\
      IncidentEvent.type ev = action_event a /\
      IncidentEvent.actor ev = "ComplianceAgent" /\
      IncidentEvent.timestamp ev = clock w (S (ticks w)) /\
      Incident.updatedAt bound' = clock w (S (S (ticks w))) /\
      Incident.status bound' =
        (match a with update_status => inc_investigating
                    | _ => Incident.status bound end) /\
      Incident.assignee bound' =
        (match a with assign => Some "security-team"
                    | _ => Incident.assignee bound end) /\
      Incident.priority bound' =
        (match a with escalate => P1 | _ => Incident.priority bound end) /\
      Incident.id bound' = Incident.id bound /\
      Incident.violationIds bound' = Incident.violationIds bound /\
      Incident.createdAt bound' = Incident.createdAt bound /\
      (forall j, j <> i -> getIncident j w' = getIncident j w) /\
      violations w' = violations w.
Proof.
  intros step cfg a v i bound w Hcfg Hact Ha Hget.
  unfold getIncident in Hget.
  unfold executeAction, step_config. rewrite Hcfg.
  unfold bind at 1. unfold ret at 1. cbv beta iota. rewrite Hact.
  destruct Ha as [-> | [-> | ->]];
    unfold addIncidentEvent; cbv zeta;
    unfold bind at 1; unfold bind at 1;
    rewrite (modify_incident_at _ _ _ _ Hget);
    unfold bind at 1; unfold newDate at 1; cbv beta iota;
    unfold bind at 1;
    (rewrite (modify_incident_at _ _ _ _
                (proj1 (modify_chain i _ w bound Hget)))
      || idtac);
    unfold modify_incident, bind, uuidv4, newDate, ret;
    world_simpl;
    repeat (rewrite (map_get_set_same _ _ _ Nat_eqb_eq'); world_simpl);
    cbv beta iota;
    do 3 eexists; (split; [reflexivity|]);
    unfold getIncident; world_simpl;
    (split; [apply (map_get_set_same _ _ _ Nat_eqb_eq')|]);
    cbn [Incident.timeline Incident.updatedAt Incident.status
         Incident.assignee Incident.priority Incident.id Incident.violationIds
         Incident.createdAt Incident.set_status Incident.set_assignee
         Incident.set_priority Incident.set_updatedAt Incident.set_timeline
         IncidentEvent.type IncidentEvent.actor IncidentEvent.timestamp
         action_event];
    repeat (split; [reflexivity|]);
    (split; [|reflexivity]);
    intros j Hj;
    repeat rewrite (map_get_set_other _ _ _ Nat_eqb_eq') by exact Hj;
    reflexivity.
Qed.

Lemma executeAction_on_bound_incident_witness :
  exists bound' w',
    executeAction escalate_step (a_violation high certificate) (Some 0)
                  one_incident = (Ok (mkResult true None), w') /\
    getIncident 0 w' = Some bound' /\
    Incident.priority bound' = P1 /\
    map IncidentEvent.type (Incident.timeline bound') = [created; escalation].
Proof.
  assert (Hb : exists bound, getIncident 0 one_incident = Some bound /\
                             map IncidentEvent.type (Incident.timeline bound) =
                             [created]).
  { eexists. split; reflexivity. }
  destruct Hb as (bound & Hb & Ht).
  destruct (executeAction_on_bound_incident escalate_step
              (StepConfig.mk (Some escalate) None None None None) escalate
              (a_violation high certificate) 0 bound one_incident
              eq_refl eq_refl (or_intror (or_intror eq_refl)) Hb)
    as (bound' & ev & w' & H1 & H2 & H3 & H4 & _ & _ & _ & _ & _ & H10 & _).
  exists bound', w'. split; [exact H1|]. split; [exact H2|].
  split; [exact H10|]. rewrite H3, map_app, Ht. simpl. rewrite H4. reflexivity.
Defined.
